(** * A private blockchain (star registry): the Block and Blockchain classes

    Shallow embedding of [block.js] and [blockchain.js].

    Every method of the two classes returns a Promise, and several of them
    start asynchronous callbacks without waiting for them.  What a caller
    observes therefore depends on the order in which the JavaScript job
    queue runs the pending continuations.  The embedding keeps that order:
    the methods are written in a small command language ([prog]) whose
    interpreter ([exec], [drain]) implements promises, [await], async
    functions and the FIFO queue of promise jobs.

    Promises follow ECMAScript 2019 and later: [await p] on a promise takes
    one job, [p.catch(x)] with an [x] that is not a function passes the
    outcome of [p] on in one job, and jobs run first in, first out.  The
    queue is only ever fed by these jobs; nothing in the two classes sets a
    timer or waits for I/O.  What the host does with a rejection nobody
    handles is outside the embedding.

    Strings are sequences of bytes (the UTF-8 encoding of the JavaScript
    string); numbers are integers or [NaN] (no fraction ever arises in the
    two classes, and the integers stay far below 2^53).

    The libraries the classes call (the SHA-256 digest, [hex2ascii], the
    signature check) and [JSON.parse] are parameters: every theorem holds
    whatever they compute. *)

From Stdlib Require Import ZArith String Ascii List Lia DecimalString.
From Stdlib Require DecimalPos DecimalFacts.
From stdpp Require Import base list strings option.

Local Open Scope string_scope.
Local Open Scope list_scope.
Local Open Scope Z_scope.

(** ** JavaScript numbers and strings *)

Inductive number : Type :=
| NaN
| Num (z : Z).

Definition num_sub (a b : number) : number :=
  match a, b with
  | Num x, Num y => Num (x - y)
  | _, _ => NaN
  end.

(** [a <= b]: false as soon as one side is [NaN]. *)
Definition num_le (a b : number) : bool :=
  match a, b with
  | Num x, Num y => x <=? y
  | _, _ => false
  end.

Definition num_gt (a b : number) : bool :=
  match a, b with
  | Num x, Num y => y <? x
  | _, _ => false
  end.

(** [Number.prototype.toString] on an integer. *)
Definition Z_toString (z : Z) : string :=
  NilZero.string_of_int (Z.to_int z).

Definition bytes (l : list nat) : string :=
  fold_right (fun n s => String (ascii_of_nat n) s) "" l.

(** [s.slice(0, -k)]: all but the last [k] characters. *)
Definition slice_0_neg (k : nat) (s : string) : string :=
  substring 0 (String.length s - k) s.

(** [s.split(sep)] for a one-character separator. *)
Fixpoint split (sep : ascii) (s : string) : list string :=
  match s with
  | EmptyString => [""]
  | String c t =>
      if Ascii.eqb c sep then "" :: split sep t
      else match split sep t with
           | [] => [String c ""]
           | h :: r => String c h :: r
           end
  end.

Fixpoint strip_prefix (p s : string) : option string :=
  match p with
  | EmptyString => Some s
  | String a p' =>
      match s with
      | EmptyString => None
      | String b s' => if Ascii.eqb a b then strip_prefix p' s' else None
      end
  end.

(** The characters [parseInt] skips at the start of its input
    (WhiteSpace and LineTerminator), as UTF-8 byte sequences. *)
Definition white_space : list string :=
  map bytes
    [ [9%nat]; [10%nat]; [11%nat]; [12%nat]; [13%nat]; [32%nat];
      [194; 160]%nat; [239; 187; 191]%nat; [225; 154; 128]%nat;
      [226; 128; 128]%nat; [226; 128; 129]%nat; [226; 128; 130]%nat;
      [226; 128; 131]%nat; [226; 128; 132]%nat; [226; 128; 133]%nat;
      [226; 128; 134]%nat; [226; 128; 135]%nat; [226; 128; 136]%nat;
      [226; 128; 137]%nat; [226; 128; 138]%nat; [226; 128; 168]%nat;
      [226; 128; 169]%nat; [226; 128; 175]%nat; [226; 129; 159]%nat;
      [227; 128; 128]%nat ].

Fixpoint strip_any (ps : list string) (s : string) : option string :=
  match ps with
  | [] => None
  | p :: ps' =>
      match strip_prefix p s with
      | Some r => Some r
      | None => strip_any ps' s
      end
  end.

Fixpoint trim_start_fuel (n : nat) (s : string) : string :=
  match n with
  | O => s
  | S n' =>
      match strip_any white_space s with
      | Some r => trim_start_fuel n' r
      | None => s
      end
  end.

Definition trim_start (s : string) : string :=
  trim_start_fuel (String.length s) s.

Definition digit_val (c : ascii) : option Z :=
  let n := Z.of_nat (nat_of_ascii c) in
  if (48 <=? n) && (n <=? 57) then Some (n - 48)
  else if (97 <=? n) && (n <=? 122) then Some (n - 87)
  else if (65 <=? n) && (n <=? 90) then Some (n - 55)
  else None.

(** The longest prefix of radix-[R] digits, as an integer; [None] when the
    prefix is empty. *)
Fixpoint digits (R : Z) (s : string) (acc : option Z) : option Z :=
  match s with
  | EmptyString => acc
  | String c t =>
      match digit_val c with
      | Some d =>
          if d <? R
          then digits R t (Some (match acc with
                                 | Some a => a * R + d
                                 | None => d
                                 end))
          else acc
      | None => acc
      end
  end.

(** [parseInt(s)] with no radix argument. *)
Definition parseInt (s : string) : number :=
  let s1 := trim_start s in
  let '(sign, s2) :=
    match s1 with
    | String "-" t => (-1, t)
    | String "+" t => (1, t)
    | _ => (1, s1)
    end in
  let '(R, s3) :=
    match s2 with
    | String "0" (String "x" t) => (16, t)
    | String "0" (String "X" t) => (16, t)
    | _ => (10, s2)
    end in
  match digits R s3 None with
  | None => NaN
  | Some n => Num (sign * n)
  end.

(** [parseInt(a[i])] where the element may be missing: [undefined] is first
    turned into the string ["undefined"]. *)
Definition parseInt_opt (o : option string) : number :=
  match o with
  | Some s => parseInt s
  | None => parseInt "undefined"
  end.

(** ** JSON data *)

#[local] Unset Elimination Schemes.
Inductive json : Type :=
| JNull
| JBool (b : bool)
| JNum (z : Z)
| JStr (s : string)
| JArr (l : list json)
| JObj (kv : list (string * json)).
#[local] Set Elimination Schemes.

Definition hex_digit (n : nat) : ascii :=
  ascii_of_nat (if Nat.ltb n 10 then 48 + n else 87 + n).

Definition hex_byte (c : ascii) : string :=
  let n := nat_of_ascii c in
  String (hex_digit (Nat.div n 16)) (String (hex_digit (Nat.modulo n 16)) "").

(** [Buffer.from(s).toString('hex')] *)
Fixpoint hex_encode (s : string) : string :=
  match s with
  | EmptyString => ""
  | String c t => hex_byte c +:+ hex_encode t
  end.

Definition dquote : ascii := ascii_of_nat 34.
Definition backslash : ascii := ascii_of_nat 92.

(** A two-character escape sequence: backslash, then [c]. *)
Definition esc (c : string) : string := String backslash c.

(** The escaping done by [JSON.stringify] on one character of a string. *)
Definition json_escape (c : ascii) : string :=
  let n := nat_of_ascii c in
  if Nat.eqb n 34 then esc (String dquote "")
  else if Nat.eqb n 92 then esc (String backslash "")
  else if Nat.eqb n 8 then esc "b"
  else if Nat.eqb n 12 then esc "f"
  else if Nat.eqb n 10 then esc "n"
  else if Nat.eqb n 13 then esc "r"
  else if Nat.eqb n 9 then esc "t"
  else if Nat.ltb n 32 then esc ("u00" +:+ hex_byte c)
  else String c "".

Fixpoint json_quote_body (s : string) : string :=
  match s with
  | EmptyString => ""
  | String c t => json_escape c +:+ json_quote_body t
  end.

Definition json_quote (s : string) : string :=
  String dquote (json_quote_body s +:+ String dquote "").

Definition json_join (l : list string) : string :=
  match l with
  | [] => ""
  | x :: t => fold_left (fun acc y => acc +:+ "," +:+ y) t x
  end.

(** [JSON.stringify(j)]: no indentation, members in property order. *)
Fixpoint JSON_stringify (j : json) : string :=
  match j with
  | JNull => "null"
  | JBool true => "true"
  | JBool false => "false"
  | JNum z => Z_toString z
  | JStr s => json_quote s
  | JArr l => "[" +:+ json_join (map JSON_stringify l) +:+ "]"
  | JObj kv =>
      "{" +:+ json_join (map (fun p => json_quote (fst p) +:+ ":" +:+ JSON_stringify (snd p)) kv)
          +:+ "}"
  end.

(** Property read [j.key] on parsed data; [None] is [undefined].  Reading a
    property of [null] throws, which the caller handles. *)
Fixpoint assoc_last (key : string) (kv : list (string * json)) : option json :=
  match kv with
  | [] => None
  | (k, v) :: t =>
      match assoc_last key t with
      | Some r => Some r
      | None => if String.eqb k key then Some v else None
      end
  end.

(** ** Block objects *)

Module BlockClass.

Record Block : Type := mkBlock {
  hash : option string;              (* null until sealed *)
  height : Z;
  body : string;
  timeStamp : json;                  (* the number 0, then a string of seconds *)
  previousBlockHash : option string
}.

Definition set_hash (h : option string) (b : Block) : Block :=
  mkBlock h (height b) (body b) (timeStamp b) (previousBlockHash b).
Definition set_height (z : Z) (b : Block) : Block :=
  mkBlock (hash b) z (body b) (timeStamp b) (previousBlockHash b).
Definition set_timeStamp (t : json) (b : Block) : Block :=
  mkBlock (hash b) (height b) (body b) t (previousBlockHash b).
Definition set_previousBlockHash (h : option string) (b : Block) : Block :=
  mkBlock (hash b) (height b) (body b) (timeStamp b) h.

(** The fields a fresh [new Block(data)] holds. *)
Definition make (data : json) : Block :=
  {| hash := None;
     height := 0;
     body := hex_encode (JSON_stringify data);
     timeStamp := JNum 0;
     previousBlockHash := None |}.

Definition opt_json (o : option string) : json :=
  match o with
  | Some s => JStr s
  | None => JNull
  end.

(** The own properties of a Block, in the order the constructor creates
    them; this is what [JSON.stringify(block)] serialises. *)
Definition toJSON (b : Block) : json :=
  JObj [ ("hash", opt_json (hash b));
         ("height", JNum (height b));
         ("body", JStr (body b));
         ("timeStamp", timeStamp b);
         ("previousBlockHash", opt_json (previousBlockHash b)) ].

End BlockClass.

(** ** Values and the state the two classes work on *)

Inductive error : Type :=
| ReferenceError
| TypeError
| SyntaxError
| VerifyError.                          (* thrown by the signature library *)

Inductive value : Type :=
| VUndefined
| VBool (b : bool)
| VNum (n : number)
| VStr (s : string)
| VData (j : json)                      (* plain data, as JSON.parse returns it *)
| VBlock (r : nat)                      (* reference to a Block object *)
| VArray (a : nat)                      (* reference to an array *)
| VPromise (p : nat)                    (* reference to a promise *)
| VError (e : error).

(** ToBoolean: what [if (v)] tests. Every object, array included, is true. *)
Definition truthy (v : value) : bool :=
  match v with
  | VUndefined => false
  | VBool b => b
  | VNum NaN => false
  | VNum (Num z) => negb (z =? 0)
  | VStr s => negb (String.eqb s "")
  | VData JNull => false
  | VData (JBool b) => b
  | VData (JNum z) => negb (z =? 0)
  | VData (JStr s) => negb (String.eqb s "")
  | VData (JArr _) | VData (JObj _) => true
  | VBlock _ | VArray _ | VPromise _ | VError _ => true
  end.

(** The mutable state: the object heap, the Blockchain instance ([chain],
    [height]), the global scope as far as the classes touch it, and the
    clock. *)
Record world : Type := mkWorld {
  objects : list BlockClass.Block;      (* Block objects, addressed by position *)
  arrays : list (list value);           (* arrays (errorLog, stars), by position *)
  chain : list nat;                     (* this.chain: references to Block objects *)
  height : Z;                           (* this.height *)
  global_obj : option value;            (* the global binding named obj, if there is one *)
  now : Z                               (* new Date().getTime(), in milliseconds *)
}.

Definition set_objects (o : list BlockClass.Block) (w : world) : world :=
  mkWorld o (arrays w) (chain w) (height w) (global_obj w) (now w).
Definition set_arrays (a : list (list value)) (w : world) : world :=
  mkWorld (objects w) a (chain w) (height w) (global_obj w) (now w).
Definition set_chain (c : list nat) (w : world) : world :=
  mkWorld (objects w) (arrays w) c (height w) (global_obj w) (now w).
Definition set_height (h : Z) (w : world) : world :=
  mkWorld (objects w) (arrays w) (chain w) h (global_obj w) (now w).
Definition set_global_obj (g : option value) (w : world) : world :=
  mkWorld (objects w) (arrays w) (chain w) (height w) g (now w).

(** ** Commands

    A method body is a tree of commands.  [NewPromise], [Async] and [Await]
    are the three constructs of the source that involve the job queue;
    [CatchNC] is [p.catch(x)] for an [x] that is not a function, the only
    way the source calls [catch]. *)

Inductive prog : Type :=
| Return (v : value)
| Throw (e : value)
| GetW (k : world -> prog)
| PutW (w : world) (k : prog)
| NewPromise (executor : nat -> prog) (k : nat -> prog)
| Resolve (p : nat) (v : value) (k : prog)
| Reject (p : nat) (v : value) (k : prog)
| CatchNC (p : nat) (k : nat -> prog)
| Async (body : prog) (k : nat -> prog)
| Await (v : value) (k : value -> prog).

Fixpoint bind (c : prog) (f : value -> prog) : prog :=
  match c with
  | Return v => f v
  | Throw e => Throw e
  | GetW k => GetW (fun w => bind (k w) f)
  | PutW w k => PutW w (bind k f)
  | NewPromise ex k => NewPromise ex (fun p => bind (k p) f)
  | Resolve p v k => Resolve p v (bind k f)
  | Reject p v k => Reject p v (bind k f)
  | CatchNC p k => CatchNC p (fun q => bind (k q) f)
  | Async body k => Async body (fun r => bind (k r) f)
  | Await v k => Await v (fun x => bind (k x) f)
  end.

Notation "'let*' x ':=' c 'in' k" := (bind c (fun x => k))
  (at level 10, x name, c at level 100, k at level 200).
Notation "c1 ';;' c2" := (bind c1 (fun _ => c2))
  (at level 100, c2 at level 200, right associativity).

Definition skip : prog := Return VUndefined.
Definition modify (f : world -> world) : prog :=
  GetW (fun w => PutW (f w) skip).

(** [new Promise(executor)]; the executor receives the promise, on which
    [Resolve] and [Reject] stand for its two callbacks. *)
Definition new_Promise (executor : nat -> prog) : prog :=
  NewPromise executor (fun p => Return (VPromise p)).

(** [v.catch("some text")] *)
Definition catch_nc (v : value) : prog :=
  match v with
  | VPromise p => CatchNC p (fun q => Return (VPromise q))
  | _ => Throw (VError TypeError)
  end.

(** A call of [async (...) => { body }]. *)
Definition async (body : prog) : prog :=
  Async body (fun r => Return (VPromise r)).

Definition await (v : value) : prog := Await v Return.

(** [l.forEach(f)] *)
Fixpoint forEach {A : Type} (l : list A) (f : A -> prog) : prog :=
  match l with
  | [] => skip
  | x :: t => f x ;; forEach t f
  end.

(** ** Promises and the job queue *)

Inductive outcome : Type :=
| Fulfil (v : value)
| Rejection (e : value).

Inductive reaction : Type :=
| RAwait (k : value -> prog) (r : nat)  (* an await in the async call whose promise is r *)
| RPass (q : nat)                       (* a then/catch without handler, deriving q *)
| RAdopt (p : nat).                     (* p follows this promise *)

Inductive pstate : Type :=
| Pending (locked : bool) (rs : list reaction)
| Settled (o : outcome).

Inductive job : Type :=
| JResume (c : prog) (r : nat)          (* continue the async call whose promise is r *)
| JPass (q : nat) (o : outcome)
| JThenable (p q : nat)                 (* p was resolved with promise q *)
| JAdopt (p : nat) (o : outcome).

Record machine : Type := mkMachine {
  mworld : world;
  promises : list pstate;
  jobs : list job                       (* FIFO: run from the head, added at the end *)
}.

Definition set_mworld (w : world) (m : machine) : machine :=
  mkMachine w (promises m) (jobs m).
Definition set_promises (ps : list pstate) (m : machine) : machine :=
  mkMachine (mworld m) ps (jobs m).
Definition enqueue (js : list job) (m : machine) : machine :=
  mkMachine (mworld m) (promises m) (jobs m ++ js).

Definition alloc_promise (m : machine) : machine :=
  set_promises (promises m ++ [Pending false []]) m.

Definition reaction_job (o : outcome) (r : reaction) : job :=
  match r with
  | RAwait k a =>
      JResume (match o with Fulfil v => k v | Rejection e => Throw e end) a
  | RPass q => JPass q o
  | RAdopt p => JAdopt p o
  end.

(** Settle a pending promise and schedule its reactions, in the order they
    were registered. *)
Definition settle (p : nat) (o : outcome) (rs : list reaction) (m : machine) : machine :=
  enqueue (map (reaction_job o) rs) (set_promises (<[p := Settled o]> (promises m)) m).

(** The [reject] callback of promise [p]. *)
Definition reject_promise (p : nat) (e : value) (m : machine) : machine :=
  match promises m !! p with
  | Some (Pending false rs) => settle p (Rejection e) rs m
  | _ => m
  end.

(** The [resolve] callback of promise [p]: a second call, or a call after
    [reject], does nothing; a promise argument is followed. *)
Definition resolve_promise (p : nat) (v : value) (m : machine) : machine :=
  match promises m !! p with
  | Some (Pending false rs) =>
      match v with
      | VPromise q =>
          if Nat.eqb p q then settle p (Rejection (VError TypeError)) rs m
          else enqueue [JThenable p q]
                 (set_promises (<[p := Pending true rs]> (promises m)) m)
      | _ => settle p (Fulfil v) rs m
      end
  | _ => m
  end.

(** Register a reaction: queued at once when the promise is settled. *)
Definition subscribe (p : nat) (r : reaction) (m : machine) : machine :=
  match promises m !! p with
  | Some (Pending l rs) => set_promises (<[p := Pending l (rs ++ [r])]> (promises m)) m
  | Some (Settled o) => enqueue [reaction_job o r] m
  | None => m
  end.

Definition unlock (p : nat) (m : machine) : machine :=
  match promises m !! p with
  | Some (Pending true rs) => set_promises (<[p := Pending false rs]> (promises m)) m
  | _ => m
  end.

Inductive completion : Type :=
| Normal (v : value)
| Abrupt (e : value)
| Suspended.                            (* stopped at an await *)

(** What the end of an async call does to its promise. *)
Definition finish (r : nat) (c : completion) (m : machine) : machine :=
  match c with
  | Normal v => resolve_promise r v m
  | Abrupt e => reject_promise r e m
  | Suspended => m
  end.

(** Run a command until it returns, throws, or reaches an await.  [ctx] is
    the promise of the async call being run, if any.  An exception leaving
    an executor rejects the promise under construction; one leaving an
    async body rejects that call's promise (the source has no try/catch). *)
Fixpoint exec (ctx : option nat) (c : prog) (m : machine) : machine * completion :=
  match c with
  | Return v => (m, Normal v)
  | Throw e => (m, Abrupt e)
  | GetW k => exec ctx (k (mworld m)) m
  | PutW w k => exec ctx k (set_mworld w m)
  | NewPromise ex k =>
      let p := length (promises m) in
      let '(m1, r) := exec None (ex p) (alloc_promise m) in
      let m2 := match r with Abrupt e => reject_promise p e m1 | _ => m1 end in
      exec ctx (k p) m2
  | Resolve p v k => exec ctx k (resolve_promise p v m)
  | Reject p v k => exec ctx k (reject_promise p v m)
  | CatchNC p k =>
      let q := length (promises m) in
      exec ctx (k q) (subscribe p (RPass q) (alloc_promise m))
  | Async body k =>
      let r := length (promises m) in
      let '(m1, res) := exec (Some r) body (alloc_promise m) in
      exec ctx (k r) (finish r res m1)
  | Await v k =>
      match ctx with
      | Some r =>
          (match v with
           | VPromise p => subscribe p (RAwait k r) m
           | _ => enqueue [JResume (k v) r] m
           end, Suspended)
      | None => (m, Abrupt (VError SyntaxError))
      end
  end.

Definition run_job (j : job) (m : machine) : machine :=
  match j with
  | JResume c r => let '(m1, res) := exec (Some r) c m in finish r res m1
  | JPass q (Fulfil v) => resolve_promise q v m
  | JPass q (Rejection e) => reject_promise q e m
  | JThenable p q => subscribe q (RAdopt p) m
  | JAdopt p (Fulfil v) => resolve_promise p v (unlock p m)
  | JAdopt p (Rejection e) => reject_promise p e (unlock p m)
  end.

(** One turn of the job queue. *)
Definition step (m : machine) : machine :=
  match jobs m with
  | [] => m
  | j :: q => run_job j (mkMachine (mworld m) (promises m) q)
  end.

(** [n] turns of the job queue. *)
Fixpoint drain (n : nat) (m : machine) : machine :=
  match n with
  | O => m
  | S n' => drain n' (step m)
  end.

(** A synchronous call from the top level, on an idle machine. *)
Definition start (w : world) : machine := mkMachine w [] [].
Definition call (c : prog) (w : world) : machine * completion :=
  exec None c (start w).

Definition pending (p : nat) (m : machine) : Prop :=
  exists l rs, promises m !! p = Some (Pending l rs).
Definition fulfilled (p : nat) (v : value) (m : machine) : Prop :=
  promises m !! p = Some (Settled (Fulfil v)).
Definition rejected (p : nat) (e : value) (m : machine) : Prop :=
  promises m !! p = Some (Settled (Rejection e)).

(** ** Heap access *)

(** [r.field] reads: the object must exist. *)
Definition with_block (r : nat) (k : BlockClass.Block -> prog) : prog :=
  GetW (fun w =>
    match objects w !! r with
    | Some b => k b
    | None => Throw (VError TypeError)
    end).

(** [r.field = ...] *)
Definition update_block (r : nat) (f : BlockClass.Block -> BlockClass.Block) : prog :=
  GetW (fun w =>
    match objects w !! r with
    | Some b => PutW (set_objects (<[r := f b]> (objects w)) w) skip
    | None => Throw (VError TypeError)
    end).

(** [new BlockClass.Block(data)] *)
Definition new_Block (data : json) : prog :=
  GetW (fun w =>
    PutW (set_objects (objects w ++ [BlockClass.make data]) w)
         (Return (VBlock (length (objects w))))).

(** [let a = []] *)
Definition new_array : prog :=
  GetW (fun w =>
    PutW (set_arrays (arrays w ++ [[]]) w) (Return (VArray (length (arrays w))))).

(** [a.push(v)] *)
Definition push (a v : value) : prog :=
  match a with
  | VArray i =>
      GetW (fun w =>
        match arrays w !! i with
        | Some l => PutW (set_arrays (<[i := (l ++ [v])]> (arrays w)) w) skip
        | None => Throw (VError TypeError)
        end)
  | _ => Throw (VError TypeError)
  end.

(** [obj = v] in strict code (a class body always is): the assignment
    needs an existing binding, and none is declared in either file. *)
Definition assign_obj (v : value) : prog :=
  GetW (fun w =>
    match global_obj w with
    | Some _ => PutW (set_global_obj (Some v) w) skip
    | None => Throw (VError ReferenceError)
    end).

(** Reading [obj]. *)
Definition read_obj (k : value -> prog) : prog :=
  GetW (fun w =>
    match global_obj w with
    | Some v => k v
    | None => Throw (VError ReferenceError)
    end).

(** [a === b] for a field that is null or a string against a string. *)
Definition hash_is (a : option string) (b : string) : bool :=
  match a with
  | Some x => String.eqb x b
  | None => false
  end.

(** [a === b] for two fields that are null or a string. *)
Definition hash_eq (a b : option string) : bool :=
  match a, b with
  | Some x, Some y => String.eqb x y
  | None, None => true
  | _, _ => false
  end.

(** [self.chain.filter(p => f(p))[0]] *)
Definition first_block (f : BlockClass.Block -> bool) (w : world) : option nat :=
  head (List.filter
          (fun r => match objects w !! r with Some b => f b | None => false end)
          (chain w)).

(** [self.chain[i]] for a number [i]. *)
Definition chain_at (i : Z) (w : world) : option BlockClass.Block :=
  if i <? 0 then None
  else match chain w !! Z.to_nat i with
       | Some r => objects w !! r
       | None => None
       end.

(** [data.owner] *)
Definition get_owner (data : value) : prog :=
  match data with
  | VUndefined | VData JNull => Throw (VError TypeError)
  | VData (JObj kv) =>
      match assoc_last "owner" kv with
      | Some j => Return (VData j)
      | None => Return VUndefined
      end
  | _ => Return VUndefined
  end.

(** [v === s] for a string [s]. *)
Definition is_string (v : value) (s : string) : bool :=
  match v with
  | VStr x | VData (JStr x) => String.eqb x s
  | _ => false
  end.

(** The seconds of the clock as text:
    [new Date().getTime().toString().slice(0, -3)]. *)
Definition seconds_text (w : world) : string :=
  slice_0_neg 3 (Z_toString (now w)).

Definition genesis_data : json := JObj [("data", JStr "Genesis Block")].

Section Classes.

(** The three libraries the classes call, and the built-in parser. *)
Variable SHA256 : string -> string.            (* crypto-js/sha256, as hex text *)
Variable hex2ascii : string -> string.
Variable JSON_parse : string -> option json.   (* None: SyntaxError *)
Variable bitcoinMessage_verify :
  string -> string -> string -> option bool.   (* message, address, signature; None: throws *)

(** *** class Block *)

Definition validate (self : nat) : prog :=
  let* p := new_Promise (fun p =>
    with_block self (fun b0 =>
      let currentHash := BlockClass.hash b0 in
      update_block self (BlockClass.set_hash None) ;;
      with_block self (fun b1 =>
        let newHash := SHA256 (JSON_stringify (BlockClass.toJSON b1)) in
        update_block self (BlockClass.set_hash currentHash) ;;
        Resolve p (VBool (hash_is currentHash newHash)) skip))) in
  catch_nc p.

Definition getBData (self : nat) : prog :=
  let* p := new_Promise (fun p =>
    with_block self (fun b =>
      let encodedData := BlockClass.body b in
      let decodedData := hex2ascii encodedData in
      match JSON_parse decodedData with
      | None => Throw (VError SyntaxError)
      | Some j =>
          assign_obj (VData j) ;;
          with_block self (fun b' =>
            if 0 <? BlockClass.height b'
            then read_obj (fun obj => Resolve p obj skip)
            else skip)
      end)) in
  catch_nc p.

(** *** class Blockchain *)

Definition getChainHeight : prog :=
  new_Promise (fun p =>
    GetW (fun w => Resolve p (VNum (Num (height w))) skip)).

Definition getBlockByHash (h : string) : prog :=
  let* p := new_Promise (fun p =>
    GetW (fun w =>
      match first_block (fun b => hash_is (BlockClass.hash b) h) w with
      | Some r => Resolve p (VBlock r) skip
      | None => skip
      end)) in
  catch_nc p.

Definition getBlockByHeight (h : Z) : prog :=
  let* p := new_Promise (fun p =>
    GetW (fun w =>
      match first_block (fun b => BlockClass.height b =? h) w with
      | Some r => Resolve p (VBlock r) skip
      | None => skip
      end)) in
  catch_nc p.

(** The callback [validateChain] gives to [forEach]. *)
Definition check_block (errorLog : value) (block : nat) : prog :=
  with_block block (fun b =>
    if BlockClass.height b =? 0 then
      let* vp := validate block in
      let* isValid := await vp in
      if negb (truthy isValid)
      then push errorLog (VStr "Genesis Block is not valid")
      else skip
    else
      GetW (fun w =>
        match chain_at (BlockClass.height b - 1) w with
        | None => Throw (VError TypeError)
        | Some prev =>
            if hash_eq (BlockClass.previousBlockHash b) (BlockClass.hash prev) then
              let* vp := validate block in
              let* isValid := await vp in
              if negb (truthy isValid)
              then push errorLog (VStr "[object Object]is not validated")
              else skip
            else skip
        end)).

Definition validateChain : prog :=
  let* errorLog := new_array in
  new_Promise (fun p =>
    async (
      GetW (fun w =>
        forEach (chain w) (fun block => async (check_block errorLog block))) ;;
      Resolve p errorLog skip)).

Definition _addBlock (block : nat) : prog :=
  let* p := new_Promise (fun p =>
    async (
      let* hp := getChainHeight in
      let* chainHeight := await hp in
      (match chainHeight with
       | VNum n =>
           if num_gt n (Num (-1)) then
             let* bp := GetW (fun w => getBlockByHeight (height w)) in
             let* prevBlock := await bp in
             match prevBlock with
             | VBlock r =>
                 with_block r (fun pb =>
                   update_block block
                     (BlockClass.set_previousBlockHash (BlockClass.hash pb)))
             | _ => Throw (VError TypeError)
             end
           else skip
       | _ => skip                    (* getChainHeight gives a number *)
       end) ;;
      GetW (fun w =>
        update_block block (BlockClass.set_timeStamp (JStr (seconds_text w)))) ;;
      GetW (fun w =>
        let newHeight := height w + 1 in
        update_block block (BlockClass.set_height newHeight)) ;;
      with_block block (fun b =>
        update_block block
          (BlockClass.set_hash (Some (SHA256 (JSON_stringify (BlockClass.toJSON b)))))) ;;
      let* vp := validateChain in
      let* isValid := await vp in
      (if truthy isValid then
         modify (fun w => set_chain (chain w ++ [block]) w) ;;
         modify (fun w => set_height (height w + 1) w)
       else skip) ;;
      Resolve p (VBlock block) skip)) in
  catch_nc p.

Definition initializeChain : prog :=
  async (
    GetW (fun w =>
      if height w =? -1 then
        let* block := new_Block genesis_data in
        match block with
        | VBlock r => let* ap := _addBlock r in await ap ;; skip
        | _ => skip
        end
      else skip)).

(** [new Blockchain()] *)
Definition new_Blockchain : prog :=
  modify (set_chain []) ;;
  modify (set_height (-1)) ;;
  initializeChain ;;
  skip.

Definition requestMessageOwnershipVerification (address : string) : prog :=
  new_Promise (fun p =>
    GetW (fun w =>
      Resolve p (VStr (address +:+ ":" +:+ seconds_text w +:+ ":starRegistry")) skip)).

Definition submitStar (address message signature : string) (star : json) : prog :=
  let* p := new_Promise (fun p =>
    async (
      let msgTime := parseInt_opt (split ":" message !! 1%nat) in
      GetW (fun w =>
        let currTime := parseInt (seconds_text w) in
        if num_le (num_sub currTime msgTime) (Num 300) then
          match bitcoinMessage_verify message address signature with
          | None => Throw (VError VerifyError)
          | Some msgValid =>
              if msgValid then
                let* newBlock := new_Block (JObj [("star", star); ("owner", JStr address)]) in
                match newBlock with
                | VBlock r =>
                    let* ap := _addBlock r in
                    let* added := await ap in
                    Resolve p added skip
                | _ => skip
                end
              else skip
          end
        else skip))) in
  catch_nc p.

Definition getStarsByWalletAddress (address : string) : prog :=
  let* stars := new_array in
  new_Promise (fun p =>
    GetW (fun w =>
      forEach (chain w) (fun block =>
        async (
          let* dp := getBData block in
          let* data := await dp in
          let* owner := get_owner data in
          if is_string owner address
          then push stars data
          else Reject p VUndefined skip))) ;;
    Resolve p stars skip).

(** *** Callers *)

(** A caller that waits for the promise [op] returns and, when resumed,
    copies the array it was given ([const r = await op(); seen = [...r]]).
    The copy is a new array, so what the caller saw stays visible however
    the original array changes afterwards. *)
Definition copy_array (v : value) : prog :=
  match v with
  | VArray i =>
      GetW (fun w =>
        match arrays w !! i with
        | Some l => PutW (set_arrays (arrays w ++ [l]) w) skip
        | None => Throw (VError TypeError)
        end)
  | _ => skip
  end.

Definition awaiting_caller (op : prog) : prog :=
  async (let* p := op in let* r := await p in copy_array r).

(** *** What the methods compute *)

(** The digest [validate] recomputes: the block serialised with [hash] set
    to null. *)
Definition recomputed (b : BlockClass.Block) : string :=
  SHA256 (JSON_stringify (BlockClass.toJSON (BlockClass.set_hash None b))).

(** The answer of [validate] on a block. *)
Definition valid (b : BlockClass.Block) : bool :=
  hash_is (BlockClass.hash b) (recomputed b).

(** With no binding for [obj], the executor of [getBData] throws: a
    [SyntaxError] from [JSON.parse], or else the [ReferenceError] of the
    assignment. *)
Definition getBData_error (b : BlockClass.Block) : error :=
  match JSON_parse (hex2ascii (BlockClass.body b)) with
  | None => SyntaxError
  | Some _ => ReferenceError
  end.

(** What the callback of [validateChain] does with one block of the chain:
    it throws, it returns at once without looking further, or it calls
    [validate] and will report [msg] if the answer [ok] is false. *)
Inductive verdict : Type :=
| Crash
| Skipped
| Checked (msg : string) (ok : bool).

Definition examine (w : world) (block : nat) : verdict :=
  match objects w !! block with
  | None => Crash
  | Some b =>
      if BlockClass.height b =? 0 then Checked "Genesis Block is not valid" (valid b)
      else match chain_at (BlockClass.height b - 1) w with
           | None => Crash
           | Some prev =>
               if hash_eq (BlockClass.previousBlockHash b) (BlockClass.hash prev)
               then Checked "[object Object]is not validated" (valid b)
               else Skipped
           end
  end.

(** The messages that end up in the error log of [validateChain]. *)
Definition finding (w : world) (block : nat) : list value :=
  match examine w block with
  | Checked msg false => [VStr msg]
  | _ => []
  end.

Definition findings (w : world) : list value :=
  flat_map (finding w) (chain w).

(** What [_addBlock] makes of the block it is given, before it validates
    the chain: [prev] is the hash of the last block, if the chain has one. *)
Definition stamped (w : world) (prev : option (option string)) (b : BlockClass.Block)
  : BlockClass.Block :=
  BlockClass.set_height (height w + 1)
    (BlockClass.set_timeStamp (JStr (seconds_text w))
       (match prev with
        | Some h => BlockClass.set_previousBlockHash h b
        | None => b
        end)).

Definition sealed (w : world) (prev : option (option string)) (b : BlockClass.Block)
  : BlockClass.Block :=
  BlockClass.set_hash
    (Some (SHA256 (JSON_stringify (BlockClass.toJSON (stamped w prev b)))))
    (stamped w prev b).

(** The end of [_addBlock], from the answer of [validateChain] on. *)
Definition commit (p block : nat) (isValid : value) : prog :=
  (if truthy isValid then
     modify (fun w => set_chain (chain w ++ [block]) w) ;;
     modify (fun w => set_height (height w + 1) w)
   else skip) ;;
  Resolve p (VBlock block) skip.

End Classes.

(** ** Ledgers *)

(** The invariant of the data model: position [i] of the chain holds a block
    of height [i], and [height] is the last position. *)
Definition well_formed (w : world) : Prop :=
  height w = Z.of_nat (length (chain w)) - 1 /\
  forall (i r : nat), chain w !! i = Some r ->
    exists b, objects w !! r = Some b /\ BlockClass.height b = Z.of_nat i.

(** The time test of [submitStar], on the two parsed numbers. *)
Definition in_time (w : world) (message : string) : bool :=
  num_le (num_sub (parseInt (seconds_text w))
                  (parseInt_opt (split ":" message !! 1%nat)))
         (Num 300).

(** The call returned a promise which stays pending however long the job
    queue runs, and the state stays [w] throughout. *)
Definition never_settles (w : world) (res : machine * completion) : Prop :=
  exists q, snd res = Normal (VPromise q) /\
    forall n, pending q (drain n (fst res)) /\ mworld (drain n (fst res)) = w.

(** The state before [new Blockchain()], at a given time. *)
Definition blank (t : Z) : world := mkWorld [] [] [] 0 None t.

(** ** Callbacks started by forEach

    [validateChain] and [getStarsByWalletAddress] start one async callback
    per block and do not wait for it.  A callback either ends at once
    ([Inert], leaving its settled promise behind) or stops at its await
    ([Waiting]): it then leaves three promises (its own, the one it awaits
    through, the one it awaits) and one job in the queue.  [o] is what the
    awaited promise settles with, [k] the rest of the callback, and [f],
    [res] say what running that rest does to the state and how it ends. *)

Inductive effect : Type :=
| Inert (st : pstate)
| Waiting (o : outcome) (k : value -> prog) (f : world -> world) (res : completion).

Definition resumed (o : outcome) (k : value -> prog) : prog :=
  match o with
  | Fulfil v => k v
  | Rejection e => Throw e
  end.

Definition final_state (res : completion) : pstate :=
  match res with
  | Normal v => Settled (Fulfil v)
  | Abrupt e => Settled (Rejection e)
  | Suspended => Pending false []
  end.

(** The promises and jobs the callbacks leave when forEach returns; [n] is
    the number of promises before. *)
Fixpoint layout_promises (n : nat) (es : list effect) : list pstate :=
  match es with
  | [] => []
  | Inert st :: t => st :: layout_promises (n + 1) t
  | Waiting o k _ _ :: t =>
      Pending false [] :: Settled o :: Pending false [RAwait k n]
        :: layout_promises (n + 3) t
  end.

Fixpoint layout_jobs (n : nat) (es : list effect) : list job :=
  match es with
  | [] => []
  | Inert _ :: t => layout_jobs (n + 1) t
  | Waiting o _ _ _ :: t => JPass (n + 2) o :: layout_jobs (n + 3) t
  end.

(** Once those jobs have run: every awaited promise is settled and every
    callback is queued for its continuation. *)
Fixpoint passed_promises (n : nat) (es : list effect) : list pstate :=
  match es with
  | [] => []
  | Inert st :: t => st :: passed_promises (n + 1) t
  | Waiting o _ _ _ :: t =>
      Pending false [] :: Settled o :: Settled o :: passed_promises (n + 3) t
  end.

Fixpoint resume_jobs (n : nat) (es : list effect) : list job :=
  match es with
  | [] => []
  | Inert _ :: t => resume_jobs (n + 1) t
  | Waiting o k _ _ :: t => JResume (resumed o k) n :: resume_jobs (n + 3) t
  end.

(** Once the continuations have run. *)
Fixpoint finished_promises (n : nat) (es : list effect) : list pstate :=
  match es with
  | [] => []
  | Inert st :: t => st :: finished_promises (n + 1) t
  | Waiting o _ _ res :: t =>
      final_state res :: Settled o :: Settled o :: finished_promises (n + 3) t
  end.

Fixpoint final_world (es : list effect) (w : world) : world :=
  match es with
  | [] => w
  | Inert _ :: t => final_world t w
  | Waiting _ _ f _ :: t => final_world t (f w)
  end.

Definition plain (o : outcome) : Prop :=
  match o with
  | Fulfil (VPromise _) => False
  | _ => True
  end.

Definition plain_effect (e : effect) : Prop :=
  match e with
  | Waiting o _ _ _ => plain o
  | Inert _ => True
  end.

Definition ends (res : completion) : Prop :=
  match res with
  | Normal (VPromise _) | Suspended => False
  | _ => True
  end.

(** The description [f], [res] of a continuation is right, on every state
    that satisfies [P]. *)
Definition sound (P : world -> Prop) (e : effect) : Prop :=
  match e with
  | Inert _ => True
  | Waiting o k f res =>
      plain o /\ ends res /\
      forall ctx w ps js, P w ->
        exec ctx (resumed o k) (mkMachine w ps js) = (mkMachine (f w) ps js, res) /\
        P (f w)
  end.

(** The rest of the callback of [validateChain] after its await. *)
Definition report (errorLog : value) (msg : string) : value -> prog :=
  fun isValid => if negb (truthy isValid) then push errorLog (VStr msg) else skip.

(** [errorLog.push(msg)] on the array at [a]. *)
Definition log (a : nat) (v : value) (w : world) : world :=
  match arrays w !! a with
  | Some l => set_arrays (<[a := l ++ [v]]> (arrays w)) w
  | None => w
  end.

Definition check_effect (a : nat) (v : verdict) : effect :=
  match v with
  | Crash => Inert (Settled (Rejection (VError TypeError)))
  | Skipped => Inert (Settled (Fulfil VUndefined))
  | Checked msg ok =>
      Waiting (Fulfil (VBool ok)) (report (VArray a) msg)
              (if ok then (fun w => w) else log a (VStr msg)) (Normal VUndefined)
  end.

(** The rest of the callback of [getStarsByWalletAddress] after its await. *)
Definition star_kont (stars : value) (p : nat) (address : string) : value -> prog :=
  fun data =>
    let* owner := get_owner data in
    if is_string owner address then push stars data else Reject p VUndefined skip.

Definition has_array (a : nat) (w : world) : Prop := is_Some (arrays w !! a).

(** The state [_addBlock] leaves: the block is in the chain, the height is
    one more. *)
Definition committed (block : nat) (w : world) : world :=
  set_height (height w + 1) (set_chain (chain w ++ [block]) w).

(** Where [_addBlock] takes [previousBlockHash] from: nothing on an empty
    ledger, else the hash of the first block of the chain whose height is
    [height].  [None]: there is no such block, and [_addBlock] waits for
    ever for [getBlockByHeight]. *)
Definition last_link (w : world) : option (option (option string)) :=
  if num_gt (Num (height w)) (Num (-1)) then
    match first_block (fun b => BlockClass.height b =? height w) w with
    | Some r =>
        match objects w !! r with
        | Some pb => Some (Some (BlockClass.hash pb))
        | None => None
        end
    | None => None
    end
  else Some None.

Section Effects.

Variable SHA256 : string -> string.
Variable hex2ascii : string -> string.
Variable JSON_parse : string -> option json.

(** What [getBData] rejects with when [obj] is not bound. *)
Definition decode_error (w : world) (block : nat) : error :=
  match objects w !! block with
  | Some b => getBData_error hex2ascii JSON_parse b
  | None => TypeError
  end.

Definition star_effects (a p : nat) (address : string) (w : world) (l : list nat)
  : list effect :=
  map (fun block =>
         Waiting (Rejection (VError (decode_error w block)))
                 (star_kont (VArray a) p address)
                 (fun w => w) (Abrupt (VError (decode_error w block)))) l.


Definition check_effects (a : nat) (w : world) (l : list nat) : list effect :=
  map (fun block => check_effect a (examine SHA256 w block)) l.

End Effects.

(** ** Sample ledgers *)

Section Samples.

Variable SHA256 : string -> string.

(** Sealing, as [_addBlock] does it: the digest of the serialised block. *)
Definition seal (b : BlockClass.Block) : BlockClass.Block :=
  BlockClass.set_hash (Some (SHA256 (JSON_stringify (BlockClass.toJSON b)))) b.

Definition genesis_block : BlockClass.Block :=
  seal (BlockClass.set_timeStamp (JStr "1700000000") (BlockClass.make genesis_data)).

Definition star1 : json :=
  JObj [("star", JObj [("ra", JStr "16h"); ("dec", JStr "-26")]); ("owner", JStr "addr1")].

Definition forged : json :=
  JObj [("star", JObj [("ra", JStr "0h"); ("dec", JStr "0")]); ("owner", JStr "addr1")].

Definition record_block : BlockClass.Block :=
  seal (BlockClass.set_previousBlockHash (BlockClass.hash genesis_block)
          (BlockClass.set_height 1
             (BlockClass.set_timeStamp (JStr "1700000000") (BlockClass.make star1)))).

(** The ledger after construction, and after one record of [addr1]. *)
Definition ledger0 : world :=
  mkWorld [genesis_block] [] [0%nat] 0 None 1700000000123.
Definition ledger1 : world :=
  mkWorld [genesis_block; record_block] [] [0%nat; 1%nat] 1 None 1700000000123.

(** Changes made to a stored block from outside the two classes:
    [chain[r].body = ...] and [chain[r].previousBlockHash = null]. *)
Definition set_body (s : string) (b : BlockClass.Block) : BlockClass.Block :=
  BlockClass.mkBlock (BlockClass.hash b) (BlockClass.height b) s
    (BlockClass.timeStamp b) (BlockClass.previousBlockHash b).

Definition tamper (r : nat) (f : BlockClass.Block -> BlockClass.Block) (w : world) : world :=
  match objects w !! r with
  | Some b => set_objects (<[r := f b]> (objects w)) w
  | None => w
  end.

(** The ledger of one record in which the stored record has lost its link
    ([previousBlockHash] set to null) and has a forged body. *)
Definition unlinked_ledger : world :=
  tamper 1 (fun b => BlockClass.set_previousBlockHash None
                       (set_body (hex_encode (JSON_stringify forged)) b))
         ledger1.

(** The ledger of one record after the body of the stored record was
    overwritten. *)
Definition forged_record_ledger : world :=
  tamper 1 (set_body (hex_encode (JSON_stringify forged))) ledger1.

(** The fresh ledger after the body of the genesis block was overwritten,
    with one more Block object, just constructed and not yet in the chain. *)
Definition forged_genesis_ledger : world :=
  mkWorld [set_body (hex_encode (JSON_stringify forged)) genesis_block; BlockClass.make star1]
          [] [0%nat] 0 None 1700000000123.

End Samples.

(** The same ledger at another time of the clock. *)
Definition at_time (t : Z) (w : world) : world :=
  mkWorld (objects w) (arrays w) (chain w) (height w) (global_obj w) t.

(** Stand-ins for the libraries, for the examples: a digest that returns
    its input (so two different texts never collide), a signature check
    that says no, decoders that decode nothing. *)
Definition text_digest (s : string) : string := s.
Definition refuse (message address signature : string) : option bool := Some false.
Definition same_text (s : string) : string := s.
Definition no_parse (s : string) : option json := None.

(** And stand-ins that do their work on the sample payloads: a signature
    check that says yes, a decoder of hex text, a parser that knows the
    texts of the two sample payloads. *)
Definition accept (message address signature : string) : option bool := Some true.

Definition hex_val (c : ascii) : option nat :=
  match digit_val c with
  | Some d => if d <? 16 then Some (Z.to_nat d) else None
  | None => None
  end.

Fixpoint hex_decode (s : string) : string :=
  match s with
  | String a (String b t) =>
      match hex_val a, hex_val b with
      | Some x, Some y => String (ascii_of_nat (16 * x + y)) (hex_decode t)
      | _, _ => hex_decode t
      end
  | _ => ""
  end.

Definition sample_parse (s : string) : option json :=
  if String.eqb s (JSON_stringify star1) then Some star1
  else if String.eqb s (JSON_stringify genesis_data) then Some genesis_data
  else None.

(** The [star] argument of [submitStar] that gives the payload [star1]. *)
Definition star_coords : json := JObj [("ra", JStr "16h"); ("dec", JStr "-26")].

(** ** Ledgers built through the two classes *)

Section Invariants.

Variable SHA256 : string -> string.

(** The block at position [i] of the chain carries the hash of the block at
    the position before it; nothing is asked of the first block. *)
Definition linked (w : world) (i : nat) (b : BlockClass.Block) : Prop :=
  match i with
  | O => True
  | S j =>
      exists rp pb, chain w !! j = Some rp /\ objects w !! rp = Some pb /\
                    BlockClass.previousBlockHash b = BlockClass.hash pb
  end.

(** A ledger as the constructor and [_addBlock] leave it: well formed, every
    block of the chain answers true to [validate] and is linked to the block
    before it. *)
Definition intact (w : world) : Prop :=
  well_formed w /\
  forall (i r : nat) b, chain w !! i = Some r -> objects w !! r = Some b ->
    valid SHA256 b = true /\ linked w i b.

(** The state [_addBlock] leaves on a ledger in which [validateChain] finds
    nothing: the object [block] has become [b], it is the last entry of the
    chain, the height is one more, and an empty error log is left behind. *)
Definition extended (w : world) (block : nat) (b : BlockClass.Block) : world :=
  mkWorld (<[block := b]> (objects w)) (arrays w ++ [[]]) (chain w ++ [block])
          (height w + 1) (global_obj w) (now w).

(** The genesis block [initializeChain] makes when the clock shows [t]. *)
Definition genesis_at (t : Z) : BlockClass.Block :=
  seal SHA256 (BlockClass.set_timeStamp (JStr (seconds_text (blank t)))
                 (BlockClass.make genesis_data)).

(** The block [submitStar] makes of a star and its owner. *)
Definition star_block (w : world) (link : option (option string))
    (address : string) (star : json) : BlockClass.Block :=
  sealed SHA256 w link (BlockClass.make (JObj [("star", star); ("owner", JStr address)])).

End Invariants.

(** ** Clients *)

Section Building.

Variable SHA256 : string -> string.
Variable bitcoinMessage_verify : string -> string -> string -> option bool.

(** A client that appends a block in the turn in which it made the ledger:
    [const bc = new Blockchain(); bc._addBlock(new BlockClass.Block(data))]. *)
Definition append_at_once (data : json) : prog :=
  new_Blockchain SHA256 ;;
  let* b := new_Block data in
  match b with
  | VBlock r => _addBlock SHA256 r
  | _ => skip
  end.

(** The ledgers a client can build: it makes the ledger, lets the queue
    run, and then, as time goes by, submits stars that pass the two tests
    of [submitStar] and calls [validateChain], each time letting the queue
    run until it is empty. *)
Inductive built : world -> Prop :=
| built_new (w0 : world) :
    built (mworld (drain 4 (fst (call (new_Blockchain SHA256) w0))))
| built_tick (w : world) (t : Z) :
    built w -> built (at_time t w)
| built_star (w : world) (address message signature : string) (star : json) (n : nat) :
    built w ->
    in_time w message = true ->
    bitcoinMessage_verify message address signature = Some true ->
    jobs (drain n (fst (call (submitStar SHA256 bitcoinMessage_verify
                                address message signature star) w))) = [] ->
    built (mworld (drain n (fst (call (submitStar SHA256 bitcoinMessage_verify
                                         address message signature star) w))))
| built_check (w : world) (n : nat) :
    built w ->
    jobs (drain n (fst (call (validateChain SHA256) w))) = [] ->
    built (mworld (drain n (fst (call (validateChain SHA256) w)))).

End Building.

(** ** The owner scan in a scope that declares obj *)

(** [data.owner === address] on parsed data. *)
Definition owned_by (address : string) (j : json) : bool :=
  match j with
  | JObj kv =>
      match assoc_last "owner" kv with
      | Some (JStr x) => String.eqb x address
      | _ => false
      end
  | _ => false
  end.

(** What [getBData] does with its promise when [obj] is declared: it
    rejects it, leaves it pending, or fulfils it with the parsed data. *)
Inductive answer : Type :=
| Refuses (e : error)
| Silent (j : json)
| Answers (j : json).

(** What the rest of the callback of [getStarsByWalletAddress] does with
    the data of a block: the change of the state, and how it ends. *)
Definition star_step (a : nat) (address : string) (j : json) : world -> world :=
  if owned_by address j then log a (VData j) else (fun w => w).

Definition star_end (j : json) : completion :=
  match j with
  | JNull => Abrupt (VError TypeError)
  | _ => Normal VUndefined
  end.

Section Stars.

Variable hex2ascii : string -> string.
Variable JSON_parse : string -> option json.

Definition decoded (objs : list BlockClass.Block) (block : nat) : answer :=
  match objs !! block with
  | None => Refuses TypeError
  | Some b =>
      match JSON_parse (hex2ascii (BlockClass.body b)) with
      | None => Refuses SyntaxError
      | Some j => if 0 <? BlockClass.height b then Answers j else Silent j
      end
  end.

(** The entries of [stars] at the end: the data of the blocks above height
    0 that [address] owns, in the order of the chain. *)
Definition star_of (address : string) (w : world) (block : nat) : list value :=
  match decoded (objects w) block with
  | Answers j => if owned_by address j then [VData j] else []
  | _ => []
  end.

Definition stars_of (address : string) (w : world) : list value :=
  flat_map (star_of address w) (chain w).

(** What the synchronous part of one callback leaves in [obj]. *)
Definition obj_after (objs : list BlockClass.Block) (block : nat) (w : world) : world :=
  match decoded objs block with
  | Refuses _ => w
  | Silent j | Answers j => set_global_obj (Some (VData j)) w
  end.

(** The state when [forEach] has started a callback for every block of
    [l]. *)
Definition scanned (l : list nat) (w : world) : world :=
  fold_left (fun w' block => obj_after (objects w') block w') l w.

(** The promises and the job one callback leaves; [n] is the number of its
    own promise. *)
Definition bound_effect (a p : nat) (address : string) (objs : list BlockClass.Block)
    (n block : nat) : list effect :=
  match decoded objs block with
  | Refuses e =>
      [Waiting (Rejection (VError e)) (star_kont (VArray a) p address)
               (fun w => w) (Abrupt (VError e))]
  | Silent _ =>
      [Inert (Pending false []); Inert (Pending false [RPass (n + 2)]);
       Inert (Pending false [RAwait (star_kont (VArray a) p address) n])]
  | Answers j =>
      [Waiting (Fulfil (VData j)) (star_kont (VArray a) p address)
               (star_step a address j) (star_end j)]
  end.

Fixpoint bound_effects (a p : nat) (address : string) (objs : list BlockClass.Block)
    (n : nat) (l : list nat) : list effect :=
  match l with
  | [] => []
  | block :: t =>
      bound_effect a p address objs n block ++ bound_effects a p address objs (n + 3) t
  end.

End Stars.

(** The description of a continuation is right on a machine in which the
    promise [p] is settled. *)
Definition sound_once_settled (p : nat) (P : world -> Prop) (e : effect) : Prop :=
  match e with
  | Inert _ => True
  | Waiting o k f res =>
      plain o /\ ends res /\
      forall ctx w ps js o0, ps !! p = Some (Settled o0) -> P w ->
        exec ctx (resumed o k) (mkMachine w ps js) = (mkMachine (f w) ps js, res) /\
        P (f w)
  end.

(** The message of [validateChain] for a block at position [i] that fails
    [validate]. *)
Definition complaint (i : nat) : string :=
  match i with
  | O => "Genesis Block is not valid"
  | S _ => "[object Object]is not validated"
  end.

(** [_getCurrentTimeStamp()] *)
Definition _getCurrentTimeStamp : prog :=
  GetW (fun w => Return (VStr (slice_0_neg 3 (Z_toString (now w))))).

(** A string without the character [c]. *)
Fixpoint free_of (c : ascii) (s : string) : bool :=
  match s with
  | EmptyString => true
  | String a t => negb (Ascii.eqb a c) && free_of c t
  end.



(** The hash of a sealed block as text. *)
Definition hash_text (b : BlockClass.Block) : string :=
  match BlockClass.hash b with
  | Some h => h
  | None => ""
  end.

(** The fresh ledger with one more Block object, just constructed and not
    yet in the chain. *)
Definition ledger0_with_new (SHA256 : string -> string) : world :=
  mkWorld [genesis_block SHA256; BlockClass.make star1] [] [0%nat] 0 None 1700000000123.

(** A ledger whose height field has run ahead of its chain. *)
Definition overcounted_ledger (SHA256 : string -> string) : world :=
  mkWorld [genesis_block SHA256; BlockClass.make star1] [] [0%nat] 1 None 1700000000123.


(** * Properties *)

(** ** Lists *)

Lemma lookup_app_add {A : Type} (ps l : list A) (i : nat) :
  (ps ++ l) !! (length ps + i)%nat = l !! i.
Proof. rewrite lookup_app_r by lia. f_equal. lia. Qed.

Lemma lookup_app_len {A : Type} (ps l : list A) :
  (ps ++ l) !! length ps = l !! 0%nat.
Proof. rewrite lookup_app_r by lia. f_equal. lia. Qed.

Lemma insert_app_add {A : Type} (ps l : list A) (i : nat) (x : A) :
  <[(length ps + i)%nat := x]> (ps ++ l) = ps ++ <[i := x]> l.
Proof. rewrite insert_app_r_alt by lia. do 2 f_equal. lia. Qed.

Lemma insert_app_len {A : Type} (ps l : list A) (x : A) :
  <[length ps := x]> (ps ++ l) = ps ++ <[0%nat := x]> l.
Proof. rewrite insert_app_r_alt by lia. do 2 f_equal. lia. Qed.

(** ** The interpreter *)

Lemma num_sub_NaN_r (a : number) : num_sub a NaN = NaN.
Proof. destruct a; reflexivity. Qed.

Lemma step_idle (m : machine) : jobs m = [] -> step m = m.
Proof. intros H. unfold step. rewrite H. reflexivity. Qed.

(** Nothing happens on a machine whose queue is empty: there is no timer
    and no I/O in the two classes that could add a job later. *)
Lemma drain_idle (n : nat) (m : machine) : jobs m = [] -> drain n m = m.
Proof.
  induction n as [|n IH]; intros H; simpl; [reflexivity|].
  rewrite (step_idle m H). apply IH, H.
Qed.

Lemma drain_plus (a b : nat) (m : machine) :
  drain (a + b) m = drain b (drain a m).
Proof.
  revert m. induction a as [|a IH]; intros m; simpl; [reflexivity|]. apply IH.
Qed.

(** Once the queue is empty after [k] turns, more turns change nothing. *)
Lemma drain_settled (k n : nat) (m : machine) :
  jobs (drain k m) = [] -> (k <= n)%nat -> drain n m = drain k m.
Proof.
  intros H Hle. replace n with (k + (n - k))%nat by lia.
  rewrite drain_plus. apply drain_idle, H.
Qed.

(** A command that returns can be followed by its continuation. *)
Lemma exec_bind_normal (c : prog) (f : value -> prog) :
  forall ctx m m' v,
    exec ctx c m = (m', Normal v) ->
    exec ctx (bind c f) m = exec ctx (f v) m'.
Proof.
  induction c as [v0|e|k IH|w k IH|ex IHex k IH|p v0 k IH|p v0 k IH|p k IH
                 |body IHb k IH|v0 k IH];
    intros ctx m m' v H; simpl in *.
  - inversion H; subst; reflexivity.
  - discriminate.
  - eapply IH, H.
  - eapply IH, H.
  - destruct (exec None (ex (length (promises m))) (alloc_promise m)) as [m1 r].
    eapply IH, H.
  - eapply IH, H.
  - eapply IH, H.
  - eapply IH, H.
  - destruct (exec (Some (length (promises m))) body (alloc_promise m)) as [m1 r].
    eapply IH, H.
  - destruct ctx; discriminate.
Qed.

Lemma exec_bind_abrupt (c : prog) (f : value -> prog) :
  forall ctx m m' e,
    exec ctx c m = (m', Abrupt e) ->
    exec ctx (bind c f) m = (m', Abrupt e).
Proof.
  induction c as [v0|e0|k IH|w k IH|ex IHex k IH|p v0 k IH|p v0 k IH|p k IH
                 |body IHb k IH|v0 k IH];
    intros ctx m m' e H; simpl in *.
  - discriminate.
  - exact H.
  - eapply IH, H.
  - eapply IH, H.
  - destruct (exec None (ex (length (promises m))) (alloc_promise m)) as [m1 r].
    eapply IH, H.
  - eapply IH, H.
  - eapply IH, H.
  - eapply IH, H.
  - destruct (exec (Some (length (promises m))) body (alloc_promise m)) as [m1 r].
    eapply IH, H.
  - destruct ctx; [discriminate|]. exact H.
Qed.

Lemma hash_is_true (a : option string) (s : string) :
  hash_is a s = true <-> a = Some s.
Proof.
  destruct a as [x|]; simpl.
  - rewrite String.eqb_eq. split; [intros ->; reflexivity|congruence].
  - split; discriminate.
Qed.

Lemma set_hash_restore (b : BlockClass.Block) :
  BlockClass.set_hash (BlockClass.hash b) (BlockClass.set_hash None b) = b.
Proof. destruct b; reflexivity. Qed.

Lemma set_objects_same (w : world) : set_objects (objects w) w = w.
Proof. destruct w; reflexivity. Qed.

(** A call that left the machine idle with its promise pending. *)
Lemma idle_pending_never_settles (w : world) (m : machine) (q : nat) l rs :
  jobs m = [] -> promises m !! q = Some (Pending l rs) -> mworld m = w ->
  never_settles w (m, Normal (VPromise q)).
Proof.
  intros Hj Hp Hw. exists q. split; [reflexivity|]. intros n. simpl.
  rewrite drain_idle by exact Hj. split; [exists l, rs; exact Hp | exact Hw].
Qed.

(** [filter(...)[0]] finds nothing when no block of the chain passes. *)
Lemma first_block_none (f : BlockClass.Block -> bool) (w : world) :
  (forall r b, In r (chain w) -> objects w !! r = Some b -> f b = false) ->
  first_block f w = None.
Proof.
  unfold first_block. intros H.
  assert (E : List.filter
                (fun r => match objects w !! r with Some b => f b | None => false end)
                (chain w) = []).
  { induction (chain w) as [|r l IH]; [reflexivity|]. simpl.
    destruct (objects w !! r) as [b|] eqn:Hb.
    - rewrite (H r b (or_introl eq_refl) Hb). apply IH.
      intros r' b' Hin. apply H. right. exact Hin.
    - apply IH. intros r' b' Hin. apply H. right. exact Hin. }
  rewrite E. reflexivity.
Qed.

(** Symbolic execution on a machine whose promises are [ps ++ ...]: the
    fresh promise numbers are [length ps + i]. *)
Ltac mnorm :=
  repeat first
    [ progress cbn [exec bind forEach await async new_Promise catch_nc with_block update_block
                    push skip modify new_array new_Block assign_obj read_obj copy_array
                    reaction_job run_job
                    mworld promises jobs
                    objects arrays chain height global_obj now
                    set_objects set_arrays set_chain set_height set_global_obj
                    length app map fst snd negb truthy Nat.eqb Nat.add]
    | progress unfold alloc_promise, resolve_promise, reject_promise, subscribe, settle,
                      enqueue, set_promises, set_mworld, finish, unlock
    | rewrite <- app_assoc
    | rewrite length_app
    | rewrite <- Nat.add_assoc
    | rewrite lookup_app_add
    | rewrite lookup_app_len
    | rewrite insert_app_add
    | rewrite insert_app_len
    | rewrite app_nil_r
    | progress cbn [lookup list_lookup insert list_insert] ].

(** ** Callbacks started by forEach: the two phases of the queue *)

Lemma layout_promises_cons n e t :
  layout_promises n (e :: t) =
  layout_promises n [e] ++ layout_promises (n + length (layout_promises n [e])) t.
Proof. destruct e; reflexivity. Qed.

Lemma layout_jobs_cons n e t :
  layout_jobs n (e :: t) =
  layout_jobs n [e] ++ layout_jobs (n + length (layout_promises n [e])) t.
Proof. destruct e; reflexivity. Qed.

(** First phase: the jobs left by the callbacks settle the awaited promises
    and queue the continuations behind whatever else was waiting
    ([extra]).  The state is not touched. *)
Lemma pass_phase (es : list effect) :
  forall ps extra w,
    Forall plain_effect es ->
    drain (length (layout_jobs (length ps) es))
      (mkMachine w (ps ++ layout_promises (length ps) es)
                   (layout_jobs (length ps) es ++ extra)) =
    mkMachine w (ps ++ passed_promises (length ps) es)
                (extra ++ resume_jobs (length ps) es).
Proof.
  induction es as [|[st|o k f res] t IH]; intros ps extra w Hpl; simpl.
  - rewrite !app_nil_r. reflexivity.
  - inversion Hpl; subst.
    specialize (IH (ps ++ [st]) extra w).
    rewrite length_app, <- !app_assoc in IH. simpl in IH. apply IH. assumption.
  - inversion Hpl as [|? ? Ho Ht]; subst.
    unfold step. cbn [jobs mworld promises run_job].
    specialize (IH (ps ++ [Pending false []; Settled o; Settled o])
                  (extra ++ [JResume (resumed o k) (length ps)]) w).
    rewrite length_app, <- !app_assoc in IH. simpl in IH.
    rewrite <- IH by assumption.
    f_equal.
    destruct o as [v|e].
    + unfold resolve_promise. cbn [promises]. rewrite lookup_app_add. cbn [lookup list_lookup].
      destruct v; try contradiction;
        unfold settle, enqueue, set_promises; cbn [promises mworld jobs map reaction_job];
        rewrite insert_app_add; rewrite <- ?app_assoc; reflexivity.
    + unfold reject_promise. cbn [promises]. rewrite lookup_app_add. cbn [lookup list_lookup].
      unfold settle, enqueue, set_promises; cbn [promises mworld jobs map reaction_job];
        rewrite insert_app_add; rewrite <- ?app_assoc; reflexivity.
Qed.

(** Second phase: the continuations run, one per turn, in the order of the
    callbacks; each acts on the state and settles its callback's promise. *)
Lemma resume_phase (P : world -> Prop) (es : list effect) :
  forall ps extra w,
    P w -> Forall (sound P) es ->
    drain (length (resume_jobs (length ps) es))
      (mkMachine w (ps ++ passed_promises (length ps) es)
                   (resume_jobs (length ps) es ++ extra)) =
    mkMachine (final_world es w) (ps ++ finished_promises (length ps) es) extra /\
    P (final_world es w).
Proof.
  induction es as [|[st|o k f res] t IH]; intros ps extra w HP Hs; simpl.
  - split; [reflexivity|exact HP].
  - inversion Hs; subst.
    specialize (IH (ps ++ [st]) extra w HP).
    rewrite length_app, <- !app_assoc in IH. simpl in IH. apply IH. assumption.
  - inversion Hs as [|? ? Hsd Ht]; subst. destruct Hsd as [Ho [He Hrun]].
    unfold step. cbn [jobs mworld promises run_job].
    destruct (Hrun (Some (length ps)) w
                (ps ++ Pending false [] :: Settled o :: Settled o
                    :: passed_promises (length ps + 3) t)
                (resume_jobs (length ps + 3) t ++ extra) HP) as [Hex HP'].
    rewrite Hex.
    specialize (IH (ps ++ [final_state res; Settled o; Settled o]) extra (f w) HP' Ht).
    rewrite length_app, <- !app_assoc in IH. simpl in IH.
    destruct IH as [IH1 IH2]. split; [|exact IH2].
    rewrite <- IH1. f_equal.
    destruct res as [v|e|]; [| |contradiction]; cbn [finish final_state].
    + unfold resolve_promise. cbn [promises]. rewrite lookup_app_len. cbn [lookup list_lookup].
      destruct v; try contradiction;
        unfold settle, enqueue, set_promises; cbn [promises mworld jobs map reaction_job];
        rewrite insert_app_len, app_nil_r; reflexivity.
    + unfold reject_promise. cbn [promises]. rewrite lookup_app_len. cbn [lookup list_lookup].
      unfold settle, enqueue, set_promises; cbn [promises mworld jobs map reaction_job];
        rewrite insert_app_len, app_nil_r; reflexivity.
Qed.

(** [forEach] over callbacks that each leave the promises and jobs of one
    [effect] and do not touch the state. *)
Lemma exec_forEach_layout {A : Type} (cb : A -> prog) (eff : A -> effect) (w : world) :
  (forall ctx x ps js, exists v,
     exec ctx (cb x) (mkMachine w ps js) =
     (mkMachine w (ps ++ layout_promises (length ps) [eff x])
                  (js ++ layout_jobs (length ps) [eff x]), Normal v)) ->
  forall ctx l ps js,
    exec ctx (forEach l cb) (mkMachine w ps js) =
    (mkMachine w (ps ++ layout_promises (length ps) (map eff l))
                 (js ++ layout_jobs (length ps) (map eff l)), Normal VUndefined).
Proof.
  intros Hcb ctx l. induction l as [|x t IH]; intros ps js.
  - simpl. rewrite !app_nil_r. reflexivity.
  - cbn [forEach]. destruct (Hcb ctx x ps js) as [v Hv].
    erewrite exec_bind_normal by exact Hv.
    rewrite IH. cbn [map].
    rewrite (layout_promises_cons _ _ (map _ t)), (layout_jobs_cons _ _ (map _ t)).
    rewrite length_app, <- !app_assoc. reflexivity.
Qed.


Section Ledger.

Variable SHA256 : string -> string.
Variable hex2ascii : string -> string.
Variable JSON_parse : string -> option json.
Variable bitcoinMessage_verify : string -> string -> string -> option bool.

(** ** submitStar: the two gates *)

(** When the time test fails the executor ends without calling [resolve]
    or [reject]. *)
Lemma submitStar_late address message signature star w :
  in_time w message = false ->
  never_settles w
    (call (submitStar SHA256 bitcoinMessage_verify address message signature star) w).
Proof.
  unfold in_time. intros H. unfold call, submitStar.
  cbn -[parseInt parseInt_opt seconds_text split num_le num_sub].
  rewrite H. cbn.
  eapply idle_pending_never_settles; reflexivity.
Qed.

(** When the signature check does not return true the executor ends (or
    throws inside its own async call) without settling the promise. *)
Lemma submitStar_unverified address message signature star w :
  in_time w message = true ->
  bitcoinMessage_verify message address signature <> Some true ->
  never_settles w
    (call (submitStar SHA256 bitcoinMessage_verify address message signature star) w).
Proof.
  unfold in_time. intros H Hv. unfold call, submitStar.
  cbn -[parseInt parseInt_opt seconds_text split num_le num_sub].
  rewrite H.
  destruct (bitcoinMessage_verify message address signature) as [[|]|];
    [congruence| |]; cbn; eapply idle_pending_never_settles; reflexivity.
Qed.

(** C10. When the second colon-separated field of the message gives [NaN]
    under [parseInt], [submitStar] appends nothing and reports nothing: the
    promise it returns stays pending for ever, and the chain, the height and
    the rest of the state are unchanged. *)
Theorem submitStar_NaN_never_settles address message signature star w :
  parseInt_opt (split ":" message !! 1%nat) = NaN ->
  never_settles w
    (call (submitStar SHA256 bitcoinMessage_verify address message signature star) w).
Proof.
  intros H. apply submitStar_late. unfold in_time.
  rewrite H, num_sub_NaN_r. reflexivity.
Qed.

(** C4. What the code does with a challenge older than 300 seconds: no error
    of any kind is delivered. The promise returned by [submitStar] stays
    pending for ever; nothing is appended and the height is unchanged. *)
Theorem submitStar_expired_never_settles address message signature star w c t :
  parseInt (seconds_text w) = Num c ->
  parseInt_opt (split ":" message !! 1%nat) = Num t ->
  c - t > 300 ->
  never_settles w
    (call (submitStar SHA256 bitcoinMessage_verify address message signature star) w).
Proof.
  intros Hc Ht Hlt. apply submitStar_late. unfold in_time.
  rewrite Hc, Ht. simpl. apply Z.leb_gt. lia.
Qed.

(** C5. What the code does with a fresh challenge and a signature that does
    not verify: no error of any kind is delivered. The promise returned by
    [submitStar] stays pending for ever; nothing is appended and the height
    is unchanged. *)
Theorem submitStar_bad_signature_never_settles address message signature star w c t :
  parseInt (seconds_text w) = Num c ->
  parseInt_opt (split ":" message !! 1%nat) = Num t ->
  c - t <= 300 ->
  bitcoinMessage_verify message address signature <> Some true ->
  never_settles w
    (call (submitStar SHA256 bitcoinMessage_verify address message signature star) w).
Proof.
  intros Hc Ht Hle Hv. apply submitStar_unverified; [|exact Hv].
  unfold in_time. rewrite Hc, Ht. simpl. apply Z.leb_le. lia.
Qed.

(** ** Lookups *)

Lemma getBlockByHash_miss w h :
  first_block (fun b => hash_is (BlockClass.hash b) h) w = None ->
  never_settles w (call (getBlockByHash h) w).
Proof.
  intros H. unfold call, getBlockByHash. cbn -[first_block]. rewrite H. cbn.
  eapply idle_pending_never_settles; reflexivity.
Qed.

Lemma getBlockByHeight_miss w z :
  first_block (fun b => BlockClass.height b =? z) w = None ->
  never_settles w (call (getBlockByHeight z) w).
Proof.
  intros H. unfold call, getBlockByHeight. cbn -[first_block]. rewrite H. cbn.
  eapply idle_pending_never_settles; reflexivity.
Qed.

(** In a well-formed ledger no block has a height outside [0, height]. *)
Lemma no_block_out_of_range w z :
  well_formed w -> z < 0 \/ height w < z ->
  first_block (fun b => BlockClass.height b =? z) w = None.
Proof.
  intros [Hh Hwf] Hz. apply first_block_none. intros r b Hin Hb.
  apply list_elem_of_In, list_elem_of_lookup in Hin. destruct Hin as [i Hi].
  destruct (Hwf i r Hi) as [b' [Hb' Hi']].
  rewrite Hb in Hb'. inversion Hb'; subst b'.
  apply lookup_lt_Some in Hi. apply Z.eqb_neq. lia.
Qed.

(** C7. What the code does on a lookup miss: for a hash that no stored
    block has, and (in a well-formed ledger) for a height outside
    [0, height], the promise returned by the lookup stays pending for ever.
    No NotFound result and no fault is delivered. *)
Theorem lookup_miss_never_settles w :
  (forall h,
     (forall r b, In r (chain w) -> objects w !! r = Some b ->
                  BlockClass.hash b <> Some h) ->
     never_settles w (call (getBlockByHash h) w)) /\
  (forall z, well_formed w -> z < 0 \/ height w < z ->
     never_settles w (call (getBlockByHeight z) w)).
Proof.
  split.
  - intros h H. apply getBlockByHash_miss, first_block_none.
    intros r b Hin Hb. specialize (H r b Hin Hb).
    destruct (hash_is (BlockClass.hash b) h) eqn:E; [|reflexivity].
    apply hash_is_true in E. contradiction.
  - intros z Hwf Hz. apply getBlockByHeight_miss, no_block_out_of_range; assumption.
Qed.

(** ** Block.validate *)

(** [validate] from any state of the machine: two promises and one job are
    added, the state is untouched. *)
Lemma exec_validate ctx w ps js self b :
  objects w !! self = Some b ->
  exec ctx (validate SHA256 self) (mkMachine w ps js) =
  (mkMachine w (ps ++ [Settled (Fulfil (VBool (valid SHA256 b))); Pending false []])
               (js ++ [JPass (length ps + 1) (Fulfil (VBool (valid SHA256 b)))]),
   Normal (VPromise (length ps + 1))).
Proof.
  intros H. unfold validate, valid, recomputed.
  assert (Hlt : (self < length (objects w))%nat) by (eapply lookup_lt_Some; eauto).
  mnorm. rewrite H. mnorm. rewrite H. mnorm.
  rewrite list_lookup_insert_eq by exact Hlt. mnorm.
  rewrite list_lookup_insert_eq by exact Hlt. mnorm.
  rewrite list_insert_insert_eq, set_hash_restore, (list_insert_id _ _ _ H).
  destruct w; reflexivity.
Qed.

(** C8. [validate()] on a stored block answers true exactly when the digest
    recomputed over the block with [hash] nulled equals the stored hash; the
    stored hash is back in place when the call returns, so the state is the
    same before and after, whatever the answer. *)
Theorem validate_compares_and_restores w self b :
  objects w !! self = Some b ->
  exists q ok,
    snd (call (validate SHA256 self) w) = Normal (VPromise q) /\
    (ok = true <-> BlockClass.hash b = Some (recomputed SHA256 b)) /\
    (forall n, mworld (drain n (fst (call (validate SHA256 self) w))) = w) /\
    (forall n, (1 <= n)%nat ->
       fulfilled q (VBool ok) (drain n (fst (call (validate SHA256 self) w)))).
Proof.
  intros H. unfold call, start. rewrite (exec_validate None w [] [] self b H).
  exists 1%nat, (valid SHA256 b).
  split; [reflexivity|]. split; [apply hash_is_true|]. split.
  - intros [|n]; [reflexivity|]. simpl. rewrite drain_idle by reflexivity. reflexivity.
  - intros n Hn. rewrite (drain_settled 1 n) by (try reflexivity; exact Hn).
    reflexivity.
Qed.

(** ** Block.getBData *)

(** [getBData] from any state of the machine, in a scope that declares no
    [obj]. *)
Lemma exec_getBData_unbound ctx w ps js self :
  global_obj w = None ->
  exec ctx (getBData hex2ascii JSON_parse self) (mkMachine w ps js) =
  (mkMachine w
     (ps ++ [Settled (Rejection (VError (decode_error hex2ascii JSON_parse w self))); Pending false []])
     (js ++ [JPass (length ps + 1) (Rejection (VError (decode_error hex2ascii JSON_parse w self)))]),
   Normal (VPromise (length ps + 1))).
Proof.
  intros Hg. unfold getBData, decode_error, getBData_error. mnorm.
  destruct (objects w !! self) as [b|]; mnorm; [|reflexivity].
  destruct (JSON_parse (hex2ascii (BlockClass.body b))) as [j|]; mnorm; [|reflexivity].
  rewrite Hg. mnorm. reflexivity.
Qed.

(** C9. What the code does when asked to decode the body of a block that
    holds the encoding of a payload [p], at a height above 0, in a scope that
    declares no [obj]: the promise of [getBData] is rejected with an error;
    the payload is never returned. *)
Theorem getBData_rejects_without_binding w self b p :
  objects w !! self = Some b ->
  BlockClass.body b = BlockClass.body (BlockClass.make p) ->
  0 < BlockClass.height b ->
  global_obj w = None ->
  exists q e,
    snd (call (getBData hex2ascii JSON_parse self) w) = Normal (VPromise q) /\
    (e = SyntaxError \/ e = ReferenceError) /\
    forall n, (1 <= n)%nat ->
      rejected q (VError e) (drain n (fst (call (getBData hex2ascii JSON_parse self) w))).
Proof.
  intros H _ _ Hg. unfold call, start.
  rewrite (exec_getBData_unbound None w [] [] self Hg).
  unfold decode_error. rewrite H.
  exists 1%nat, (getBData_error hex2ascii JSON_parse b).
  split; [reflexivity|]. split.
  - unfold getBData_error. destruct (JSON_parse _); [right|left]; reflexivity.
  - intros n Hn. rewrite (drain_settled 1 n) by (try reflexivity; exact Hn).
    reflexivity.
Qed.

(** For comparison: were [obj] bound in the global scope, and the two
    decoders inverse to the encoding of [p], the payload would come back. *)
Lemma getBData_with_binding w self b p v0 :
  objects w !! self = Some b ->
  BlockClass.body b = BlockClass.body (BlockClass.make p) ->
  0 < BlockClass.height b ->
  global_obj w = Some v0 ->
  JSON_parse (hex2ascii (hex_encode (JSON_stringify p))) = Some p ->
  exists q,
    snd (call (getBData hex2ascii JSON_parse self) w) = Normal (VPromise q) /\
    forall n, (1 <= n)%nat ->
      fulfilled q (VData p) (drain n (fst (call (getBData hex2ascii JSON_parse self) w))).
Proof.
  intros H Hbody Hh Hg Hcodec. unfold call, getBData.
  cbn [BlockClass.make BlockClass.body] in Hbody.
  cbn -[hex_encode JSON_stringify]. rewrite H. cbn -[hex_encode JSON_stringify].
  rewrite Hbody, Hcodec. cbn -[hex_encode JSON_stringify]. rewrite Hg.
  cbn -[hex_encode JSON_stringify]. rewrite H. cbn -[hex_encode JSON_stringify].
  destruct (0 <? BlockClass.height b) eqn:E; [|apply Z.ltb_ge in E; lia].
  cbn. exists 1%nat. split; [reflexivity|].
  intros n Hn. rewrite (drain_settled 1 n) by (try reflexivity; exact Hn).
  reflexivity.
Qed.
(** ** validateChain *)

(** One callback of [validateChain], from its start to its await or end. *)
Lemma exec_check_block ctx a w ps js block :
  exec ctx (async (check_block SHA256 (VArray a) block)) (mkMachine w ps js) =
  (mkMachine w
     (ps ++ layout_promises (length ps) [check_effect a (examine SHA256 w block)])
     (js ++ layout_jobs (length ps) [check_effect a (examine SHA256 w block)]),
   Normal (VPromise (length ps))).
Proof.
  unfold check_block, examine.
  cbn [async exec with_block].
  unfold alloc_promise, set_promises. cbn [promises mworld jobs].
  destruct (objects w !! block) as [b|] eqn:Hb.
  - destruct (BlockClass.height b =? 0) eqn:Hz.
    + cbn [check_effect layout_promises layout_jobs].
      erewrite exec_bind_normal by (apply exec_validate; exact Hb).
      mnorm. reflexivity.
    + cbn [exec mworld].
      destruct (chain_at (BlockClass.height b - 1) w) as [prev|].
      * destruct (hash_eq (BlockClass.previousBlockHash b) (BlockClass.hash prev)).
        -- cbn [check_effect layout_promises layout_jobs].
           erewrite exec_bind_normal by (apply exec_validate; exact Hb).
           mnorm. reflexivity.
        -- mnorm. reflexivity.
      * mnorm. reflexivity.
  - mnorm. reflexivity.
Qed.

(** The whole [forEach]: the state is as before, the callbacks have left
    their promises and jobs. *)
Lemma exec_scan ctx a w l ps js :
  exec ctx (forEach l (fun block => async (check_block SHA256 (VArray a) block)))
       (mkMachine w ps js) =
  (mkMachine w (ps ++ layout_promises (length ps) (check_effects SHA256 a w l))
               (js ++ layout_jobs (length ps) (check_effects SHA256 a w l)),
   Normal VUndefined).
Proof.
  apply (exec_forEach_layout _ (fun block => check_effect a (examine SHA256 w block))).
  intros ctx' block ps' js'. eexists. apply exec_check_block.
Qed.

(** [validateChain], up to its return: the promise is already fulfilled
    with the new array, which is still empty. *)
Lemma exec_validateChain ctx w ps js :
  exec ctx (validateChain SHA256) (mkMachine w ps js) =
  (mkMachine (set_arrays (arrays w ++ [[]]) w)
     (ps ++ [Settled (Fulfil (VArray (length (arrays w)))); Settled (Fulfil VUndefined)]
         ++ layout_promises (length ps + 2)
              (check_effects SHA256 (length (arrays w)) (set_arrays (arrays w ++ [[]]) w) (chain w)))
     (js ++ layout_jobs (length ps + 2)
              (check_effects SHA256 (length (arrays w)) (set_arrays (arrays w ++ [[]]) w) (chain w))),
   Normal (VPromise (length ps))).
Proof.
  unfold validateChain.
  cbn [bind new_array new_Promise exec async].
  unfold alloc_promise, set_promises, set_mworld. cbn [promises mworld jobs chain set_arrays].
  erewrite exec_bind_normal by apply exec_scan.
  mnorm. reflexivity.
Qed.

Lemma check_effect_sound a v : sound (has_array a) (check_effect a v).
Proof.
  destruct v as [| |msg ok]; simpl; auto.
  split; [exact I|]. split; [exact I|].
  intros ctx w ps js [l Hl]. unfold report.
  destruct ok; cbn [negb truthy exec skip].
  - split; [reflexivity|exists l; exact Hl].
  - cbn [push exec mworld]. rewrite Hl. cbn [exec skip].
    unfold set_mworld, log. rewrite Hl. cbn [mworld promises jobs].
    split; [reflexivity|]. unfold has_array. cbn [arrays set_arrays].
    rewrite list_lookup_insert_eq by (eapply lookup_lt_Some; eauto). eauto.
Qed.

Lemma check_effects_sound a w l : Forall (sound (has_array a)) (check_effects SHA256 a w l).
Proof. unfold check_effects. apply Forall_map, Forall_forall. intros; apply check_effect_sound. Qed.

Lemma check_effects_plain a w l : Forall plain_effect (check_effects SHA256 a w l).
Proof.
  unfold check_effects. apply Forall_map, Forall_forall. intros block _.
  destruct (examine SHA256 w block); exact I.
Qed.

(** All the continuations together append the findings to the log, and
    change nothing else. *)
Lemma final_world_check a w0 bs :
  forall w l, arrays w !! a = Some l ->
    final_world (check_effects SHA256 a w0 bs) w =
    set_arrays (<[a := l ++ flat_map (finding SHA256 w0) bs]> (arrays w)) w.
Proof.
  induction bs as [|block t IH]; intros w l Hl; simpl.
  - rewrite app_nil_r, (list_insert_id _ _ _ Hl). destruct w; reflexivity.
  - unfold finding. destruct (examine SHA256 w0 block) as [| |msg [|]]; simpl;
      try (apply IH; exact Hl).
    assert (Hlt : (a < length (arrays w))%nat) by (eapply lookup_lt_Some; eauto).
    unfold log. rewrite Hl.
    rewrite (IH _ (l ++ [VStr msg])).
    + cbn [arrays set_arrays]. rewrite list_insert_insert_eq, <- app_assoc.
      destruct w; reflexivity.
    + cbn [arrays set_arrays]. apply list_lookup_insert_eq. exact Hlt.
Qed.

(** What [validateChain] does in all: when it returns, its promise is
    fulfilled with a fresh array that is still empty; the findings are
    appended to that array by later turns of the queue. *)
Lemma validateChain_run w :
  let res := call (validateChain SHA256) w in
  let a := length (arrays w) in
  snd res = Normal (VPromise 0%nat) /\
  fulfilled 0 (VArray a) (fst res) /\
  arrays (mworld (fst res)) !! a = Some [] /\
  exists n, jobs (drain n (fst res)) = [] /\
            mworld (drain n (fst res)) = set_arrays (arrays w ++ [findings SHA256 w]) w.
Proof.
  intros res a. subst res a. unfold call, start. rewrite exec_validateChain.
  cbn [fst snd mworld promises jobs app length Nat.add].
  set (w1 := set_arrays (arrays w ++ [[]]) w).
  set (es := check_effects SHA256 (length (arrays w)) w1 (chain w)).
  split; [reflexivity|]. split; [reflexivity|].
  split; [subst w1; cbn [arrays set_arrays]; rewrite lookup_app_len; reflexivity|].
  exists (length (layout_jobs 2 es) + length (resume_jobs 2 es))%nat.
  rewrite drain_plus.
  pose proof (pass_phase es [Settled (Fulfil (VArray (length (arrays w)))); Settled (Fulfil VUndefined)]
                [] w1 (check_effects_plain _ _ _)) as Hp.
  cbn [length app] in Hp. rewrite app_nil_r in Hp. rewrite Hp. clear Hp.
  assert (Ha : arrays w1 !! length (arrays w) = Some []).
  { subst w1. cbn [arrays set_arrays]. rewrite lookup_app_len. reflexivity. }
  destruct (resume_phase (has_array (length (arrays w))) es
              [Settled (Fulfil (VArray (length (arrays w)))); Settled (Fulfil VUndefined)]
              [] w1 (ex_intro _ _ Ha) (check_effects_sound _ _ _)) as [Hr _].
  cbn [length app] in Hr. rewrite app_nil_r in Hr. rewrite Hr. clear Hr.
  cbn [jobs mworld]. split; [reflexivity|].
  subst es. rewrite (final_world_check _ _ _ _ _ Ha).
  subst w1. cbn [arrays set_arrays app]. rewrite insert_app_len. cbn [insert list_insert].
  destruct w; reflexivity.
Qed.

(** C3. What a caller of [validateChain] gets, on any ledger: it is resumed
    before any finding is recorded, so the list it receives is empty at that
    moment (its copy, the last array, is [[]]); the findings arrive in the
    error log only afterwards. *)
Theorem validateChain_findings_arrive_late w :
  exists n,
    jobs (drain n (fst (call (awaiting_caller (validateChain SHA256)) w))) = [] /\
    mworld (drain n (fst (call (awaiting_caller (validateChain SHA256)) w))) =
      set_arrays (arrays w ++ [findings SHA256 w; []]) w.
Proof.
  unfold call, start, awaiting_caller.
  cbn [async exec]. unfold alloc_promise, set_promises. cbn [promises mworld jobs app length].
  erewrite exec_bind_normal by apply exec_validateChain.
  set (w1 := set_arrays (arrays w ++ [[]]) w).
  set (a := length (arrays w)).
  set (es := check_effects SHA256 a w1 (chain w)).
  mnorm.
  assert (Ha : arrays w1 !! a = Some []).
  { subst w1 a. cbn [arrays set_arrays]. rewrite lookup_app_len. reflexivity. }
  exists (length (layout_jobs 3 es) + (1 + length (resume_jobs 3 es)))%nat.
  rewrite drain_plus.
  pose proof (pass_phase es
                [Pending false []; Settled (Fulfil (VArray a)); Settled (Fulfil VUndefined)]
                [JResume (copy_array (VArray a)) 0] w1 (check_effects_plain _ _ _)) as Hp.
  cbn [length app copy_array] in Hp. rewrite Hp. clear Hp.
  rewrite drain_plus. cbn [drain step jobs mworld promises app run_job].
  cbn [copy_array exec mworld]. rewrite Ha.
  cbn [exec skip]. unfold set_mworld. cbn [mworld promises jobs finish].
  unfold resolve_promise. cbn [promises lookup list_lookup].
  unfold settle, enqueue, set_promises.
  cbn [promises mworld jobs map insert list_insert]. rewrite app_nil_r.
  set (w2 := set_arrays (arrays w1 ++ [[]]) w1).
  assert (Ha2 : arrays w2 !! a = Some []).
  { subst w2. cbn [arrays set_arrays]. rewrite lookup_app_l; [exact Ha|].
    eapply lookup_lt_Some; eauto. }
  destruct (resume_phase (has_array a) es
              [Settled (Fulfil VUndefined); Settled (Fulfil (VArray a));
               Settled (Fulfil VUndefined)]
              [] w2 (ex_intro _ _ Ha2) (check_effects_sound _ _ _)) as [Hr _].
  cbn [length app] in Hr. rewrite app_nil_r in Hr. rewrite Hr. clear Hr.
  cbn [jobs mworld]. split; [reflexivity|].
  subst es. rewrite (final_world_check _ _ _ _ _ Ha2).
  subst w2 w1 a. cbn [arrays set_arrays app]. rewrite <- app_assoc.
  rewrite insert_app_len. cbn [insert list_insert app].
  destruct w; reflexivity.
Qed.

(** A machine that is idle after [n] turns stays as it is. *)
Lemma idle_forever (m : machine) (n : nat) :
  jobs (drain n m) = [] -> forall n', (n <= n')%nat -> drain n' m = drain n m.
Proof. intros H n' Hle. apply drain_settled; assumption. Qed.

Lemma valid_seal b :
  BlockClass.hash b = None -> valid SHA256 (seal SHA256 b) = true.
Proof.
  intros H. unfold valid, recomputed, seal. apply hash_is_true.
  destruct b as [h z bd ts p]. simpl in H. subst h. reflexivity.
Qed.

(** When the link of a block to its predecessor is broken, the callback of
    [validateChain] returns at once: the block is not validated and nothing
    is reported for it. *)
Lemma broken_link_is_skipped w block b prev :
  objects w !! block = Some b ->
  BlockClass.height b <> 0 ->
  chain_at (BlockClass.height b - 1) w = Some prev ->
  hash_eq (BlockClass.previousBlockHash b) (BlockClass.hash prev) = false ->
  examine SHA256 w block = Skipped /\ finding SHA256 w block = [].
Proof.
  intros Hb Hh Hprev Hlink. unfold finding, examine. rewrite Hb.
  destruct (BlockClass.height b =? 0) eqn:E; [apply Z.eqb_eq in E; contradiction|].
  rewrite Hprev, Hlink. split; reflexivity.
Qed.

(** C2. [validateChain] on that ledger: the block at height 1 has a broken
    link and a body that no longer matches its hash, yet the error log is
    empty when the call returns and stays empty for ever; neither a linkage
    error nor a tamper error is reported for height 1. *)
Theorem validateChain_silent_on_broken_link :
  exists n,
    jobs (drain n (fst (call (validateChain SHA256) (unlinked_ledger SHA256)))) = [] /\
    forall n', (n <= n')%nat ->
      mworld (drain n' (fst (call (validateChain SHA256) (unlinked_ledger SHA256)))) =
      set_arrays [[]] (unlinked_ledger SHA256).
Proof.
  destruct (validateChain_run (unlinked_ledger SHA256)) as [_ [_ [_ [n [Hidle Hw]]]]].
  exists n. split; [exact Hidle|]. intros n' Hle.
  rewrite (idle_forever _ n Hidle n' Hle), Hw.
  assert (H0 : finding SHA256 (unlinked_ledger SHA256) 0 = []).
  { assert (E : examine SHA256 (unlinked_ledger SHA256) 0 =
                Checked "Genesis Block is not valid" (valid SHA256 (genesis_block SHA256)))
      by reflexivity.
    unfold finding. rewrite E. unfold genesis_block. rewrite valid_seal; reflexivity. }
  assert (H1 : finding SHA256 (unlinked_ledger SHA256) 1 = []).
  { eapply (broken_link_is_skipped (unlinked_ledger SHA256) 1%nat _ (genesis_block SHA256));
      [reflexivity|discriminate|reflexivity|reflexivity]. }
  unfold findings. change (chain (unlinked_ledger SHA256)) with [0%nat; 1%nat].
  cbn [flat_map]. rewrite H0, H1. reflexivity.
Qed.

(** ** _addBlock *)

(** The first three turns of [_addBlock] on a ledger that has a last block:
    the height is read, the last block is fetched, the new block is filled
    in and sealed, and [validateChain] is called; [_addBlock] then waits
    for its answer behind the jobs of the callbacks. *)
Lemma addBlock_until_validation w block b0 rprev pb :
  num_gt (Num (height w)) (Num (-1)) = true ->
  first_block (fun b => BlockClass.height b =? height w) w = Some rprev ->
  objects w !! rprev = Some pb ->
  objects w !! block = Some b0 ->
  let wA := set_arrays (arrays w ++ [[]])
              (set_objects
                 (<[block := sealed SHA256 w (Some (BlockClass.hash pb)) b0]> (objects w)) w) in
  let a := length (arrays w) in
  let es := check_effects SHA256 a wA (chain w) in
  snd (call (_addBlock SHA256 block) w) = Normal (VPromise 3%nat) /\
  drain 3 (fst (call (_addBlock SHA256 block) w)) =
  mkMachine wA
    ([Pending false [RPass 3]; Pending false [];
      Settled (Fulfil (VNum (Num (height w)))); Pending false [];
      Settled (Fulfil (VBlock rprev)); Settled (Fulfil (VBlock rprev));
      Settled (Fulfil (VArray a)); Settled (Fulfil VUndefined)]
       ++ layout_promises 8 es)
    (layout_jobs 8 es ++ [JResume (commit 0 block (VArray a)) 1]).
Proof.
  intros Hgt Hfind Hpb Hb0 wA a es.
  assert (Hlt : (block < length (objects w))%nat) by (eapply lookup_lt_Some; eauto).
  unfold call, start, _addBlock, getChainHeight.
  mnorm. split; [reflexivity|].
  cbn [drain step jobs mworld promises run_job].
  mnorm. rewrite Hgt. unfold getBlockByHeight. mnorm. rewrite Hfind. mnorm.
  cbn [step jobs mworld promises run_job]. mnorm.
  cbn [step jobs mworld promises run_job]. mnorm.
  rewrite Hpb. mnorm. rewrite Hb0. mnorm.
  repeat (rewrite list_lookup_insert_eq by exact Hlt; mnorm; rewrite ?list_insert_insert_eq).
  erewrite exec_bind_normal by apply exec_validateChain.
  mnorm. reflexivity.
Qed.

(** The same on a ledger with no block yet ([height] is -1): one turn. *)
Lemma addBlock_first_until_validation w block b0 :
  num_gt (Num (height w)) (Num (-1)) = false ->
  objects w !! block = Some b0 ->
  let wA := set_arrays (arrays w ++ [[]])
              (set_objects (<[block := sealed SHA256 w None b0]> (objects w)) w) in
  let a := length (arrays w) in
  let es := check_effects SHA256 a wA (chain w) in
  snd (call (_addBlock SHA256 block) w) = Normal (VPromise 3%nat) /\
  drain 1 (fst (call (_addBlock SHA256 block) w)) =
  mkMachine wA
    ([Pending false [RPass 3]; Pending false [];
      Settled (Fulfil (VNum (Num (height w)))); Pending false [];
      Settled (Fulfil (VArray a)); Settled (Fulfil VUndefined)]
       ++ layout_promises 6 es)
    (layout_jobs 6 es ++ [JResume (commit 0 block (VArray a)) 1]).
Proof.
  intros Hgt Hb0 wA a es.
  assert (Hlt : (block < length (objects w))%nat) by (eapply lookup_lt_Some; eauto).
  unfold call, start, _addBlock, getChainHeight.
  mnorm. split; [reflexivity|].
  cbn [drain step jobs mworld promises run_job].
  mnorm. rewrite Hgt. mnorm. rewrite Hb0. mnorm.
  repeat (rewrite list_lookup_insert_eq by exact Hlt; mnorm; rewrite ?list_insert_insert_eq).
  erewrite exec_bind_normal by apply exec_validateChain.
  mnorm. reflexivity.
Qed.

(** From the answer of [validateChain] to the end.  The answer is an
    array, and an array is true for [if]: the block is pushed and the
    promise [p] resolved with it, whatever the callbacks then report. *)
Lemma commit_tail PS es w a p r q block :
  PS !! p = Some (Pending false [RPass q]) ->
  PS !! r = Some (Pending false []) ->
  PS !! q = Some (Pending false []) ->
  p <> r -> p <> q -> r <> q ->
  Forall plain_effect es -> Forall (sound (has_array a)) es -> has_array a w ->
  exists k PS',
    drain k (mkMachine w (PS ++ layout_promises (length PS) es)
               (layout_jobs (length PS) es ++ [JResume (commit p block (VArray a)) r])) =
    mkMachine (final_world es (committed block w)) (PS' ++ finished_promises (length PS) es) [] /\
    PS' !! q = Some (Settled (Fulfil (VBlock block))).
Proof.
  intros Hp Hr Hq Hpr Hpq Hrq Hpl Hs Ha.
  assert (Lp : (p < length PS)%nat) by (eapply lookup_lt_Some; eauto).
  assert (Lr : (r < length PS)%nat) by (eapply lookup_lt_Some; eauto).
  assert (Lq : (q < length PS)%nat) by (eapply lookup_lt_Some; eauto).
  set (PS1 := <[p := Settled (Fulfil (VBlock block))]> PS).
  set (PS2 := <[r := Settled (Fulfil VUndefined)]> PS1).
  set (PS3 := <[q := Settled (Fulfil (VBlock block))]> PS2).
  exists (length (layout_jobs (length PS) es) + (1 + (length (resume_jobs (length PS) es) + 1)))%nat,
         PS3.
  split.
  2:{ subst PS3. apply list_lookup_insert_eq. subst PS2 PS1. rewrite !length_insert. exact Lq. }
  rewrite drain_plus, (pass_phase es PS _ w Hpl).
  rewrite drain_plus. cbn [drain step jobs mworld promises app run_job].
  unfold commit. cbn [truthy bind modify skip exec mworld].
  unfold set_mworld. cbn [mworld promises jobs].
  unfold resolve_promise. cbn [promises].
  rewrite (lookup_app_l PS) by exact Lp. rewrite Hp.
  unfold settle, enqueue, set_promises. cbn [promises mworld jobs map reaction_job exec finish].
  rewrite insert_app_l by exact Lp. fold PS1.
  unfold resolve_promise. cbn [promises].
  rewrite lookup_app_l by (subst PS1; rewrite length_insert; exact Lr).
  assert (H1r : PS1 !! r = Some (Pending false [])).
  { subst PS1. rewrite list_lookup_insert_ne by exact Hpr. exact Hr. }
  rewrite H1r. unfold settle, enqueue, set_promises. cbn [promises mworld jobs map].
  rewrite insert_app_l by (subst PS1; rewrite length_insert; exact Lr). fold PS2.
  rewrite app_nil_r.
  assert (L2 : length PS2 = length PS) by (subst PS2 PS1; rewrite !length_insert; reflexivity).
  rewrite drain_plus.
  assert (Hc : has_array a (committed block w)) by exact Ha.
  destruct (resume_phase (has_array a) es PS2 [JPass q (Fulfil (VBlock block))]
              (committed block w) Hc Hs) as [Hres _].
  rewrite L2 in Hres.
  change (set_height (height (set_chain (chain w ++ [block]) w) + 1)
            (set_chain (chain w ++ [block]) w)) with (committed block w).
  rewrite Hres. clear Hres.
  cbn [drain step jobs mworld promises run_job].
  unfold resolve_promise. cbn [promises].
  rewrite lookup_app_l by (rewrite L2; exact Lq).
  assert (H2q : PS2 !! q = Some (Pending false [])).
  { subst PS2 PS1. rewrite list_lookup_insert_ne by exact Hrq.
    rewrite list_lookup_insert_ne by exact Hpq. exact Hq. }
  rewrite H2q. unfold settle, enqueue, set_promises. cbn [promises mworld jobs map app].
  rewrite insert_app_l by (rewrite L2; exact Lq). reflexivity.
Qed.

(** C1. What [_addBlock] does on any ledger, valid or not: the sealed block
    is pushed, the height incremented and the promise fulfilled with the
    block.  What [validateChain] finds (the list [findings] of the ledger
    being validated) only ends up in an array nobody reads; no ChainInvalid
    error exists. *)
Theorem addBlock_commits_whatever_is_found w block b0 link :
  objects w !! block = Some b0 ->
  last_link w = Some link ->
  let wA := set_objects (<[block := sealed SHA256 w link b0]> (objects w)) w in
  snd (call (_addBlock SHA256 block) w) = Normal (VPromise 3%nat) /\
  exists n,
    jobs (drain n (fst (call (_addBlock SHA256 block) w))) = [] /\
    fulfilled 3 (VBlock block) (drain n (fst (call (_addBlock SHA256 block) w))) /\
    mworld (drain n (fst (call (_addBlock SHA256 block) w))) =
      committed block (set_arrays (arrays w ++ [findings SHA256 wA]) wA).
Proof.
  intros Hb0 Hlink wA. unfold last_link in Hlink.
  set (w1 := set_arrays (arrays w ++ [[]]) wA).
  set (a := length (arrays w)).
  set (es := check_effects SHA256 a w1 (chain w)).
  assert (Ha : arrays w1 !! a = Some []).
  { subst w1 a wA. cbn [arrays set_arrays set_objects]. rewrite lookup_app_len. reflexivity. }
  assert (Hfinal : final_world es (committed block w1) =
                   committed block (set_arrays (arrays w ++ [findings SHA256 wA]) wA)).
  { subst es. rewrite (final_world_check a w1 (chain w) (committed block w1) [] Ha).
    subst w1 a wA. cbn [arrays set_arrays set_objects committed set_chain set_height app].
    rewrite insert_app_len. cbn [insert list_insert]. reflexivity. }
  destruct (num_gt (Num (height w)) (Num (-1))) eqn:Hgt.
  - destruct (first_block _ w) as [rprev|] eqn:Hfind; [|discriminate].
    destruct (objects w !! rprev) as [pb|] eqn:Hpb; [|discriminate].
    inversion Hlink; subst link; clear Hlink.
    destruct (addBlock_until_validation w block b0 rprev pb Hgt Hfind Hpb Hb0) as [Hret Hrun].
    split; [exact Hret|].
    edestruct (commit_tail
                 [Pending false [RPass 3]; Pending false [];
                  Settled (Fulfil (VNum (Num (height w)))); Pending false [];
                  Settled (Fulfil (VBlock rprev)); Settled (Fulfil (VBlock rprev));
                  Settled (Fulfil (VArray a)); Settled (Fulfil VUndefined)]
                 es w1 a 0%nat 1%nat 3%nat block)
      as [k [PS' [Hk Hq]]];
      try reflexivity; try discriminate;
      [apply check_effects_plain|apply check_effects_sound|exists []; exact Ha|].
    exists (3 + k)%nat. rewrite drain_plus, Hrun.
    cbn [length] in Hk. fold wA w1 a es. rewrite Hk. cbn [jobs mworld].
    split; [reflexivity|]. split; [|exact Hfinal].
    unfold fulfilled. cbn [promises]. rewrite lookup_app_l; [exact Hq|].
    eapply lookup_lt_Some; eauto.
  - inversion Hlink; subst link; clear Hlink.
    destruct (addBlock_first_until_validation w block b0 Hgt Hb0) as [Hret Hrun].
    split; [exact Hret|].
    edestruct (commit_tail
                 [Pending false [RPass 3]; Pending false [];
                  Settled (Fulfil (VNum (Num (height w)))); Pending false [];
                  Settled (Fulfil (VArray a)); Settled (Fulfil VUndefined)]
                 es w1 a 0%nat 1%nat 3%nat block)
      as [k [PS' [Hk Hq]]];
      try reflexivity; try discriminate;
      [apply check_effects_plain|apply check_effects_sound|exists []; exact Ha|].
    exists (1 + k)%nat. rewrite drain_plus, Hrun.
    cbn [length] in Hk. fold wA w1 a es. rewrite Hk. cbn [jobs mworld].
    split; [reflexivity|]. split; [|exact Hfinal].
    unfold fulfilled. cbn [promises]. rewrite lookup_app_l; [exact Hq|].
    eapply lookup_lt_Some; eauto.
Qed.

(** ** getStarsByWalletAddress *)

Lemma star_effects_plain a p address w l : Forall plain_effect (star_effects hex2ascii JSON_parse a p address w l).
Proof. unfold star_effects. apply Forall_map, Forall_forall. intros; exact I. Qed.

Lemma star_effects_sound a p address w l :
  Forall (sound (fun _ => True)) (star_effects hex2ascii JSON_parse a p address w l).
Proof.
  unfold star_effects. apply Forall_map, Forall_forall. intros block _. simpl.
  split; [exact I|]. split; [exact I|]. intros ctx w' ps js _. split; [reflexivity|exact I].
Qed.

Lemma final_world_star a p address w0 l w : final_world (star_effects hex2ascii JSON_parse a p address w0 l) w = w.
Proof. induction l as [|x t IH]; simpl; [reflexivity|exact IH]. Qed.

(** C6. [getStarsByWalletAddress] in a scope that declares no [obj], on any
    ledger and for any address: the promise is fulfilled, when the call
    returns, with a new array that is empty, and that array is still empty
    when the queue has run dry.  Every callback ends with the rejection of
    [getBData]; no payload is ever returned, whoever owns the blocks. *)
Theorem getStars_returns_nothing w address :
  global_obj w = None ->
  snd (call (getStarsByWalletAddress hex2ascii JSON_parse address) w) =
    Normal (VPromise 0%nat) /\
  fulfilled 0 (VArray (length (arrays w)))
    (fst (call (getStarsByWalletAddress hex2ascii JSON_parse address) w)) /\
  arrays (mworld (fst (call (getStarsByWalletAddress hex2ascii JSON_parse address) w)))
    !! length (arrays w) = Some [] /\
  exists n,
    jobs (drain n (fst (call (getStarsByWalletAddress hex2ascii JSON_parse address) w))) = [] /\
    forall n', (n <= n')%nat ->
      mworld (drain n' (fst (call (getStarsByWalletAddress hex2ascii JSON_parse address) w))) =
      set_arrays (arrays w ++ [[]]) w.
Proof.
  intros Hg. unfold call, start, getStarsByWalletAddress.
  cbn [bind new_array new_Promise exec].
  unfold alloc_promise, set_promises, set_mworld. cbn [promises mworld jobs chain set_arrays].
  set (w1 := set_arrays (arrays w ++ [[]]) w).
  set (a := length (arrays w)).
  erewrite exec_bind_normal.
  2:{ apply (exec_forEach_layout _
               (fun block =>
                  Waiting (Rejection (VError (decode_error hex2ascii JSON_parse w1 block)))
                          (star_kont (VArray a) 0 address)
                          (fun w => w) (Abrupt (VError (decode_error hex2ascii JSON_parse w1 block)))) w1).
      intros ctx block ps js. eexists.
      cbn [async exec]. unfold alloc_promise, set_promises. cbn [promises mworld jobs].
      erewrite exec_bind_normal by (apply exec_getBData_unbound; exact Hg).
      mnorm. reflexivity. }
  fold (star_effects hex2ascii JSON_parse a 0 address w1 (chain w)).
  set (es := star_effects hex2ascii JSON_parse a 0 address w1 (chain w)).
  mnorm.
  split; [reflexivity|]. split; [reflexivity|].
  split; [subst w1 a; cbn [arrays set_arrays]; rewrite lookup_app_len; reflexivity|].
  exists (length (layout_jobs 1 es) + length (resume_jobs 1 es))%nat.
  assert (Hrun : drain (length (layout_jobs 1 es) + length (resume_jobs 1 es))
                   (mkMachine w1 (Settled (Fulfil (VArray a)) :: layout_promises 1 es)
                              (layout_jobs 1 es)) =
                 mkMachine w1 (Settled (Fulfil (VArray a)) :: finished_promises 1 es) []).
  { rewrite drain_plus.
    pose proof (pass_phase es [Settled (Fulfil (VArray a))] [] w1
                  (star_effects_plain _ _ _ _ _)) as Hp.
    cbn [length app] in Hp. rewrite app_nil_r in Hp. rewrite Hp. clear Hp.
    destruct (resume_phase (fun _ => True) es [Settled (Fulfil (VArray a))] [] w1 I
                (star_effects_sound _ _ _ _ _)) as [Hr _].
    cbn [length app] in Hr. rewrite app_nil_r in Hr. rewrite Hr.
    subst es. rewrite final_world_star. reflexivity. }
  split; [rewrite Hrun; reflexivity|].
  intros n' Hle. rewrite (idle_forever _ _ (f_equal jobs Hrun) n' Hle), Hrun. reflexivity.
Qed.

(** ** The sample ledgers *)

(** [new Blockchain()]: after five turns of the queue the ledger holds the
    sealed genesis block and its height is 0. *)
Lemma new_Blockchain_gives_genesis :
  let m := drain 5 (fst (call (new_Blockchain SHA256) (blank 1700000000123))) in
  jobs m = [] /\
  objects (mworld m) = [genesis_block SHA256] /\
  chain (mworld m) = [0%nat] /\
  height (mworld m) = 0.
Proof. vm_compute. repeat split; reflexivity. Qed.

(** The ledger of one record is well formed and [validateChain] finds
    nothing in it. *)
Lemma ledger1_well_formed : well_formed (ledger1 SHA256).
Proof.
  split; [reflexivity|]. intros [|[|i]] r H; inversion H; subst.
  - exists (genesis_block SHA256). split; reflexivity.
  - exists (record_block SHA256). split; reflexivity.
Qed.

Lemma ledger1_findings : findings SHA256 (ledger1 SHA256) = [].
Proof.
  assert (E0 : examine SHA256 (ledger1 SHA256) 0 =
               Checked "Genesis Block is not valid" (valid SHA256 (genesis_block SHA256)))
    by reflexivity.
  assert (E1 : examine SHA256 (ledger1 SHA256) 1 =
               if hash_eq (BlockClass.hash (genesis_block SHA256))
                          (BlockClass.hash (genesis_block SHA256))
               then Checked "[object Object]is not validated" (valid SHA256 (record_block SHA256))
               else Skipped)
    by reflexivity.
  assert (Hl : hash_eq (BlockClass.hash (genesis_block SHA256))
                       (BlockClass.hash (genesis_block SHA256)) = true)
    by (simpl; apply String.eqb_refl).
  unfold findings. change (chain (ledger1 SHA256)) with [0%nat; 1%nat].
  cbn [flat_map]. unfold finding. rewrite E0, E1, Hl.
  unfold genesis_block at 1, record_block. rewrite !valid_seal by reflexivity.
  reflexivity.
Qed.

(** When the digest tells the forged record from the sealed one, the one
    finding on the forged ledger is a text that names no height. *)
Lemma forged_record_findings :
  valid SHA256 (set_body (hex_encode (JSON_stringify forged)) (record_block SHA256)) = false ->
  findings SHA256 (forged_record_ledger SHA256) = [VStr "[object Object]is not validated"].
Proof.
  intros Hv.
  assert (E0 : examine SHA256 (forged_record_ledger SHA256) 0 =
               Checked "Genesis Block is not valid" (valid SHA256 (genesis_block SHA256)))
    by reflexivity.
  assert (E1 : examine SHA256 (forged_record_ledger SHA256) 1 =
               if hash_eq (BlockClass.hash (genesis_block SHA256))
                          (BlockClass.hash (genesis_block SHA256))
               then Checked "[object Object]is not validated"
                      (valid SHA256 (set_body (hex_encode (JSON_stringify forged))
                                       (record_block SHA256)))
               else Skipped)
    by reflexivity.
  assert (Hl : hash_eq (BlockClass.hash (genesis_block SHA256))
                       (BlockClass.hash (genesis_block SHA256)) = true)
    by (simpl; apply String.eqb_refl).
  unfold findings. change (chain (forged_record_ledger SHA256)) with [0%nat; 1%nat].
  cbn [flat_map]. unfold finding. rewrite E0, E1, Hl, Hv.
  unfold genesis_block. rewrite valid_seal by reflexivity.
  reflexivity.
Qed.

End Ledger.

(** * The theorems at work on the sample ledgers *)

(** A message whose time field is not a number. *)
Lemma submitStar_NaN_witness :
  parseInt_opt (split ":" "addr1:soon:starRegistry" !! 1%nat) = NaN /\
  never_settles (ledger1 text_digest)
    (call (submitStar text_digest refuse "addr1" "addr1:soon:starRegistry" "sig" star1)
          (ledger1 text_digest)).
Proof.
  split; [reflexivity|].
  apply (submitStar_NaN_never_settles text_digest refuse). reflexivity.
Defined.

(** A challenge issued 301 seconds before the submission. *)
Lemma submitStar_expired_witness :
  never_settles (at_time 1700000301999 (ledger1 text_digest))
    (call (submitStar text_digest refuse "addr1" "addr1:1700000000:starRegistry" "sig" star1)
          (at_time 1700000301999 (ledger1 text_digest))).
Proof.
  apply (submitStar_expired_never_settles text_digest refuse
           "addr1" "addr1:1700000000:starRegistry" "sig" star1
           (at_time 1700000301999 (ledger1 text_digest)) 1700000301 1700000000);
    [reflexivity|reflexivity|lia].
Defined.

(** A challenge issued 100 seconds before, with a signature that fails. *)
Lemma submitStar_bad_signature_witness :
  never_settles (at_time 1700000100000 (ledger1 text_digest))
    (call (submitStar text_digest refuse "addr1" "addr1:1700000000:starRegistry" "sig" star1)
          (at_time 1700000100000 (ledger1 text_digest))).
Proof.
  apply (submitStar_bad_signature_never_settles text_digest refuse
           "addr1" "addr1:1700000000:starRegistry" "sig" star1
           (at_time 1700000100000 (ledger1 text_digest)) 1700000100 1700000000);
    [reflexivity|reflexivity|lia|discriminate].
Defined.

(** A hash no block has, and the height 5 in a ledger of height 1. *)
Lemma lookup_miss_witness :
  never_settles (ledger1 text_digest) (call (getBlockByHash "00") (ledger1 text_digest)) /\
  never_settles (ledger1 text_digest) (call (getBlockByHeight 5) (ledger1 text_digest)).
Proof.
  split.
  - apply (proj1 (lookup_miss_never_settles (ledger1 text_digest))).
    intros r b [Hr|[Hr|[]]] Hb; subst r; inversion Hb; subst b; discriminate.
  - apply (proj2 (lookup_miss_never_settles (ledger1 text_digest)));
      [apply ledger1_well_formed|right; reflexivity].
Defined.

(** [validate] on the stored record of the sample ledger. *)
Lemma validate_witness :
  exists q ok,
    snd (call (validate text_digest 1) (ledger1 text_digest)) = Normal (VPromise q) /\
    (ok = true <->
     BlockClass.hash (record_block text_digest) =
       Some (recomputed text_digest (record_block text_digest))) /\
    (forall n,
       mworld (drain n (fst (call (validate text_digest 1) (ledger1 text_digest)))) =
       ledger1 text_digest) /\
    (forall n, (1 <= n)%nat ->
       fulfilled q (VBool ok)
         (drain n (fst (call (validate text_digest 1) (ledger1 text_digest))))).
Proof.
  apply (validate_compares_and_restores text_digest (ledger1 text_digest) 1
           (record_block text_digest)).
  reflexivity.
Defined.

(** Decoding the stored record of the sample ledger. *)
Lemma getBData_witness :
  exists q e,
    snd (call (getBData same_text no_parse 1) (ledger1 text_digest)) = Normal (VPromise q) /\
    (e = SyntaxError \/ e = ReferenceError) /\
    forall n, (1 <= n)%nat ->
      rejected q (VError e)
        (drain n (fst (call (getBData same_text no_parse 1) (ledger1 text_digest)))).
Proof.
  apply (getBData_rejects_without_binding same_text no_parse (ledger1 text_digest) 1
           (record_block text_digest) star1);
    [reflexivity|reflexivity|reflexivity|reflexivity].
Defined.

(** Appending to the ledger whose genesis block was forged. *)
Lemma addBlock_witness :
  snd (call (_addBlock text_digest 1) (forged_genesis_ledger text_digest)) =
    Normal (VPromise 3%nat) /\
  exists n,
    jobs (drain n (fst (call (_addBlock text_digest 1) (forged_genesis_ledger text_digest)))) = [] /\
    fulfilled 3 (VBlock 1)
      (drain n (fst (call (_addBlock text_digest 1) (forged_genesis_ledger text_digest)))) /\
    mworld (drain n (fst (call (_addBlock text_digest 1) (forged_genesis_ledger text_digest)))) =
      committed 1
        (set_arrays [[VStr "Genesis Block is not valid"]]
           (set_objects
              (<[1%nat := sealed text_digest (forged_genesis_ledger text_digest)
                            (Some (BlockClass.hash (genesis_block text_digest)))
                            (BlockClass.make star1)]>
                 (objects (forged_genesis_ledger text_digest)))
              (forged_genesis_ledger text_digest))).
Proof.
  apply (addBlock_commits_whatever_is_found text_digest (forged_genesis_ledger text_digest) 1
           (BlockClass.make star1) (Some (BlockClass.hash (genesis_block text_digest))));
    reflexivity.
Defined.

(** The records of [addr1] in the ledger that holds one. *)
Lemma getStars_witness :
  snd (call (getStarsByWalletAddress same_text no_parse "addr1") (ledger1 text_digest)) =
    Normal (VPromise 0%nat) /\
  fulfilled 0 (VArray 0)
    (fst (call (getStarsByWalletAddress same_text no_parse "addr1") (ledger1 text_digest))) /\
  arrays (mworld (fst (call (getStarsByWalletAddress same_text no_parse "addr1")
                            (ledger1 text_digest)))) !! 0%nat = Some [] /\
  exists n,
    jobs (drain n (fst (call (getStarsByWalletAddress same_text no_parse "addr1")
                             (ledger1 text_digest)))) = [] /\
    forall n', (n <= n')%nat ->
      mworld (drain n' (fst (call (getStarsByWalletAddress same_text no_parse "addr1")
                                  (ledger1 text_digest)))) =
      set_arrays [[]] (ledger1 text_digest).
Proof.
  apply (getStars_returns_nothing same_text no_parse (ledger1 text_digest) "addr1").
  reflexivity.
Defined.

(** [validateChain] on the ledger whose record lost its link and was
    forged: the log stays empty. *)
Lemma validateChain_silent_witness :
  exists n,
    jobs (drain n (fst (call (validateChain text_digest) (unlinked_ledger text_digest)))) = [] /\
    forall n', (n <= n')%nat ->
      mworld (drain n' (fst (call (validateChain text_digest) (unlinked_ledger text_digest)))) =
      set_arrays [[]] (unlinked_ledger text_digest).
Proof. apply (validateChain_silent_on_broken_link text_digest). Defined.

(** A caller of [validateChain] on the ledger whose record was forged: the
    log ends up with one text that names no height, and the copy the caller
    took when it was resumed is empty. *)
Lemma validateChain_late_witness :
  exists n,
    jobs (drain n (fst (call (awaiting_caller (validateChain text_digest))
                             (forged_record_ledger text_digest)))) = [] /\
    mworld (drain n (fst (call (awaiting_caller (validateChain text_digest))
                               (forged_record_ledger text_digest)))) =
      set_arrays [[VStr "[object Object]is not validated"]; []]
                 (forged_record_ledger text_digest).
Proof.
  apply (validateChain_findings_arrive_late text_digest (forged_record_ledger text_digest)).
Defined.

(** ** The working paths on the sample ledgers *)

(** A verified, timely [submitStar] on the fresh ledger appends the record:
    the result is the sample ledger of one record, and the promise is
    fulfilled with the new block. *)
Lemma submitStar_appends :
  let m := drain 12 (fst (call (submitStar text_digest accept "addr1"
                                  "addr1:1700000000:starRegistry" "sig" star_coords)
                               (ledger0 text_digest))) in
  jobs m = [] /\
  objects (mworld m) = objects (ledger1 text_digest) /\
  chain (mworld m) = chain (ledger1 text_digest) /\
  height (mworld m) = 1 /\
  fulfilled 6 (VBlock 1) m.
Proof. vm_compute. repeat split; reflexivity. Qed.

(** Were [obj] declared, and the decoders at work, the owner scan would find
    the record of [addr1] --- but only after its caller has been resumed
    with the array still empty: the first array below is [stars] at the end,
    the second the copy the caller took when it was resumed. *)
Lemma getStars_with_binding_fills_late :
  let m := drain 4 (fst (call (awaiting_caller
                                 (getStarsByWalletAddress hex_decode sample_parse "addr1"))
                              (set_global_obj (Some VUndefined) (ledger1 text_digest)))) in
  jobs m = [] /\ arrays (mworld m) = [[VData star1]; []].
Proof. vm_compute. split; reflexivity. Qed.
(** * More properties of the two classes *)

Section Registry.

Variable SHA256 : string -> string.

(** ** Well-formed and intact ledgers *)

Lemma hash_eq_refl (a : option string) : hash_eq a a = true.
Proof. destruct a as [x|]; simpl; [apply String.eqb_refl|reflexivity]. Qed.

Lemma flat_map_nil {A B : Type} (f : A -> list B) (l : list A) :
  (forall x, In x l -> f x = []) -> flat_map f l = [].
Proof.
  induction l as [|x t IH]; intros H; simpl; [reflexivity|].
  rewrite (H x (or_introl eq_refl)), IH; [reflexivity|].
  intros y Hy. apply H. right. exact Hy.
Qed.

(** The references of a well-formed chain point into the heap, and no
    object is in the chain twice. *)
Lemma well_formed_ref w i r :
  well_formed w -> chain w !! i = Some r -> (r < length (objects w))%nat.
Proof.
  intros [_ H] Hi. destruct (H i r Hi) as [b [Hb _]]. eapply lookup_lt_Some; eauto.
Qed.

Lemma well_formed_inj w i j r :
  well_formed w -> chain w !! i = Some r -> chain w !! j = Some r -> i = j.
Proof.
  intros [_ H] Hi Hj.
  destruct (H i r Hi) as [b [Hb E1]]. destruct (H j r Hj) as [b' [Hb' E2]].
  rewrite Hb in Hb'. inversion Hb'; subst b'. lia.
Qed.

Lemma chain_at_lookup w (i : nat) r b :
  chain w !! i = Some r -> objects w !! r = Some b -> chain_at (Z.of_nat i) w = Some b.
Proof.
  intros Hi Hb. unfold chain_at.
  destruct (Z.of_nat i <? 0) eqn:E; [apply Z.ltb_lt in E; lia|].
  rewrite Nat2Z.id, Hi. exact Hb.
Qed.

(** In a well-formed ledger [filter(p => p.height === z)[0]] is the entry
    of the chain at position [z]. *)
Lemma first_block_offset w z (l : list nat) (k : nat) :
  (forall i r, l !! i = Some r ->
     exists b, objects w !! r = Some b /\ BlockClass.height b = Z.of_nat (k + i)) ->
  head (List.filter
          (fun r => match objects w !! r with
                    | Some b => BlockClass.height b =? z
                    | None => false
                    end) l) =
  if z <? Z.of_nat k then None else l !! (Z.to_nat z - k)%nat.
Proof.
  revert k. induction l as [|r t IH]; intros k H.
  - simpl. destruct (z <? Z.of_nat k); reflexivity.
  - destruct (H 0%nat r eq_refl) as [b [Hb Hh]]. cbn [List.filter]. rewrite Hb, Hh.
    rewrite Nat.add_0_r.
    destruct (Z.of_nat k =? z) eqn:E.
    + apply Z.eqb_eq in E. subst z. cbn [head].
      rewrite Z.ltb_irrefl, Nat2Z.id, Nat.sub_diag. reflexivity.
    + apply Z.eqb_neq in E. rewrite (IH (S k)).
      2:{ intros i r' Hi. destruct (H (S i) r' Hi) as [b' [Hb' Hh']].
          exists b'. split; [exact Hb'|]. rewrite Hh'. f_equal. lia. }
      destruct (z <? Z.of_nat k) eqn:E1.
      * apply Z.ltb_lt in E1.
        destruct (z <? Z.of_nat (S k)) eqn:E2; [reflexivity|apply Z.ltb_ge in E2; lia].
      * apply Z.ltb_ge in E1.
        destruct (z <? Z.of_nat (S k)) eqn:E2; [apply Z.ltb_lt in E2; lia|].
        replace (Z.to_nat z - k)%nat with (S (Z.to_nat z - S k)) by lia. reflexivity.
Qed.

Lemma first_block_height w z :
  well_formed w ->
  first_block (fun b => BlockClass.height b =? z) w =
  if z <? 0 then None else chain w !! Z.to_nat z.
Proof.
  intros [_ H]. unfold first_block. rewrite (first_block_offset w z (chain w) 0).
  - rewrite Nat.sub_0_r. reflexivity.
  - intros i r Hi. destruct (H i r Hi) as [b [Hb Hh]]. exists b. split; [exact Hb|].
    rewrite Hh. reflexivity.
Qed.

(** Where [_addBlock] finds the hash to link to, in a well-formed ledger:
    the last entry of the chain. *)
Lemma well_formed_last_link w :
  well_formed w ->
  match chain w with
  | [] => last_link w = Some None
  | _ =>
      exists rp pb, chain w !! (length (chain w) - 1)%nat = Some rp /\
        objects w !! rp = Some pb /\
        first_block (fun b => BlockClass.height b =? height w) w = Some rp /\
        last_link w = Some (Some (BlockClass.hash pb))
  end.
Proof.
  intros Hwf. unfold last_link.
  destruct (chain w) as [|r0 t] eqn:Hc; pose proof Hwf as [Hh H].
  - rewrite Hh, Hc. reflexivity.
  - assert (Hlen : (length (chain w) = S (length t))) by (rewrite Hc; reflexivity).
    rewrite <- Hc.
    destruct (chain w !! (length (chain w) - 1)%nat) as [rp|] eqn:Hrp.
    2:{ apply lookup_ge_None in Hrp. lia. }
    destruct (H _ _ Hrp) as [pb [Hpb Hhp]].
    exists rp, pb. split; [reflexivity|]. split; [exact Hpb|].
    assert (Hf : first_block (fun b => BlockClass.height b =? height w) w = Some rp).
    { rewrite (first_block_height w (height w) Hwf).
      destruct (height w <? 0) eqn:E; [apply Z.ltb_lt in E; lia|].
      rewrite <- Hrp. f_equal. lia. }
    split; [exact Hf|].
    rewrite Hf, Hpb.
    destruct (num_gt (Num (height w)) (Num (-1))) eqn:E; [reflexivity|].
    simpl in E. apply Z.ltb_ge in E. lia.
Qed.

(** [validateChain] finds nothing in an intact ledger. *)
Lemma intact_findings w : intact SHA256 w -> findings SHA256 w = [].
Proof.
  intros [Hwf Hin]. pose proof Hwf as [_ H]. unfold findings.
  apply flat_map_nil. intros r Hr.
  apply list_elem_of_In, list_elem_of_lookup in Hr. destruct Hr as [i Hi].
  destruct (H i r Hi) as [b [Hb Hh]]. destruct (Hin i r b Hi Hb) as [Hv Hl].
  unfold finding, examine. rewrite Hb, Hh.
  destruct i as [|j].
  - change (Z.of_nat 0 =? 0) with true. cbv iota. rewrite Hv. reflexivity.
  - destruct (Z.of_nat (S j) =? 0) eqn:E; [apply Z.eqb_eq in E; lia|].
    destruct Hl as [rp [pb [Hrp [Hpb Hlink]]]].
    replace (Z.of_nat (S j) - 1) with (Z.of_nat j) by lia.
    rewrite (chain_at_lookup w j rp pb Hrp Hpb), Hlink, hash_eq_refl, Hv. reflexivity.
Qed.

(** What happens to objects outside the chain does not matter. *)
Lemma intact_update_outside w block b :
  intact SHA256 w -> ~ In block (chain w) ->
  intact SHA256 (set_objects (<[block := b]> (objects w)) w).
Proof.
  intros [Hwf Hin] Hout. pose proof Hwf as [Hh H].
  assert (Hne : forall i r, chain w !! i = Some r -> r <> block).
  { intros i r Hi ->. apply Hout, list_elem_of_In, list_elem_of_lookup. eauto. }
  split; [split|].
  - exact Hh.
  - intros i r Hi. cbn [chain objects set_objects] in *.
    destruct (H i r Hi) as [b' [Hb' Hh']]. exists b'. split; [|exact Hh'].
    rewrite list_lookup_insert_ne; [exact Hb'|]. intros E. exact (Hne i r Hi (eq_sym E)).
  - intros i r b' Hi Hb'. cbn [chain objects set_objects] in *.
    rewrite list_lookup_insert_ne in Hb' by (intros E; exact (Hne i r Hi (eq_sym E))).
    destruct (Hin i r b' Hi Hb') as [Hv Hl]. split; [exact Hv|].
    destruct i as [|j]; [exact I|].
    destruct Hl as [rp [pb [Hrp [Hpb Hlink]]]].
    exists rp, pb. split; [exact Hrp|]. split; [|exact Hlink].
    cbn [objects set_objects].
    rewrite list_lookup_insert_ne; [exact Hpb|]. intros E. exact (Hne j rp Hrp (eq_sym E)).
Qed.

Lemma intact_new_object w b :
  intact SHA256 w -> intact SHA256 (set_objects (objects w ++ [b]) w).
Proof.
  intros [Hwf Hin]. pose proof Hwf as [Hh H].
  split; [split|].
  - exact Hh.
  - intros i r Hi. cbn [chain objects set_objects] in *.
    destruct (H i r Hi) as [b' [Hb' Hh']]. exists b'. split; [|exact Hh'].
    rewrite lookup_app_l; [exact Hb'|]. eapply lookup_lt_Some; eauto.
  - intros i r b' Hi Hb'. cbn [chain objects set_objects] in *.
    destruct (H i r Hi) as [b'' [Hb'' _]].
    rewrite lookup_app_l in Hb' by (eapply lookup_lt_Some; eauto).
    destruct (Hin i r b' Hi Hb') as [Hv Hl]. split; [exact Hv|].
    destruct i as [|j]; [exact I|].
    destruct Hl as [rp [pb [Hrp [Hpb Hlink]]]].
    exists rp, pb. split; [exact Hrp|]. split; [|exact Hlink].
    cbn [objects set_objects]. rewrite lookup_app_l; [exact Hpb|]. eapply lookup_lt_Some; eauto.
Qed.

(** A block that carried no hash when it was sealed answers true to
    [validate]. *)
Lemma valid_sealed w link b0 :
  BlockClass.hash b0 = None -> valid SHA256 (sealed SHA256 w link b0) = true.
Proof.
  intros H. unfold valid, recomputed, sealed. apply hash_is_true.
  destruct b0 as [h z bd ts p]. simpl in H. subst h. destruct link; reflexivity.
Qed.

(** Appending a block that is not in the chain yet, sealed from a block
    without hash and linked as [_addBlock] links it, keeps the ledger
    intact. *)
Lemma extended_intact w block b0 link :
  intact SHA256 w -> objects w !! block = Some b0 -> ~ In block (chain w) ->
  BlockClass.hash b0 = None -> last_link w = Some link ->
  intact SHA256 (extended w block (sealed SHA256 w link b0)).
Proof.
  intros Hi Hb0 Hout Hnull Hlink.
  pose proof (intact_update_outside w block (sealed SHA256 w link b0) Hi Hout) as [Hwf' Hin'].
  destruct Hi as [Hwf Hin]. pose proof Hwf as [Hh H]. pose proof Hwf' as [_ H'].
  cbn [chain objects set_objects] in Hin', H'.
  assert (Hlt : (block < length (objects w))%nat) by (eapply lookup_lt_Some; eauto).
  assert (Hnew : forall i r, (chain w ++ [block]) !! i = Some r ->
                   (chain w !! i = Some r /\ r <> block) \/
                   (i = length (chain w) /\ r = block)).
  { intros i r Hir. destruct (decide (i < length (chain w))%nat) as [Hl|Hl].
    - rewrite lookup_app_l in Hir by exact Hl. left. split; [exact Hir|].
      intros ->. apply Hout, list_elem_of_In, list_elem_of_lookup. eauto.
    - rewrite lookup_app_r in Hir by lia.
      destruct (i - length (chain w))%nat as [|n] eqn:E; [|discriminate].
      inversion Hir; subst r. right. split; [lia|reflexivity]. }
  split; [split|].
  - cbn [height chain extended]. rewrite length_app. cbn [length]. lia.
  - intros i r Hir. cbn [chain objects extended] in *.
    destruct (Hnew i r Hir) as [[Hold Hne]|[-> ->]].
    + apply H'. exact Hold.
    + rewrite list_lookup_insert_eq by exact Hlt. eexists. split; [reflexivity|].
      unfold sealed, stamped. cbn [BlockClass.height BlockClass.set_hash BlockClass.set_height].
      lia.
  - intros i r b Hir Hb. cbn [chain objects extended] in *.
    destruct (Hnew i r Hir) as [[Hold Hne]|[-> ->]].
    + destruct (Hin' i r b Hold Hb) as [Hv Hl]. split; [exact Hv|].
      destruct i as [|j]; [exact I|].
      destruct Hl as [rp [pb [Hrp [Hpb Hl]]]].
      exists rp, pb. cbn [chain objects set_objects extended] in *.
      split; [|split; [exact Hpb|exact Hl]].
      rewrite lookup_app_l; [exact Hrp|]. eapply lookup_lt_Some; eauto.
    + rewrite list_lookup_insert_eq in Hb by exact Hlt. inversion Hb; subst b.
      split; [apply valid_sealed; exact Hnull|].
      pose proof (well_formed_last_link w Hwf) as Hll.
      destruct (chain w) as [|r0 t] eqn:Hc; [exact I|].
      destruct Hll as [rp [pb [Hrp [Hpb [_ Hll]]]]].
      rewrite Hlink in Hll. inversion Hll; subst link.
      assert (E : (length (r0 :: t) - 1 = length t)%nat) by (simpl; lia).
      rewrite E in Hrp. cbn [length linked].
      exists rp, pb. cbn [chain objects extended]. rewrite Hc.
      split; [rewrite lookup_app_l; [exact Hrp|]; eapply lookup_lt_Some; eauto|].
      split; [|reflexivity].
      rewrite list_lookup_insert_ne; [exact Hpb|].
      intros ->. apply Hout, list_elem_of_In, list_elem_of_lookup. eauto.
Qed.

End Registry.

(** ** Appending to an intact ledger *)

Section Appends.

Variable SHA256 : string -> string.

(** [_addBlock] from the top level, to the end of the queue: the promise
    is fulfilled with the block, which is in the chain; the error log that
    was filled meanwhile stays behind. *)
Lemma addBlock_run w block b0 link :
  objects w !! block = Some b0 ->
  last_link w = Some link ->
  let wA := set_objects (<[block := sealed SHA256 w link b0]> (objects w)) w in
  exists n,
    jobs (drain n (fst (call (_addBlock SHA256 block) w))) = [] /\
    fulfilled 3 (VBlock block) (drain n (fst (call (_addBlock SHA256 block) w))) /\
    mworld (drain n (fst (call (_addBlock SHA256 block) w))) =
      committed block (set_arrays (arrays w ++ [findings SHA256 wA]) wA).
Proof.
  intros Hb0 Hlink wA. unfold last_link in Hlink.
  set (w1 := set_arrays (arrays w ++ [[]]) wA).
  set (a := length (arrays w)).
  set (es := check_effects SHA256 a w1 (chain w)).
  assert (Ha : arrays w1 !! a = Some []).
  { subst w1 a wA. cbn [arrays set_arrays set_objects]. rewrite lookup_app_len. reflexivity. }
  assert (Hfinal : final_world es (committed block w1) =
                   committed block (set_arrays (arrays w ++ [findings SHA256 wA]) wA)).
  { subst es. rewrite (final_world_check SHA256 a w1 (chain w) (committed block w1) [] Ha).
    subst w1 a wA. cbn [arrays set_arrays set_objects committed set_chain set_height app].
    rewrite insert_app_len. cbn [insert list_insert]. reflexivity. }
  destruct (num_gt (Num (height w)) (Num (-1))) eqn:Hgt.
  - destruct (first_block _ w) as [rprev|] eqn:Hfind; [|discriminate].
    destruct (objects w !! rprev) as [pb|] eqn:Hpb; [|discriminate].
    inversion Hlink; subst link; clear Hlink.
    destruct (addBlock_until_validation SHA256 w block b0 rprev pb Hgt Hfind Hpb Hb0)
      as [Hret Hrun].
    edestruct (commit_tail
                 [Pending false [RPass 3]; Pending false [];
                  Settled (Fulfil (VNum (Num (height w)))); Pending false [];
                  Settled (Fulfil (VBlock rprev)); Settled (Fulfil (VBlock rprev));
                  Settled (Fulfil (VArray a)); Settled (Fulfil VUndefined)]
                 es w1 a 0%nat 1%nat 3%nat block)
      as [k [PS' [Hk Hq]]];
      try reflexivity; try discriminate;
      [apply check_effects_plain|apply check_effects_sound|exists []; exact Ha|].
    exists (3 + k)%nat. rewrite drain_plus, Hrun.
    cbn [length] in Hk. fold wA w1 a es. rewrite Hk. cbn [jobs mworld].
    split; [reflexivity|]. split; [|exact Hfinal].
    unfold fulfilled. cbn [promises]. rewrite lookup_app_l; [exact Hq|].
    eapply lookup_lt_Some; eauto.
  - inversion Hlink; subst link; clear Hlink.
    destruct (addBlock_first_until_validation SHA256 w block b0 Hgt Hb0) as [Hret Hrun].
    edestruct (commit_tail
                 [Pending false [RPass 3]; Pending false [];
                  Settled (Fulfil (VNum (Num (height w)))); Pending false [];
                  Settled (Fulfil (VArray a)); Settled (Fulfil VUndefined)]
                 es w1 a 0%nat 1%nat 3%nat block)
      as [k [PS' [Hk Hq]]];
      try reflexivity; try discriminate;
      [apply check_effects_plain|apply check_effects_sound|exists []; exact Ha|].
    exists (1 + k)%nat. rewrite drain_plus, Hrun.
    cbn [length] in Hk. fold wA w1 a es. rewrite Hk. cbn [jobs mworld].
    split; [reflexivity|]. split; [|exact Hfinal].
    unfold fulfilled. cbn [promises]. rewrite lookup_app_l; [exact Hq|].
    eapply lookup_lt_Some; eauto.
Qed.

(** An intact ledger has a block to link to, or is empty. *)
Lemma intact_last_link w : intact SHA256 w -> exists link, last_link w = Some link.
Proof.
  intros [Hwf _]. pose proof (well_formed_last_link w Hwf) as H.
  destruct (chain w); [eauto|]. destruct H as [rp [pb [_ [_ [_ H]]]]]. eauto.
Qed.

(** The state [_addBlock] leaves when nothing was found on the way. *)
Lemma committed_extended w block b :
  committed block
    (set_arrays (arrays w ++ [[]]) (set_objects (<[block := b]> (objects w)) w)) =
  extended w block b.
Proof. reflexivity. Qed.

(** X1. On an intact ledger, [_addBlock] of a block that is not in the chain
    and carries no hash (as [new Block] leaves it) runs to its end: the
    promise is fulfilled with the block; the block, given the next height,
    the time, the hash of the last block and its own hash, is the new last
    entry of the chain; the height is one more; and the ledger is intact
    again. *)
Theorem addBlock_keeps_ledger_intact w block b0 :
  intact SHA256 w ->
  objects w !! block = Some b0 ->
  ~ In block (chain w) ->
  BlockClass.hash b0 = None ->
  exists n link,
    last_link w = Some link /\
    jobs (drain n (fst (call (_addBlock SHA256 block) w))) = [] /\
    fulfilled 3 (VBlock block) (drain n (fst (call (_addBlock SHA256 block) w))) /\
    mworld (drain n (fst (call (_addBlock SHA256 block) w))) =
      extended w block (sealed SHA256 w link b0) /\
    intact SHA256 (extended w block (sealed SHA256 w link b0)).
Proof.
  intros Hi Hb0 Hout Hnull.
  destruct (intact_last_link w Hi) as [link Hlink].
  destruct (addBlock_run w block b0 link Hb0 Hlink) as [n [Hj [Hf Hw]]].
  exists n, link. split; [exact Hlink|]. split; [exact Hj|]. split; [exact Hf|].
  split; [|apply extended_intact; assumption].
  rewrite Hw.
  rewrite (intact_findings SHA256 _
             (intact_update_outside SHA256 w block (sealed SHA256 w link b0) Hi Hout)).
  apply committed_extended.
Qed.

(** X2. [validateChain] raises no false alarm: on an intact ledger the
    error log it resolves with is empty when the call returns and stays
    empty however long the queue runs; nothing else changes. *)
Theorem validateChain_silent_on_intact w :
  intact SHA256 w ->
  exists n,
    jobs (drain n (fst (call (validateChain SHA256) w))) = [] /\
    forall n', (n <= n')%nat ->
      mworld (drain n' (fst (call (validateChain SHA256) w))) =
      set_arrays (arrays w ++ [[]]) w.
Proof.
  intros Hi.
  destruct (validateChain_run SHA256 w) as [_ [_ [_ [n [Hidle Hw]]]]].
  exists n. split; [exact Hidle|]. intros n' Hle.
  rewrite (idle_forever _ n Hidle n' Hle), Hw, (intact_findings SHA256 w Hi). reflexivity.
Qed.

End Appends.

(** ** The constructor *)

(** Symbolic execution from the top level, where the promise numbers are
    known: the operations of the machine are computed as they come. *)
Ltac mrun :=
  repeat first
    [ progress cbn [exec bind forEach await async new_Promise catch_nc with_block update_block
                    push skip modify new_array new_Block assign_obj read_obj copy_array
                    reaction_job run_job drain step
                    alloc_promise resolve_promise reject_promise subscribe settle
                    enqueue set_promises set_mworld finish unlock
                    mworld promises jobs
                    objects arrays chain height global_obj now
                    set_objects set_arrays set_chain set_height set_global_obj
                    length app map fst snd negb truthy Nat.eqb Nat.add
                    lookup list_lookup insert list_insert]
    | progress cbv beta iota delta [alloc_promise set_promises enqueue settle set_mworld
                                    mworld promises jobs]
    | rewrite lookup_app_len
    | rewrite insert_app_len ].

Section Construction.

Variable SHA256 : string -> string.

(** [new Blockchain()] up to its return: the genesis block is made, but
    not yet in the chain; [_addBlock] waits in the queue. *)
Lemma new_Blockchain_returns w0 :
  snd (call (new_Blockchain SHA256) w0) = Normal VUndefined /\
  mworld (fst (call (new_Blockchain SHA256) w0)) =
    set_objects (objects w0 ++ [BlockClass.make genesis_data])
      (set_height (-1) (set_chain [] w0)).
Proof.
  unfold call, start, new_Blockchain, initializeChain, _addBlock, getChainHeight.
  mrun. change (-1 =? -1) with true. cbv iota. mrun. split; reflexivity.
Qed.

(** And four turns of the queue later. *)
Lemma new_Blockchain_run w0 :
  drain 4 (fst (call (new_Blockchain SHA256) w0)) =
  mkMachine
    (mkWorld (objects w0 ++ [genesis_at SHA256 (now w0)]) (arrays w0 ++ [[]])
             [length (objects w0)] 0 (global_obj w0) (now w0))
    [Settled (Fulfil VUndefined); Settled (Fulfil (VBlock (length (objects w0))));
     Settled (Fulfil VUndefined); Settled (Fulfil (VNum (Num (-1))));
     Settled (Fulfil (VBlock (length (objects w0))));
     Settled (Fulfil (VArray (length (arrays w0)))); Settled (Fulfil VUndefined)]
    [].
Proof.
  unfold call, start, new_Blockchain, initializeChain, _addBlock, getChainHeight.
  mrun. change (-1 =? -1) with true. cbv iota. mrun.
  unfold num_gt. change (-1 <? -1) with false. cbv iota.
  unfold validateChain.
  mrun.
  reflexivity.
Qed.

(** The ledger of the genesis block alone is intact. *)
Lemma genesis_ledger_intact w0 :
  intact SHA256
    (mkWorld (objects w0 ++ [genesis_at SHA256 (now w0)]) (arrays w0 ++ [[]])
             [length (objects w0)] 0 (global_obj w0) (now w0)).
Proof.
  split; [split|].
  - reflexivity.
  - intros [|i] r H; inversion H; subst. cbn [objects]. rewrite lookup_app_len.
    eexists. split; reflexivity.
  - intros [|i] r b H Hb; inversion H; subst. cbn [objects] in Hb.
    rewrite lookup_app_len in Hb. inversion Hb; subst b.
    split; [apply valid_seal; reflexivity|exact I].
Qed.

(** X3. [new Blockchain()] returns before the genesis block exists: at that
    moment the chain is empty and the height is -1.  Four turns of the job
    queue later the queue is empty and the chain holds one block, the
    genesis block: height 0, the payload [{data: 'Genesis Block'}], the
    seconds of the clock as time stamp, no previous hash, and the digest
    of all that as hash.  The height is 0 and the ledger is intact. *)
Theorem new_Blockchain_builds_genesis w0 :
  snd (call (new_Blockchain SHA256) w0) = Normal VUndefined /\
  chain (mworld (fst (call (new_Blockchain SHA256) w0))) = [] /\
  height (mworld (fst (call (new_Blockchain SHA256) w0))) = -1 /\
  jobs (drain 4 (fst (call (new_Blockchain SHA256) w0))) = [] /\
  mworld (drain 4 (fst (call (new_Blockchain SHA256) w0))) =
    mkWorld (objects w0 ++ [genesis_at SHA256 (now w0)]) (arrays w0 ++ [[]])
            [length (objects w0)] 0 (global_obj w0) (now w0) /\
  intact SHA256 (mworld (drain 4 (fst (call (new_Blockchain SHA256) w0)))).
Proof.
  destruct (new_Blockchain_returns w0) as [Hret Hw].
  rewrite Hret, Hw, new_Blockchain_run. cbn [jobs mworld].
  split; [reflexivity|]. split; [reflexivity|]. split; [reflexivity|].
  split; [reflexivity|]. split; [reflexivity|].
  apply genesis_ledger_intact.
Qed.

End Construction.

(** ** submitStar: the working path *)

(** The tail of [_addBlock] among other promises: the jobs of the
    callbacks, the commit, the continuations of the callbacks.  What is
    left in the queue is the job that passes the block on to the promise
    [_addBlock] returned. *)
Lemma commit_phases PS es w a p r q block :
  PS !! p = Some (Pending false [RPass q]) ->
  PS !! r = Some (Pending false []) ->
  p <> r ->
  Forall plain_effect es -> Forall (sound (has_array a)) es -> has_array a w ->
  drain (length (layout_jobs (length PS) es) + (1 + length (resume_jobs (length PS) es)))
    (mkMachine w (PS ++ layout_promises (length PS) es)
       (layout_jobs (length PS) es ++ [JResume (commit p block (VArray a)) r])) =
  mkMachine (final_world es (committed block w))
    (<[r := Settled (Fulfil VUndefined)]> (<[p := Settled (Fulfil (VBlock block))]> PS)
       ++ finished_promises (length PS) es)
    [JPass q (Fulfil (VBlock block))].
Proof.
  intros Hp Hr Hpr Hpl Hs Ha.
  assert (Lp : (p < length PS)%nat) by (eapply lookup_lt_Some; eauto).
  assert (Lr : (r < length PS)%nat) by (eapply lookup_lt_Some; eauto).
  set (PS1 := <[p := Settled (Fulfil (VBlock block))]> PS).
  set (PS2 := <[r := Settled (Fulfil VUndefined)]> PS1).
  rewrite drain_plus, (pass_phase es PS _ w Hpl).
  rewrite drain_plus. cbn [drain step jobs mworld promises app run_job].
  unfold commit. cbn [truthy bind modify skip exec mworld].
  unfold set_mworld. cbn [mworld promises jobs].
  unfold resolve_promise. cbn [promises].
  rewrite (lookup_app_l PS) by exact Lp. rewrite Hp.
  unfold settle, enqueue, set_promises. cbn [promises mworld jobs map reaction_job exec finish].
  rewrite insert_app_l by exact Lp. fold PS1.
  unfold resolve_promise. cbn [promises].
  rewrite lookup_app_l by (subst PS1; rewrite length_insert; exact Lr).
  assert (H1r : PS1 !! r = Some (Pending false [])).
  { subst PS1. rewrite list_lookup_insert_ne by exact Hpr. exact Hr. }
  rewrite H1r. unfold settle, enqueue, set_promises. cbn [promises mworld jobs map].
  rewrite insert_app_l by (subst PS1; rewrite length_insert; exact Lr). fold PS2.
  rewrite app_nil_r.
  assert (L2 : length PS2 = length PS) by (subst PS2 PS1; rewrite !length_insert; reflexivity).
  assert (Hc : has_array a (committed block w)) by exact Ha.
  destruct (resume_phase (has_array a) es PS2 [JPass q (Fulfil (VBlock block))]
              (committed block w) Hc Hs) as [Hres _].
  rewrite L2 in Hres.
  change (set_height (height (set_chain (chain w ++ [block]) w) + 1)
            (set_chain (chain w ++ [block]) w)) with (committed block w).
  exact Hres.
Qed.

Section Submission.

Variable SHA256 : string -> string.
Variable bitcoinMessage_verify : string -> string -> string -> option bool.

Lemma submitStar_until_validation address message signature star w rprev pb :
  in_time w message = true ->
  bitcoinMessage_verify message address signature = Some true ->
  let b0 := BlockClass.make (JObj [("star", star); ("owner", JStr address)]) in
  let block := length (objects w) in
  let w0 := set_objects (objects w ++ [b0]) w in
  num_gt (Num (height w)) (Num (-1)) = true ->
  first_block (fun b => BlockClass.height b =? height w) w0 = Some rprev ->
  objects w0 !! rprev = Some pb ->
  let wA := set_arrays (arrays w ++ [[]])
              (set_objects
                 (objects w ++ [sealed SHA256 w (Some (BlockClass.hash pb)) b0]) w) in
  let a := length (arrays w) in
  let es := check_effects SHA256 a wA (chain w) in
  drain 3 (fst (call (submitStar SHA256 bitcoinMessage_verify
                        address message signature star) w)) =
  mkMachine wA
    ([Pending false [RPass 6]; Pending false [];
      Pending false [RPass 5]; Pending false [];
      Settled (Fulfil (VNum (Num (height w))));
      Pending false [RAwait (fun x => Resolve 0 x skip) 1];
      Pending false [];
      Settled (Fulfil (VBlock rprev)); Settled (Fulfil (VBlock rprev));
      Settled (Fulfil (VArray a)); Settled (Fulfil VUndefined)]
       ++ layout_promises 11 es)
    (layout_jobs 11 es ++ [JResume (commit 2 block (VArray a)) 3]).
Proof.
  intros Ht Hv b0 block w0 Hgt Hfind Hpb wA a es. unfold in_time in Ht.
  unfold call, start, submitStar.
  mrun. rewrite Ht, Hv. cbv iota. unfold _addBlock, getChainHeight. mrun.
  rewrite Hgt. unfold getBlockByHeight. mrun.
  subst w0 b0. rewrite Hfind. mrun. cbn [objects set_objects] in Hpb. rewrite Hpb. mrun.
  erewrite exec_bind_normal by apply exec_validateChain.
  mrun. reflexivity.
Qed.

(** The same on a ledger with no block yet. *)
Lemma submitStar_first_until_validation address message signature star w :
  in_time w message = true ->
  bitcoinMessage_verify message address signature = Some true ->
  let b0 := BlockClass.make (JObj [("star", star); ("owner", JStr address)]) in
  let block := length (objects w) in
  num_gt (Num (height w)) (Num (-1)) = false ->
  let wA := set_arrays (arrays w ++ [[]])
              (set_objects (objects w ++ [sealed SHA256 w None b0]) w) in
  let a := length (arrays w) in
  let es := check_effects SHA256 a wA (chain w) in
  drain 1 (fst (call (submitStar SHA256 bitcoinMessage_verify
                        address message signature star) w)) =
  mkMachine wA
    ([Pending false [RPass 6]; Pending false [];
      Pending false [RPass 5]; Pending false [];
      Settled (Fulfil (VNum (Num (height w))));
      Pending false [RAwait (fun x => Resolve 0 x skip) 1];
      Pending false [];
      Settled (Fulfil (VArray a)); Settled (Fulfil VUndefined)]
       ++ layout_promises 9 es)
    (layout_jobs 9 es ++ [JResume (commit 2 block (VArray a)) 3]).
Proof.
  intros Ht Hv b0 block Hgt wA a es. unfold in_time in Ht.
  unfold call, start, submitStar.
  mrun. rewrite Ht, Hv. cbv iota. unfold _addBlock, getChainHeight. mrun.
  rewrite Hgt. mrun.
  erewrite exec_bind_normal by apply exec_validateChain.
  mrun. reflexivity.
Qed.

(** The promise [submitStar] returns. *)
Lemma submitStar_returns address message signature star w :
  in_time w message = true ->
  bitcoinMessage_verify message address signature = Some true ->
  snd (call (submitStar SHA256 bitcoinMessage_verify address message signature star) w) =
    Normal (VPromise 6%nat).
Proof.
  intros Ht Hv. unfold in_time in Ht. unfold call, start, submitStar.
  mrun. rewrite Ht, Hv. cbv iota. unfold _addBlock, getChainHeight. mrun. reflexivity.
Qed.

(** [submitStar] with a timely message and a signature that verifies, to
    the end of the queue. *)
Lemma submitStar_run address message signature star w link :
  in_time w message = true ->
  bitcoinMessage_verify message address signature = Some true ->
  let b0 := BlockClass.make (JObj [("star", star); ("owner", JStr address)]) in
  let block := length (objects w) in
  last_link (set_objects (objects w ++ [b0]) w) = Some link ->
  let wB := set_objects (objects w ++ [sealed SHA256 w link b0]) w in
  exists n,
    jobs (drain n (fst (call (submitStar SHA256 bitcoinMessage_verify
                                address message signature star) w))) = [] /\
    fulfilled 6 (VBlock block)
      (drain n (fst (call (submitStar SHA256 bitcoinMessage_verify
                             address message signature star) w))) /\
    mworld (drain n (fst (call (submitStar SHA256 bitcoinMessage_verify
                                  address message signature star) w))) =
      committed block (set_arrays (arrays w ++ [findings SHA256 wB]) wB).
Proof.
  intros Ht Hv b0 block Hlink wB. unfold last_link in Hlink.
  cbn [height set_objects] in Hlink.
  set (wA := set_arrays (arrays w ++ [[]]) wB).
  set (a := length (arrays w)).
  set (es := check_effects SHA256 a wA (chain w)).
  assert (Ha : arrays wA !! a = Some []).
  { subst wA a wB. cbn [arrays set_arrays set_objects]. rewrite lookup_app_len. reflexivity. }
  assert (Hfinal : final_world es (committed block wA) =
                   committed block (set_arrays (arrays w ++ [findings SHA256 wB]) wB)).
  { subst es. rewrite (final_world_check SHA256 a wA (chain w) (committed block wA) [] Ha).
    subst wA a wB. cbn [arrays set_arrays set_objects committed set_chain set_height app].
    rewrite insert_app_len. cbn [insert list_insert]. reflexivity. }
  destruct (num_gt (Num (height w)) (Num (-1))) eqn:Hgt.
  - destruct (first_block _ _) as [rprev|] eqn:Hfind; [|discriminate].
    destruct (objects _ !! rprev) as [pb|] eqn:Hpb; [|discriminate].
    inversion Hlink; subst link; clear Hlink.
    pose proof (submitStar_until_validation address message signature star w rprev pb
                  Ht Hv Hgt Hfind Hpb) as Hrun.
    cbv zeta in Hrun. fold b0 block wB wA a es in Hrun.
    pose proof (commit_phases
                  [Pending false [RPass 6]; Pending false [];
                   Pending false [RPass 5]; Pending false [];
                   Settled (Fulfil (VNum (Num (height w))));
                   Pending false [RAwait (fun x => Resolve 0 x skip) 1];
                   Pending false [];
                   Settled (Fulfil (VBlock rprev)); Settled (Fulfil (VBlock rprev));
                   Settled (Fulfil (VArray a)); Settled (Fulfil VUndefined)]
                  es wA a 2%nat 3%nat 5%nat block eq_refl eq_refl) as Hk.
    cbn [length] in Hk.
    specialize (Hk ltac:(discriminate) (check_effects_plain _ _ _ _)
                  (check_effects_sound _ _ _ _) (ex_intro _ [] Ha)).
    eexists (3 + (_ + 3))%nat. rewrite drain_plus, Hrun, drain_plus, Hk, Hfinal.
    mrun. split; [reflexivity|]. split; reflexivity.
  - inversion Hlink; subst link; clear Hlink.
    pose proof (submitStar_first_until_validation address message signature star w
                  Ht Hv Hgt) as Hrun.
    cbv zeta in Hrun. fold b0 block wB wA a es in Hrun.
    pose proof (commit_phases
                  [Pending false [RPass 6]; Pending false [];
                   Pending false [RPass 5]; Pending false [];
                   Settled (Fulfil (VNum (Num (height w))));
                   Pending false [RAwait (fun x => Resolve 0 x skip) 1];
                   Pending false [];
                   Settled (Fulfil (VArray a)); Settled (Fulfil VUndefined)]
                  es wA a 2%nat 3%nat 5%nat block eq_refl eq_refl) as Hk.
    cbn [length] in Hk.
    specialize (Hk ltac:(discriminate) (check_effects_plain _ _ _ _)
                  (check_effects_sound _ _ _ _) (ex_intro _ [] Ha)).
    eexists (1 + (_ + 3))%nat. rewrite drain_plus, Hrun, drain_plus, Hk, Hfinal.
    mrun. split; [reflexivity|]. split; reflexivity.
Qed.

(** A new object on the heap changes nothing for a well-formed chain. *)
Lemma last_link_new_object w b :
  intact SHA256 w -> last_link (set_objects (objects w ++ [b]) w) = last_link w.
Proof.
  intros Hi.
  pose proof (intact_new_object SHA256 w b Hi) as [Hwf' _]. destruct Hi as [Hwf _].
  pose proof (well_formed_last_link w Hwf) as H.
  pose proof (well_formed_last_link _ Hwf') as H'. cbn [chain objects set_objects] in H'.
  destruct (chain w) as [|r0 t].
  - rewrite H, H'. reflexivity.
  - destruct H as [rp [pb [Hrp [Hpb [_ H]]]]]. destruct H' as [rp' [pb' [Hrp' [Hpb' [_ H']]]]].
    rewrite Hrp in Hrp'. inversion Hrp'; subst rp'.
    rewrite lookup_app_l in Hpb' by (eapply lookup_lt_Some; eauto).
    rewrite Hpb in Hpb'. inversion Hpb'; subst pb'. rewrite H, H'. reflexivity.
Qed.

(** The state [submitStar] leaves on an intact ledger: the new block is
    the last object of the heap and the last entry of the chain, and the
    ledger is intact again. *)
Lemma star_appended_intact w b0 link :
  intact SHA256 w ->
  BlockClass.hash b0 = None ->
  last_link (set_objects (objects w ++ [b0]) w) = Some link ->
  let wB := set_objects (objects w ++ [sealed SHA256 w link b0]) w in
  let w' := mkWorld (objects w ++ [sealed SHA256 w link b0]) (arrays w ++ [[]])
              (chain w ++ [length (objects w)]) (height w + 1) (global_obj w) (now w) in
  committed (length (objects w)) (set_arrays (arrays w ++ [findings SHA256 wB]) wB) = w' /\
  intact SHA256 w'.
Proof.
  intros Hi Hnull Hlink wB w'.
  set (w0 := set_objects (objects w ++ [b0]) w).
  assert (Hi0 : intact SHA256 w0) by (apply intact_new_object; exact Hi).
  assert (Hout : ~ In (length (objects w)) (chain w0)).
  { intros Hin. apply list_elem_of_In, list_elem_of_lookup in Hin. destruct Hin as [i Hin].
    pose proof (well_formed_ref w i _ (proj1 Hi) Hin). lia. }
  assert (Hb0 : objects w0 !! length (objects w) = Some b0).
  { subst w0. cbn [objects set_objects]. rewrite lookup_app_len. reflexivity. }
  assert (Hext : extended w0 (length (objects w)) (sealed SHA256 w0 link b0) = w').
  { unfold extended. subst w0 w'. cbn [objects arrays chain height global_obj now set_objects].
    rewrite insert_app_len. reflexivity. }
  split; [|rewrite <- Hext; apply extended_intact; assumption].
  pose proof (intact_findings SHA256 _
                (intact_update_outside SHA256 w0 (length (objects w))
                   (sealed SHA256 w0 link b0) Hi0 Hout)) as Hfind.
  subst w0. cbn [objects set_objects] in Hfind. rewrite insert_app_len in Hfind.
  cbn [insert list_insert] in Hfind.
  assert (Hfind' : findings SHA256 wB = []) by exact Hfind.
  rewrite Hfind'. reflexivity.
Qed.

(** X4. On an intact ledger, [submitStar] with a message that passes the
    time test and a signature the library accepts runs to its end: a block
    holding [{star, owner: address}] is made, given the next height, the
    time, the hash of the last block and its own hash, and appended; the
    height is one more; the promise is fulfilled with that block; the
    ledger is intact again. *)
Theorem submitStar_appends_star address message signature star w :
  intact SHA256 w ->
  in_time w message = true ->
  bitcoinMessage_verify message address signature = Some true ->
  exists n link,
    last_link w = Some link /\
    snd (call (submitStar SHA256 bitcoinMessage_verify address message signature star) w) =
      Normal (VPromise 6%nat) /\
    jobs (drain n (fst (call (submitStar SHA256 bitcoinMessage_verify
                                address message signature star) w))) = [] /\
    fulfilled 6 (VBlock (length (objects w)))
      (drain n (fst (call (submitStar SHA256 bitcoinMessage_verify
                             address message signature star) w))) /\
    mworld (drain n (fst (call (submitStar SHA256 bitcoinMessage_verify
                                  address message signature star) w))) =
      mkWorld (objects w ++ [star_block SHA256 w link address star]) (arrays w ++ [[]])
              (chain w ++ [length (objects w)]) (height w + 1) (global_obj w) (now w) /\
    intact SHA256
      (mkWorld (objects w ++ [star_block SHA256 w link address star]) (arrays w ++ [[]])
               (chain w ++ [length (objects w)]) (height w + 1) (global_obj w) (now w)).
Proof.
  intros Hi Ht Hv.
  set (b0 := BlockClass.make (JObj [("star", star); ("owner", JStr address)])).
  destruct (intact_last_link SHA256 _ (intact_new_object SHA256 w b0 Hi)) as [link Hlink].
  destruct (submitStar_run address message signature star w link Ht Hv Hlink)
    as [n [Hj [Hf Hw]]].
  destruct (star_appended_intact w b0 link Hi eq_refl Hlink) as [Hfinal Hi'].
  exists n, link.
  split; [rewrite <- Hlink; symmetry; apply last_link_new_object; exact Hi|].
  split; [apply submitStar_returns; assumption|].
  split; [exact Hj|]. split; [exact Hf|].
  split; [rewrite Hw; exact Hfinal|exact Hi'].
Qed.

End Submission.

(** ** Lookups that find their block *)

Lemma head_filter_some {A : Type} (g : A -> bool) (l : list A) (x : A) :
  head (List.filter g l) = Some x ->
  exists i, l !! i = Some x /\ g x = true /\
    forall j y, (j < i)%nat -> l !! j = Some y -> g y = false.
Proof.
  induction l as [|a t IH]; intros H; [discriminate|].
  cbn [List.filter] in H. destruct (g a) eqn:Ha.
  - inversion H; subst a. exists 0%nat. split; [reflexivity|]. split; [exact Ha|].
    intros j y Hj. lia.
  - destruct (IH H) as [i [Hi [Hg Hfirst]]]. exists (S i).
    split; [exact Hi|]. split; [exact Hg|].
    intros [|j] y Hj Hy.
    + inversion Hy; subst y. exact Ha.
    + apply (Hfirst j y); [lia|exact Hy].
Qed.

Lemma head_filter_none {A : Type} (g : A -> bool) (l : list A) :
  head (List.filter g l) = None -> forall x, In x l -> g x = false.
Proof.
  intros H x Hx. destruct (g x) eqn:E; [|reflexivity].
  assert (Hin : In x (List.filter g l)) by (apply filter_In; split; assumption).
  destruct (List.filter g l); [destruct Hin|discriminate].
Qed.

(** What [filter(...)[0]] finds is the first block of the chain that
    passes. *)
Lemma first_block_some (f : BlockClass.Block -> bool) w r :
  first_block f w = Some r ->
  exists i b, chain w !! i = Some r /\ objects w !! r = Some b /\ f b = true /\
    forall j r' b', (j < i)%nat -> chain w !! j = Some r' -> objects w !! r' = Some b' ->
                    f b' = false.
Proof.
  unfold first_block. intros H. apply head_filter_some in H.
  destruct H as [i [Hi [Hg Hfirst]]].
  destruct (objects w !! r) as [b|] eqn:Hb; [|discriminate].
  exists i, b. split; [exact Hi|]. split; [reflexivity|]. split; [exact Hg|].
  intros j r' b' Hj Hr' Hb'. specialize (Hfirst j r' Hj Hr'). rewrite Hb' in Hfirst.
  exact Hfirst.
Qed.

Lemma first_block_exists (f : BlockClass.Block -> bool) w r b :
  In r (chain w) -> objects w !! r = Some b -> f b = true ->
  exists r', first_block f w = Some r'.
Proof.
  intros Hin Hb Hf. destruct (first_block f w) as [r'|] eqn:E; [eauto|].
  unfold first_block in E. pose proof (head_filter_none _ _ E r Hin) as H.
  cbn beta in H. rewrite Hb, Hf in H. discriminate.
Qed.

(** The run of a lookup whose filter finds the block [r]: the promise
    handed out is fulfilled with it after one turn, and nothing changes. *)
Lemma getBlockByHash_hit w h r :
  first_block (fun b => hash_is (BlockClass.hash b) h) w = Some r ->
  snd (call (getBlockByHash h) w) = Normal (VPromise 1%nat) /\
  forall n, (1 <= n)%nat ->
    fulfilled 1 (VBlock r) (drain n (fst (call (getBlockByHash h) w))) /\
    mworld (drain n (fst (call (getBlockByHash h) w))) = w.
Proof.
  intros H. unfold call, getBlockByHash. cbn -[first_block]. rewrite H. cbn.
  split; [reflexivity|]. intros n Hn.
  rewrite (drain_settled 1 n) by (try reflexivity; exact Hn). split; reflexivity.
Qed.

Lemma getBlockByHeight_hit w z r :
  first_block (fun b => BlockClass.height b =? z) w = Some r ->
  snd (call (getBlockByHeight z) w) = Normal (VPromise 1%nat) /\
  forall n, (1 <= n)%nat ->
    fulfilled 1 (VBlock r) (drain n (fst (call (getBlockByHeight z) w))) /\
    mworld (drain n (fst (call (getBlockByHeight z) w))) = w.
Proof.
  intros H. unfold call, getBlockByHeight. cbn -[first_block]. rewrite H. cbn.
  split; [reflexivity|]. intros n Hn.
  rewrite (drain_settled 1 n) by (try reflexivity; exact Hn). split; reflexivity.
Qed.

(** X5. In a well-formed ledger, [getBlockByHeight(z)] for a height [z]
    from 0 to the height of the chain is fulfilled, after one turn of the
    queue, with the block at position [z] of the chain, whose [height]
    field is [z]; the ledger is unchanged. *)
Theorem getBlockByHeight_finds w z :
  well_formed w -> 0 <= z <= height w ->
  exists r b,
    chain w !! Z.to_nat z = Some r /\ objects w !! r = Some b /\ BlockClass.height b = z /\
    snd (call (getBlockByHeight z) w) = Normal (VPromise 1%nat) /\
    forall n, (1 <= n)%nat ->
      fulfilled 1 (VBlock r) (drain n (fst (call (getBlockByHeight z) w))) /\
      mworld (drain n (fst (call (getBlockByHeight z) w))) = w.
Proof.
  intros Hwf Hz. pose proof Hwf as [Hh H].
  destruct (chain w !! Z.to_nat z) as [r|] eqn:Hr.
  2:{ apply lookup_ge_None in Hr. lia. }
  destruct (H _ _ Hr) as [b [Hb Hhb]].
  exists r, b. split; [reflexivity|]. split; [exact Hb|]. split; [lia|].
  apply getBlockByHeight_hit. rewrite (first_block_height w z Hwf).
  destruct (z <? 0) eqn:E; [apply Z.ltb_lt in E; lia|exact Hr].
Qed.

(** X6. When some block of the chain has the hash [h], [getBlockByHash(h)]
    is fulfilled, after one turn of the queue, with the first block of the
    chain that has it; the ledger is unchanged. *)
Theorem getBlockByHash_finds_first w h :
  (exists r b, In r (chain w) /\ objects w !! r = Some b /\ BlockClass.hash b = Some h) ->
  exists i r b,
    chain w !! i = Some r /\ objects w !! r = Some b /\ BlockClass.hash b = Some h /\
    (forall j r' b', (j < i)%nat -> chain w !! j = Some r' -> objects w !! r' = Some b' ->
                     BlockClass.hash b' <> Some h) /\
    snd (call (getBlockByHash h) w) = Normal (VPromise 1%nat) /\
    forall n, (1 <= n)%nat ->
      fulfilled 1 (VBlock r) (drain n (fst (call (getBlockByHash h) w))) /\
      mworld (drain n (fst (call (getBlockByHash h) w))) = w.
Proof.
  intros [r0 [b0 [Hin [Hb0 Hh0]]]].
  destruct (first_block_exists (fun b => hash_is (BlockClass.hash b) h) w r0 b0 Hin Hb0)
    as [r Hr]; [apply hash_is_true; exact Hh0|].
  destruct (first_block_some _ w r Hr) as [i [b [Hi [Hb [Hf Hfirst]]]]].
  exists i, r, b. split; [exact Hi|]. split; [exact Hb|].
  split; [apply hash_is_true; exact Hf|]. split.
  - intros j r' b' Hj Hr' Hb' E. apply hash_is_true in E.
    rewrite (Hfirst j r' b' Hj Hr' Hb') in E. discriminate.
  - apply getBlockByHash_hit. exact Hr.
Qed.

Section Detection.

Variable SHA256 : string -> string.

(** X7. What [_addBlock] appended to an intact ledger is what
    [getBlockByHeight] finds at the new height: once [_addBlock] has run
    to its end, the height is one more, and [getBlockByHeight] of that
    height is fulfilled with the block that was appended. *)
Theorem addBlock_then_getBlockByHeight w block b0 :
  intact SHA256 w ->
  objects w !! block = Some b0 ->
  ~ In block (chain w) ->
  BlockClass.hash b0 = None ->
  exists n,
    jobs (drain n (fst (call (_addBlock SHA256 block) w))) = [] /\
    let w' := mworld (drain n (fst (call (_addBlock SHA256 block) w))) in
    height w' = height w + 1 /\
    snd (call (getBlockByHeight (height w')) w') = Normal (VPromise 1%nat) /\
    forall k, (1 <= k)%nat ->
      fulfilled 1 (VBlock block) (drain k (fst (call (getBlockByHeight (height w')) w'))) /\
      mworld (drain k (fst (call (getBlockByHeight (height w')) w'))) = w'.
Proof.
  intros Hi Hb0 Hout Hnull.
  destruct (intact_last_link SHA256 w Hi) as [link Hlink].
  destruct (addBlock_run SHA256 w block b0 link Hb0 Hlink) as [n [Hj [_ Hw]]].
  exists n. split; [exact Hj|]. cbv zeta.
  rewrite Hw.
  rewrite (intact_findings SHA256 _
             (intact_update_outside SHA256 w block (sealed SHA256 w link b0) Hi Hout)).
  rewrite committed_extended.
  set (w' := extended w block (sealed SHA256 w link b0)).
  pose proof (extended_intact SHA256 w block b0 link Hi Hb0 Hout Hnull Hlink) as [Hwf' _].
  fold w' in Hwf'. split; [reflexivity|].
  apply getBlockByHeight_hit.
  rewrite (first_block_height w' (height w') Hwf').
  destruct Hi as [[Hh _] _].
  subst w'. cbn [height chain extended].
  destruct (height w + 1 <? 0) eqn:E; [apply Z.ltb_lt in E; lia|].
  replace (Z.to_nat (height w + 1)) with (length (chain w)) by lia.
  rewrite lookup_app_len. reflexivity.
Qed.

(** *** Overwritten bodies *)

Lemma flat_map_single {A B : Type} (f : A -> list B) (l : list A) (i : nat) (x : A) :
  l !! i = Some x ->
  (forall j y, l !! j = Some y -> j <> i -> f y = []) ->
  flat_map f l = f x.
Proof.
  revert i. induction l as [|a t IH]; intros i Hi H; [discriminate|].
  cbn [flat_map]. destruct i as [|i].
  - inversion Hi; subst a. rewrite (flat_map_nil f t), app_nil_r; [reflexivity|].
    intros y Hy. apply list_elem_of_In, list_elem_of_lookup in Hy. destruct Hy as [j Hj].
    apply (H (S j) y Hj). discriminate.
  - rewrite (H 0%nat a eq_refl) by discriminate. cbn [app].
    apply (IH i Hi). intros j y Hj Hne. apply (H (S j) y Hj). lia.
Qed.

(** Overwriting a body changes neither the hash nor the link of a block. *)
Lemma valid_overwritten b s :
  valid SHA256 b = true ->
  recomputed SHA256 (set_body s b) <> recomputed SHA256 b ->
  valid SHA256 (set_body s b) = false.
Proof.
  intros Hv Hne. destruct (valid SHA256 (set_body s b)) eqn:E; [|reflexivity].
  apply hash_is_true in Hv. apply hash_is_true in E. cbn [BlockClass.hash set_body] in E.
  rewrite Hv in E. inversion E. congruence.
Qed.

(** On an intact ledger in which the body of the block at position [i] was
    overwritten, [validateChain] finds that block and no other. *)
Lemma findings_overwritten w i r b s :
  intact SHA256 w ->
  chain w !! i = Some r -> objects w !! r = Some b ->
  recomputed SHA256 (set_body s b) <> recomputed SHA256 b ->
  findings SHA256 (tamper r (set_body s) w) = [VStr (complaint i)].
Proof.
  intros [Hwf Hin] Hi Hb Hne. pose proof Hwf as [_ H].
  assert (Hlt : (r < length (objects w))%nat) by (eapply lookup_lt_Some; eauto).
  unfold tamper. rewrite Hb. unfold findings. cbn [chain set_objects].
  set (w' := set_objects (<[r := set_body s b]> (objects w)) w).
  (* the block at a position of the chain, after the overwriting *)
  assert (Hobj : forall j r' b', chain w !! j = Some r' -> objects w !! r' = Some b' ->
            exists b'', objects w' !! r' = Some b'' /\
              BlockClass.hash b'' = BlockClass.hash b' /\
              BlockClass.height b'' = BlockClass.height b' /\
              BlockClass.previousBlockHash b'' = BlockClass.previousBlockHash b' /\
              valid SHA256 b'' = negb (Nat.eqb j i)).
  { intros j r' b' Hj Hb'. destruct (Hin j r' b' Hj Hb') as [Hv _].
    subst w'. cbn [objects set_objects].
    destruct (decide (r' = r)) as [->|Hr].
    - rewrite (well_formed_inj w j i r Hwf Hj Hi).
      rewrite Hb in Hb'. inversion Hb'; subst b'.
      rewrite list_lookup_insert_eq by exact Hlt. eexists. split; [reflexivity|].
      rewrite Nat.eqb_refl. repeat split. apply valid_overwritten; assumption.
    - rewrite list_lookup_insert_ne by congruence. exists b'. split; [exact Hb'|].
      repeat split. rewrite Hv. symmetry. apply negb_true_iff, Nat.eqb_neq.
      intros ->. rewrite Hi in Hj. inversion Hj. congruence. }
  assert (Hfind : forall j r', chain w !! j = Some r' ->
            finding SHA256 w' r' = if Nat.eqb j i then [VStr (complaint j)] else []).
  { intros j r' Hj. destruct (H j r' Hj) as [b' [Hb' Hh']].
    destruct (Hin j r' b' Hj Hb') as [_ Hl].
    destruct (Hobj j r' b' Hj Hb') as [b'' [Hb'' [_ [Hh'' [Hp'' Hv'']]]]].
    unfold finding, examine. rewrite Hb'', Hh'', Hh'.
    destruct j as [|j].
    - change (Z.of_nat 0 =? 0) with true. cbv iota. rewrite Hv''.
      destruct (Nat.eqb 0 i); reflexivity.
    - destruct (Z.of_nat (S j) =? 0) eqn:E; [apply Z.eqb_eq in E; lia|].
      destruct Hl as [rp [pb [Hrp [Hpb Hlink]]]].
      destruct (Hobj j rp pb Hrp Hpb) as [pb' [Hpb' [Hhp' _]]].
      replace (Z.of_nat (S j) - 1) with (Z.of_nat j) by lia.
      assert (Hrp' : chain w' !! j = Some rp) by exact Hrp.
      rewrite (chain_at_lookup w' j rp pb' Hrp' Hpb'), Hp'', Hhp', Hlink, hash_eq_refl, Hv''.
      destruct (Nat.eqb (S j) i); reflexivity. }
  rewrite (flat_map_single (finding SHA256 w') (chain w) i r Hi).
  - rewrite (Hfind i r Hi), Nat.eqb_refl. reflexivity.
  - intros j y Hj Hji. rewrite (Hfind j y Hj).
    destruct (Nat.eqb j i) eqn:E; [apply Nat.eqb_eq in E; contradiction|reflexivity].
Qed.

(** X8. When the body of one block of an intact chain is overwritten, and
    the digest tells the block from what it was, [validateChain] ends with
    exactly one entry in its error log: ["Genesis Block is not valid"] for
    the first block, and for any other block a fixed text that does not
    say which block it is.  The log is still empty when the call returns. *)
Theorem validateChain_reports_overwritten_body w i r b s :
  intact SHA256 w ->
  chain w !! i = Some r -> objects w !! r = Some b ->
  recomputed SHA256 (set_body s b) <> recomputed SHA256 b ->
  arrays (mworld (fst (call (validateChain SHA256) (tamper r (set_body s) w))))
    !! length (arrays w) = Some [] /\
  exists n,
    jobs (drain n (fst (call (validateChain SHA256) (tamper r (set_body s) w)))) = [] /\
    forall n', (n <= n')%nat ->
      mworld (drain n' (fst (call (validateChain SHA256) (tamper r (set_body s) w)))) =
      set_arrays (arrays w ++ [[VStr (complaint i)]]) (tamper r (set_body s) w).
Proof.
  intros Hi Hr Hb Hne.
  destruct (validateChain_run SHA256 (tamper r (set_body s) w))
    as [_ [_ [Hempty [n [Hidle Hw]]]]].
  assert (Ha : arrays (tamper r (set_body s) w) = arrays w).
  { unfold tamper. rewrite Hb. reflexivity. }
  rewrite Ha in Hempty, Hw. split; [exact Hempty|].
  exists n. split; [exact Hidle|]. intros n' Hle.
  rewrite (idle_forever _ n Hidle n' Hle), Hw.
  rewrite (findings_overwritten w i r b s Hi Hr Hb Hne). reflexivity.
Qed.



End Detection.

(** ** Block.getBData in a scope that declares obj *)

Section Decoding.

Variable hex2ascii : string -> string.
Variable JSON_parse : string -> option json.

(** X9. [getBData] never answers for a block of height 0 (the genesis
    block) or less: whatever the scope declares and whatever the decoders
    return, the promise it hands out is never fulfilled. *)
Theorem getBData_never_answers_for_genesis w self b :
  objects w !! self = Some b ->
  BlockClass.height b <= 0 ->
  exists q,
    snd (call (getBData hex2ascii JSON_parse self) w) = Normal (VPromise q) /\
    forall n v, ~ fulfilled q v (drain n (fst (call (getBData hex2ascii JSON_parse self) w))).
Proof.
  intros Hb Hh. exists 1%nat.
  destruct (global_obj w) as [v0|] eqn:Hg.
  - unfold call, start, getBData. mrun. rewrite Hb. mrun.
    destruct (JSON_parse (hex2ascii (BlockClass.body b))) as [j|]; mrun.
    + rewrite Hg. mrun. rewrite Hb. mrun.
      destruct (0 <? BlockClass.height b) eqn:E; [apply Z.ltb_lt in E; lia|]. mrun.
      split; [reflexivity|]. intros n v. rewrite drain_idle by reflexivity. discriminate.
    + split; [reflexivity|]. intros [|n] v; [discriminate|].
      rewrite (drain_settled 1 (S n)) by (try reflexivity; lia). discriminate.
  - unfold call, start. rewrite (exec_getBData_unbound hex2ascii JSON_parse None w [] [] self Hg).
    split; [reflexivity|]. intros [|n] v; [discriminate|].
    rewrite (drain_settled 1 (S n)) by (try reflexivity; lia). discriminate.
Qed.

(** X10. In a scope that declares [obj], [getBData] on a block above
    height 0 whose body the decoders can read is fulfilled, after one turn
    of the queue, with the parsed data; the data is left in [obj], and the
    ledger is otherwise unchanged. *)
Theorem getBData_decodes_with_binding w self b v0 j :
  objects w !! self = Some b ->
  0 < BlockClass.height b ->
  global_obj w = Some v0 ->
  JSON_parse (hex2ascii (BlockClass.body b)) = Some j ->
  snd (call (getBData hex2ascii JSON_parse self) w) = Normal (VPromise 1%nat) /\
  forall n, (1 <= n)%nat ->
    fulfilled 1 (VData j) (drain n (fst (call (getBData hex2ascii JSON_parse self) w))) /\
    mworld (drain n (fst (call (getBData hex2ascii JSON_parse self) w))) =
      set_global_obj (Some (VData j)) w.
Proof.
  intros Hb Hh Hg Hj. unfold call, start, getBData. mrun. rewrite Hb. mrun.
  rewrite Hj. mrun. rewrite Hg. mrun. rewrite Hb. mrun.
  destruct (0 <? BlockClass.height b) eqn:E; [|apply Z.ltb_ge in E; lia]. mrun.
  split; [reflexivity|]. intros n Hn.
  rewrite (drain_settled 1 n) by (try reflexivity; exact Hn). split; reflexivity.
Qed.

End Decoding.

(** ** Appending too early, and what follows *)

Section Hazards.

Variable SHA256 : string -> string.

Ltac mrun_deep :=
  repeat first [ progress mrun | rewrite <- app_assoc | rewrite length_app
               | rewrite lookup_app_add | rewrite insert_app_add ].

(** The block [_addBlock] makes of [b] on a ledger without blocks. *)
Lemma genesis_at_sealed w b :
  sealed SHA256 (set_height (-1) w) None b =
  seal SHA256 (BlockClass.set_height 0 (BlockClass.set_timeStamp (JStr (seconds_text w)) b)).
Proof. reflexivity. Qed.

Lemma append_at_once_returns data w0 :
  snd (call (append_at_once SHA256 data) w0) = Normal (VPromise 8%nat).
Proof.
  unfold call, start, append_at_once, new_Blockchain, initializeChain, _addBlock, getChainHeight.
  mrun. change (-1 =? -1) with true. cbv iota. mrun. reflexivity.
Qed.

Lemma append_at_once_run data w0 :
  drain 7 (fst (call (append_at_once SHA256 data) w0)) =
  mkMachine
    (mkWorld (objects w0 ++ [genesis_at SHA256 (now w0);
                             seal SHA256 (BlockClass.set_timeStamp (JStr (seconds_text w0))
                                            (BlockClass.make data))])
             (arrays w0 ++ [[]; []])
             [length (objects w0); (length (objects w0) + 1)%nat] 1
             (global_obj w0) (now w0))
    [Settled (Fulfil VUndefined); Settled (Fulfil (VBlock (length (objects w0))));
     Settled (Fulfil VUndefined); Settled (Fulfil (VNum (Num (-1))));
     Settled (Fulfil (VBlock (length (objects w0))));
     Settled (Fulfil (VBlock (length (objects w0) + 1)));
     Settled (Fulfil VUndefined); Settled (Fulfil (VNum (Num (-1))));
     Settled (Fulfil (VBlock (length (objects w0) + 1)));
     Settled (Fulfil (VArray (length (arrays w0))));
     Settled (Fulfil VUndefined);
     Settled (Fulfil (VArray (length (arrays w0) + 1)));
     Settled (Fulfil VUndefined)]
    [].
Proof.
  unfold call, start, append_at_once, new_Blockchain, initializeChain, _addBlock, getChainHeight.
  mrun. change (-1 =? -1) with true. cbv iota. mrun.
  unfold num_gt. change (-1 <? -1) with false. cbv iota.
  unfold validateChain.
  mrun_deep.
  reflexivity.
Qed.

(** [_addBlock] on a ledger whose height is the height of no block: it
    waits for [getBlockByHeight], which never answers. *)
Lemma addBlock_stuck w block :
  last_link w = None ->
  never_settles w (call (_addBlock SHA256 block) w).
Proof.
  unfold last_link. intros H.
  destruct (num_gt (Num (height w)) (Num (-1))) eqn:Hgt; [|discriminate].
  assert (Hfind : first_block (fun b => BlockClass.height b =? height w) w = None).
  { destruct (first_block _ w) as [r|] eqn:E; [|reflexivity].
    destruct (first_block_some _ w r E) as [i [b [_ [Hb _]]]]. rewrite Hb in H. discriminate. }
  exists 3%nat. split.
  { unfold call, start, _addBlock, getChainHeight. mrun. reflexivity. }
  assert (Hrun : exists PS,
            drain 1 (fst (call (_addBlock SHA256 block) w)) = mkMachine w PS [] /\
            PS !! 3%nat = Some (Pending false [])).
  { unfold call, start, _addBlock, getChainHeight. mrun.
    rewrite Hgt. unfold getBlockByHeight. mrun. rewrite Hfind. mrun.
    eexists. split; reflexivity. }
  destruct Hrun as [PS [Hrun HPS]].
  intros [|n].
  - unfold call, start, _addBlock, getChainHeight. mrun.
    split; [eexists _, _; reflexivity|reflexivity].
  - rewrite (drain_settled 1 (S n)) by (try (rewrite Hrun; reflexivity); lia).
    rewrite Hrun. split; [eexists _, _; exact HPS|reflexivity].
Qed.

(** X11. [getChainHeight] called in the turn of [new Blockchain()] answers
    -1: its promise is fulfilled with -1 when the call returns, and that is
    what it holds when the queue has run and the height has become 0. *)
Theorem getChainHeight_right_after_construction w0 :
  snd (call (new_Blockchain SHA256 ;; getChainHeight) w0) = Normal (VPromise 5%nat) /\
  fulfilled 5 (VNum (Num (-1))) (fst (call (new_Blockchain SHA256 ;; getChainHeight) w0)) /\
  forall n, (4 <= n)%nat ->
    fulfilled 5 (VNum (Num (-1)))
      (drain n (fst (call (new_Blockchain SHA256 ;; getChainHeight) w0))) /\
    height (mworld (drain n (fst (call (new_Blockchain SHA256 ;; getChainHeight) w0)))) = 0.
Proof.
  assert (Hrun : exists W PS,
            drain 4 (fst (call (new_Blockchain SHA256 ;; getChainHeight) w0)) =
            mkMachine W PS [] /\ height W = 0 /\
            PS !! 5%nat = Some (Settled (Fulfil (VNum (Num (-1)))))).
  { unfold call, start, new_Blockchain, initializeChain, _addBlock, getChainHeight.
    mrun. change (-1 =? -1) with true. cbv iota. mrun.
    unfold num_gt. change (-1 <? -1) with false. cbv iota.
    unfold validateChain. mrun.
    eexists _, _. split; [reflexivity|]. split; reflexivity. }
  destruct Hrun as [W [PS [Hrun [HW HPS]]]].
  split; [|split].
  - unfold call, start, new_Blockchain, initializeChain, _addBlock, getChainHeight.
    mrun. change (-1 =? -1) with true. cbv iota. mrun. reflexivity.
  - unfold call, start, new_Blockchain, initializeChain, _addBlock, getChainHeight.
    mrun. change (-1 =? -1) with true. cbv iota. mrun. reflexivity.
  - intros n Hn.
    rewrite (drain_settled 4 n) by (try (rewrite Hrun; reflexivity); exact Hn).
    rewrite Hrun. split; [exact HPS|exact HW].
Qed.

(** X12. A block appended in the turn of [new Blockchain()] collides with
    the genesis block: [_addBlock] reads the height -1 before the genesis
    block is in the chain, so both blocks get height 0 and no previous
    hash.  After seven turns the chain holds the two blocks, the height is
    1, and the promise of [_addBlock] is fulfilled with the second block.
    The ledger is not well formed, and no block has the height of the
    chain. *)
Theorem append_in_construction_turn_collides data w0 :
  let m := drain 7 (fst (call (append_at_once SHA256 data) w0)) in
  snd (call (append_at_once SHA256 data) w0) = Normal (VPromise 8%nat) /\
  jobs m = [] /\
  fulfilled 8 (VBlock (length (objects w0) + 1)) m /\
  mworld m =
    mkWorld (objects w0 ++ [genesis_at SHA256 (now w0);
                            seal SHA256 (BlockClass.set_timeStamp (JStr (seconds_text w0))
                                           (BlockClass.make data))])
            (arrays w0 ++ [[]; []])
            [length (objects w0); (length (objects w0) + 1)%nat] 1
            (global_obj w0) (now w0) /\
  ~ well_formed (mworld m) /\
  last_link (mworld m) = None.
Proof.
  cbv zeta. rewrite append_at_once_returns, append_at_once_run. cbn [jobs mworld].
  split; [reflexivity|]. split; [reflexivity|]. split; [reflexivity|].
  split; [reflexivity|]. split.
  - intros [_ H]. destruct (H 1%nat _ eq_refl) as [b [Hb Hh]].
    cbn [objects] in Hb. rewrite lookup_app_add in Hb. inversion Hb; subst b.
    discriminate.
  - unfold last_link, first_block. cbn [height chain objects List.filter].
    rewrite lookup_app_len, lookup_app_add. reflexivity.
Qed.

(** X13. On a ledger whose height is 0 or more but is the height of no
    block of the chain, [_addBlock] never finishes: it waits for
    [getBlockByHeight], the promise it returned stays pending for ever,
    and nothing is appended. *)
Theorem addBlock_never_settles_without_last_block w block :
  0 <= height w ->
  (forall r b, In r (chain w) -> objects w !! r = Some b -> BlockClass.height b <> height w) ->
  never_settles w (call (_addBlock SHA256 block) w).
Proof.
  intros Hh Hno. apply addBlock_stuck. unfold last_link.
  rewrite first_block_none.
  - destruct (num_gt (Num (height w)) (Num (-1))) eqn:E; [reflexivity|].
    simpl in E. apply Z.ltb_ge in E. lia.
  - intros r b Hin Hb. apply Z.eqb_neq. apply (Hno r b Hin Hb).
Qed.

End Hazards.

(** ** The clock as text *)

(** *** Strings *)

Lemma string_length_app (s t : string) :
  String.length (s +:+ t) = (String.length s + String.length t)%nat.
Proof. induction s as [|c s IH]; simpl; [reflexivity|]. rewrite IH. reflexivity. Qed.

Lemma substring_prefix (s t : string) : substring 0 (String.length s) (s +:+ t) = s.
Proof.
  induction s as [|c s IH]; simpl.
  - destruct t; reflexivity.
  - rewrite IH. reflexivity.
Qed.

(** [slice(0, -k)] takes off a tail of [k] characters. *)
Lemma slice_0_neg_app (k : nat) (s t : string) :
  String.length t = k -> slice_0_neg k (s +:+ t) = s.
Proof.
  intros H. unfold slice_0_neg. rewrite string_length_app, H.
  replace (String.length s + k - k)%nat with (String.length s) by lia.
  apply substring_prefix.
Qed.

Lemma split_nonempty (sep : ascii) (s : string) : split sep s <> [].
Proof.
  induction s as [|c s IH]; simpl; [discriminate|].
  destruct (Ascii.eqb c sep); [discriminate|]. destruct (split sep s); [contradiction|discriminate].
Qed.

(** The first field of [split]: what stands before the first separator. *)
Lemma split_app (sep : ascii) (a r : string) :
  free_of sep a = true -> split sep (a +:+ String sep r) = a :: split sep r.
Proof.
  induction a as [|c a IH]; intros H; simpl.
  - rewrite Ascii.eqb_refl. reflexivity.
  - simpl in H. apply andb_true_iff in H. destruct H as [Hc Ha].
    apply negb_true_iff in Hc. rewrite Hc, (IH Ha). reflexivity.
Qed.

(** *** Decimal numerals *)

(** The numeral of a positive number as [toString] writes it. *)
Lemma Z_toString_pos (p : positive) :
  Z_toString (Z.pos p) = NilEmpty.string_of_uint (Pos.to_uint p).
Proof.
  unfold Z_toString. cbn [Z.to_int NilZero.string_of_int NilZero.string_of_uint].
  pose proof (DecimalPos.Unsigned.to_uint_nonnil p) as H.
  destruct (Pos.to_uint p); [contradiction|reflexivity..].
Qed.

Lemma string_app_assoc (s t u : string) : (s +:+ t) +:+ u = s +:+ (t +:+ u).
Proof.
  induction s as [|c s IH]; [reflexivity|].
  change (String c ((s +:+ t) +:+ u) = String c (s +:+ (t +:+ u))). rewrite IH. reflexivity.
Qed.

Lemma string_of_revapp (a b : Decimal.uint) :
  NilEmpty.string_of_uint (Decimal.revapp a b) =
  NilEmpty.string_of_uint (Decimal.rev a) +:+ NilEmpty.string_of_uint b.
Proof.
  unfold Decimal.rev. revert b.
  induction a as [|a IH|a IH|a IH|a IH|a IH|a IH|a IH|a IH|a IH|a IH]; intros b;
    cbn [Decimal.revapp]; [reflexivity|..];
    match goal with
    | |- context [Decimal.revapp a (?c b)] =>
        rewrite (IH (c b)), (IH (c Decimal.Nil)), string_app_assoc; reflexivity
    end.
Qed.

(** The little-endian digits of a positive number are in normal form:
    they do not end in a zero. *)
Lemma to_little_uint_of_lu (p : positive) :
  DecimalPos.Unsigned.of_lu (Pos.to_little_uint p) = N.pos p.
Proof.
  rewrite <- DecimalPos.Unsigned.of_lu_rev. apply DecimalPos.Unsigned.of_to.
Qed.

Lemma to_little_uint_normal (p : positive) :
  DecimalFacts.nztail (Pos.to_little_uint p) = Pos.to_little_uint p.
Proof.
  pose proof (DecimalPos.Unsigned.to_of_lu (Pos.to_little_uint p)) as H.
  rewrite to_little_uint_of_lu in H. cbn [DecimalPos.Unsigned.to_lu] in H.
  unfold DecimalFacts.lnorm in H.
  destruct (DecimalFacts.nztail (Pos.to_little_uint p)) eqn:E; try (symmetry; exact H).
  apply DecimalPos.Unsigned.of_lu_0 in E. rewrite to_little_uint_of_lu in E. discriminate.
Qed.

(** Taking off the last digit of a numeral of two digits or more divides
    the number by ten. *)
Lemma numeral_div10 (p : positive) :
  (10 <= N.pos p)%N ->
  exists (q : positive) (c : ascii),
    N.pos q = (N.pos p / 10)%N /\
    NilEmpty.string_of_uint (Pos.to_uint p) =
    NilEmpty.string_of_uint (Pos.to_uint q) +:+ String c "".
Proof.
  intros Hp.
  pose proof (to_little_uint_of_lu p) as Hval.
  pose proof (to_little_uint_normal p) as Hnorm.
  unfold Pos.to_uint at 1.
  destruct (Pos.to_little_uint p) as [|d|d|d|d|d|d|d|d|d|d] eqn:E; [discriminate|..].
  all: cbn [DecimalPos.Unsigned.of_lu] in Hval.
  all: assert (Hd : DecimalFacts.nztail d = d /\ d <> Decimal.Nil)
         by (cbn [DecimalFacts.nztail] in Hnorm;
             destruct d; cbn [DecimalPos.Unsigned.of_lu] in Hval;
             try (exfalso; lia);
             (split; [ first [ congruence
                             | destruct (DecimalFacts.nztail _); congruence ]
                     | discriminate ])).
  all: destruct Hd as [Hdn Hd0].
  all: (destruct (DecimalPos.Unsigned.of_lu d) as [|q] eqn:Eq;
         [ apply DecimalPos.Unsigned.of_lu_0 in Eq; congruence |]).
  all: pose proof (DecimalPos.Unsigned.to_of_lu d) as Hto;
       rewrite Eq in Hto; cbn [DecimalPos.Unsigned.to_lu] in Hto;
       unfold DecimalFacts.lnorm in Hto; rewrite Hdn in Hto;
       assert (Hq : Pos.to_little_uint q = d) by (destruct d; congruence).
  all: (exists q; eexists; split;
         [ apply (N.div_unique _ _ _ (N.pos p - 10 * N.pos q)); lia
         | cbn [Decimal.rev Decimal.revapp]; rewrite string_of_revapp;
           unfold Pos.to_uint; rewrite Hq; reflexivity ]).
Qed.

(** [toString().slice(0, -3)] of a number of milliseconds from 1000 on is
    the numeral of the whole seconds. *)
Lemma seconds_of_millis (z : Z) :
  1000 <= z -> slice_0_neg 3 (Z_toString z) = Z_toString (z / 1000).
Proof.
  intros Hz. destruct z as [|p|p]; try lia.
  destruct (numeral_div10 p) as [q1 [c1 [H1 S1]]]; [lia|].
  assert (L1 : (100 <= N.pos q1)%N).
  { rewrite H1. apply (N.div_le_lower_bound _ 10 100); lia. }
  destruct (numeral_div10 q1) as [q2 [c2 [H2 S2]]]; [lia|].
  assert (L2 : (10 <= N.pos q2)%N).
  { rewrite H2. apply (N.div_le_lower_bound _ 10 10); lia. }
  destruct (numeral_div10 q2) as [q3 [c3 [H3 S3]]]; [lia|].
  assert (Hq : Z.pos p / 1000 = Z.pos q3).
  { change (Z.pos q3) with (Z.of_N (N.pos q3)). rewrite H3, H2, H1.
    rewrite !N.Div0.div_div. change (10 * 10 * 10)%N with 1000%N.
    rewrite N2Z.inj_div. reflexivity. }
  rewrite Hq, !Z_toString_pos, S1, S2, S3, !string_app_assoc.
  apply slice_0_neg_app. reflexivity.
Qed.

(** The digits of a decimal numeral are decimal digits. *)
Lemma digits_of_numeral_acc (d : Decimal.uint) (a : positive) :
  digits 10 (NilEmpty.string_of_uint d) (Some (Z.pos a)) =
  Some (Z.pos (Pos.of_uint_acc d a)).
Proof.
  revert a. induction d as [|d IH|d IH|d IH|d IH|d IH|d IH|d IH|d IH|d IH|d IH]; intros a;
    [reflexivity|..];
    cbn [NilEmpty.string_of_uint digits Pos.of_uint_acc];
    match goal with
    | |- context [digit_val ?c] =>
        let v := eval vm_compute in (digit_val c) in
        change (digit_val c) with v
    end;
    cbv iota beta;
    match goal with
    | |- context [?k <? 10] => change (k <? 10) with true
    end;
    cbv iota; rewrite <- IH; f_equal; f_equal; lia.
Qed.

Lemma digits_of_numeral_zero (d : Decimal.uint) :
  digits 10 (NilEmpty.string_of_uint d) (Some 0) = Some (Z.of_N (Pos.of_uint d)).
Proof.
  induction d as [|d IH|d IH|d IH|d IH|d IH|d IH|d IH|d IH|d IH|d IH];
    [reflexivity|..];
    cbn [NilEmpty.string_of_uint digits Pos.of_uint];
    match goal with
    | |- context [digit_val ?c] =>
        let v := eval vm_compute in (digit_val c) in
        change (digit_val c) with v
    end;
    cbv iota beta;
    match goal with
    | |- context [?k <? 10] => change (k <? 10) with true
    end;
    cbv iota;
    first [ exact IH | apply digits_of_numeral_acc ].
Qed.

Lemma digits_of_numeral (d : Decimal.uint) :
  d <> Decimal.Nil ->
  digits 10 (NilEmpty.string_of_uint d) None = Some (Z.of_N (Pos.of_uint d)).
Proof.
  destruct d as [|d|d|d|d|d|d|d|d|d|d]; intros H; [contradiction|..];
    cbn [NilEmpty.string_of_uint digits Pos.of_uint];
    match goal with
    | |- context [digit_val ?c] =>
        let v := eval vm_compute in (digit_val c) in
        change (digit_val c) with v
    end;
    cbv iota beta;
    match goal with
    | |- context [?k <? 10] => change (k <? 10) with true
    end;
    cbv iota;
    first [ apply digits_of_numeral_zero | apply digits_of_numeral_acc ].
Qed.

(** [parseInt] on a numeral: no white space to skip, no sign, no [0x]. *)
Lemma parseInt_numeral (d : Decimal.uint) :
  d <> Decimal.Nil ->
  parseInt (NilEmpty.string_of_uint d) =
  match digits 10 (NilEmpty.string_of_uint d) None with
  | None => NaN
  | Some n => Num (1 * n)
  end.
Proof.
  destruct d as [|d|d|d|d|d|d|d|d|d|d]; intros H; [contradiction|..];
    destruct d; reflexivity.
Qed.

(** [parseInt] reads back what [toString] wrote. *)
Lemma parseInt_Z_toString (z : Z) : 0 <= z -> parseInt (Z_toString z) = Num z.
Proof.
  intros Hz. destruct z as [|p|p]; [reflexivity| |lia].
  pose proof (DecimalPos.Unsigned.to_uint_nonnil p) as Hn.
  rewrite Z_toString_pos, (parseInt_numeral _ Hn), (digits_of_numeral _ Hn).
  rewrite DecimalPos.Unsigned.of_to. reflexivity.
Qed.

Lemma numeral_free_of_colon (d : Decimal.uint) :
  free_of ":" (NilEmpty.string_of_uint d) = true.
Proof. induction d; simpl; [reflexivity|assumption..]. Qed.

Lemma Z_toString_free_of_colon (z : Z) : free_of ":" (Z_toString z) = true.
Proof.
  destruct z as [|p|p]; [reflexivity|..].
  - rewrite Z_toString_pos. apply numeral_free_of_colon.
  - change (Z_toString (Z.neg p)) with (String "-" (Z_toString (Z.pos p))).
    rewrite Z_toString_pos. cbn [free_of].
    rewrite numeral_free_of_colon. reflexivity.
Qed.
(** ** The challenge message and its five minutes *)

(** The seconds [submitStar] reads from the clock. *)
Lemma seconds_text_numeral w :
  1000 <= now w -> seconds_text w = Z_toString (now w / 1000).
Proof. intros H. unfold seconds_text. apply seconds_of_millis. exact H. Qed.

Lemma parseInt_seconds_text w :
  1000 <= now w -> parseInt (seconds_text w) = Num (now w / 1000).
Proof.
  intros H. rewrite (seconds_text_numeral w H). apply parseInt_Z_toString.
  apply Z.div_pos; lia.
Qed.

(** X14. [_getCurrentTimeStamp()] returns the decimal numeral of the whole
    seconds of the clock (milliseconds divided by 1000, rounded down), once
    the clock shows 1000 ms or more, and [parseInt] reads that number back
    from it; nothing changes. *)
Theorem getCurrentTimeStamp_is_whole_seconds w :
  1000 <= now w ->
  call _getCurrentTimeStamp w = (start w, Normal (VStr (Z_toString (now w / 1000)))) /\
  parseInt (Z_toString (now w / 1000)) = Num (now w / 1000).
Proof.
  intros H. split.
  - unfold call, _getCurrentTimeStamp. cbn [exec mworld start].
    rewrite (seconds_of_millis _ H). reflexivity.
  - apply parseInt_Z_toString. apply Z.div_pos; lia.
Qed.

(** The time field of a message made of an address without colon, a colon,
    the seconds of the clock, and the rest. *)
Lemma time_field_of_request address w0 :
  free_of ":" address = true -> 1000 <= now w0 ->
  split ":" (address +:+ ":" +:+ seconds_text w0 +:+ ":starRegistry") !! 1%nat =
  Some (seconds_text w0).
Proof.
  intros Ha H0.
  change (address +:+ ":" +:+ seconds_text w0 +:+ ":starRegistry")
    with (address +:+ String ":" (seconds_text w0 +:+ String ":" "starRegistry")).
  rewrite (split_app ":" address _ Ha).
  rewrite split_app; [reflexivity|].
  rewrite (seconds_text_numeral w0 H0). apply Z_toString_free_of_colon.
Qed.

(** The time test of [submitStar] on a message requested at [w0]. *)
Lemma in_time_of_request address w0 w1 :
  free_of ":" address = true -> 1000 <= now w0 -> 1000 <= now w1 ->
  in_time w1 (address +:+ ":" +:+ seconds_text w0 +:+ ":starRegistry") =
  (now w1 / 1000 - now w0 / 1000 <=? 300).
Proof.
  intros Ha H0 H1. unfold in_time.
  rewrite (time_field_of_request address w0 Ha H0). cbn [parseInt_opt].
  rewrite (parseInt_seconds_text w0 H0), (parseInt_seconds_text w1 H1). reflexivity.
Qed.

Section Challenge.

Variable SHA256 : string -> string.
Variable bitcoinMessage_verify : string -> string -> string -> option bool.

(** X15. [requestMessageOwnershipVerification(address)] is fulfilled, when
    the call returns, with the text [address:seconds:starRegistry], where
    [seconds] is the numeral of the whole seconds of the clock; it never
    rejects and changes nothing. *)
Theorem requestMessage_gives_address_seconds_starRegistry address w :
  1000 <= now w ->
  snd (call (requestMessageOwnershipVerification address) w) = Normal (VPromise 0%nat) /\
  forall n,
    fulfilled 0 (VStr (address +:+ ":" +:+ Z_toString (now w / 1000) +:+ ":starRegistry"))
      (drain n (fst (call (requestMessageOwnershipVerification address) w))) /\
    mworld (drain n (fst (call (requestMessageOwnershipVerification address) w))) = w.
Proof.
  intros H. unfold call, start, requestMessageOwnershipVerification. mrun.
  split; [reflexivity|]. intros n. rewrite drain_idle by reflexivity.
  rewrite (seconds_text_numeral w H). split; reflexivity.
Qed.

(** X16. The five minutes of a challenge are counted in whole seconds of
    the clock.  For an address without colon, the message requested when
    the clock shows [now w0] is accepted by [submitStar] when the clock
    shows [now w1] if the whole seconds differ by at most 300 (a message
    from the future is accepted as well): with a signature the library
    accepts, [submitStar] appends its block to an intact ledger and fulfils
    its promise with it. *)
Theorem challenge_accepted_within_300_seconds address signature star w0 w1 :
  free_of ":" address = true ->
  1000 <= now w0 -> 1000 <= now w1 ->
  now w1 / 1000 - now w0 / 1000 <= 300 ->
  bitcoinMessage_verify
    (address +:+ ":" +:+ Z_toString (now w0 / 1000) +:+ ":starRegistry")
    address signature = Some true ->
  intact SHA256 w1 ->
  exists n,
    jobs (drain n (fst (call (submitStar SHA256 bitcoinMessage_verify address
                                (address +:+ ":" +:+ Z_toString (now w0 / 1000)
                                   +:+ ":starRegistry")
                                signature star) w1))) = [] /\
    fulfilled 6 (VBlock (length (objects w1)))
      (drain n (fst (call (submitStar SHA256 bitcoinMessage_verify address
                             (address +:+ ":" +:+ Z_toString (now w0 / 1000)
                                +:+ ":starRegistry")
                             signature star) w1))) /\
    chain (mworld (drain n (fst (call (submitStar SHA256 bitcoinMessage_verify address
                                         (address +:+ ":" +:+ Z_toString (now w0 / 1000)
                                            +:+ ":starRegistry")
                                         signature star) w1)))) =
      chain w1 ++ [length (objects w1)] /\
    height (mworld (drain n (fst (call (submitStar SHA256 bitcoinMessage_verify address
                                          (address +:+ ":" +:+ Z_toString (now w0 / 1000)
                                             +:+ ":starRegistry")
                                          signature star) w1)))) =
      height w1 + 1.
Proof.
  intros Ha H0 H1 Hle Hv Hi.
  pose proof (in_time_of_request address w0 w1 Ha H0 H1) as Hin.
  rewrite (seconds_text_numeral w0 H0) in Hin.
  assert (Ht : in_time w1 (address +:+ ":" +:+ Z_toString (now w0 / 1000)
                             +:+ ":starRegistry") = true)
    by (rewrite Hin; apply Z.leb_le; exact Hle).
  set (b0 := BlockClass.make (JObj [("star", star); ("owner", JStr address)])).
  destruct (intact_last_link SHA256 _ (intact_new_object SHA256 w1 b0 Hi)) as [link Hlink].
  destruct (submitStar_run SHA256 bitcoinMessage_verify address _ signature star
              w1 link Ht Hv Hlink) as [n [Hj [Hf Hw]]].
  exists n. split; [exact Hj|]. split; [exact Hf|]. rewrite Hw. split; reflexivity.
Qed.

(** X17. And it is refused, without any answer, when the whole seconds
    differ by more than 300: the promise of [submitStar] then never
    settles and the ledger stays as it is, whatever the signature. *)
Theorem challenge_ignored_after_300_seconds address signature star w0 w1 :
  free_of ":" address = true ->
  1000 <= now w0 -> 1000 <= now w1 ->
  300 < now w1 / 1000 - now w0 / 1000 ->
  never_settles w1
    (call (submitStar SHA256 bitcoinMessage_verify address
             (address +:+ ":" +:+ Z_toString (now w0 / 1000) +:+ ":starRegistry")
             signature star) w1).
Proof.
  intros Ha H0 H1 Hgt.
  pose proof (in_time_of_request address w0 w1 Ha H0 H1) as Hin.
  rewrite (seconds_text_numeral w0 H0) in Hin.
  apply submitStar_late. rewrite Hin. apply Z.leb_gt. exact Hgt.
Qed.

End Challenge.

(** ** The body of a new Block *)







(** ** Ledgers built through the classes *)

(** Once the queue is empty the machine is in its final state, whenever
    that was noticed. *)
Lemma idle_unique (m : machine) (n n0 : nat) :
  jobs (drain n m) = [] -> jobs (drain n0 m) = [] -> drain n m = drain n0 m.
Proof.
  intros H H0.
  rewrite <- (drain_settled n (Nat.max n n0) m H) by lia.
  apply (drain_settled n0 (Nat.max n n0) m H0). lia.
Qed.

Lemma intact_at_time (SHA256 : string -> string) (t : Z) (w : world) :
  intact SHA256 w -> intact SHA256 (at_time t w).
Proof. intros H. exact H. Qed.

Lemma intact_set_arrays (SHA256 : string -> string) (a : list (list value)) (w : world) :
  intact SHA256 w -> intact SHA256 (set_arrays a w).
Proof. intros H. exact H. Qed.

Section Built.

Variable SHA256 : string -> string.
Variable bitcoinMessage_verify : string -> string -> string -> option bool.

(** X19. [validateChain] does not see the collision of a block appended in
    the turn of [new Blockchain()] with the genesis block: on the ledger
    the two calls leave (two blocks of height 0, height 1), its error log
    is empty when the queue has run, and stays so. *)
Theorem validateChain_blind_to_collision data w0 :
  let w := mworld (drain 7 (fst (call (append_at_once SHA256 data) w0))) in
  exists n,
    jobs (drain n (fst (call (validateChain SHA256) w))) = [] /\
    forall n', (n <= n')%nat ->
      mworld (drain n' (fst (call (validateChain SHA256) w))) =
      set_arrays (arrays w ++ [[]]) w.
Proof.
  cbv zeta. rewrite append_at_once_run. cbn [mworld].
  set (w := mkWorld _ _ _ _ _ _).
  destruct (validateChain_run SHA256 w) as [_ [_ [_ [n [Hidle Hw]]]]].
  exists n. split; [exact Hidle|]. intros n' Hle.
  rewrite (idle_forever _ n Hidle n' Hle), Hw.
  assert (Hf : findings SHA256 w = []).
  { unfold findings, finding, examine. subst w. cbn [chain objects flat_map].
    rewrite lookup_app_len, lookup_app_add. cbn [lookup list_lookup].
    unfold genesis_at.
    change (BlockClass.height (seal SHA256 ?b) =? 0) with true. cbv iota.
    rewrite !valid_seal by reflexivity. reflexivity. }
  rewrite Hf. reflexivity.
Qed.

(** X20. Every ledger built by [new Blockchain()], accepted [submitStar]
    calls and [validateChain] calls, each allowed to run until the queue is
    empty, at whatever times of the clock, is intact: it is well formed,
    every block answers true to [validate] and carries the hash of the
    block before it. *)
Theorem built_ledgers_are_intact w :
  built SHA256 bitcoinMessage_verify w -> intact SHA256 w.
Proof.
  induction 1 as [w0|w t Hb IH|w address message signature star n Hb IH Ht Hv Hidle
                 |w n Hb IH Hidle].
  - rewrite new_Blockchain_run. apply genesis_ledger_intact.
  - apply intact_at_time. exact IH.
  - set (b0 := BlockClass.make (JObj [("star", star); ("owner", JStr address)])).
    destruct (intact_last_link SHA256 _ (intact_new_object SHA256 w b0 IH)) as [link Hlink].
    destruct (submitStar_run SHA256 bitcoinMessage_verify address message signature star
                w link Ht Hv Hlink) as [n0 [Hj [_ Hw]]].
    destruct (star_appended_intact SHA256 w b0 link IH eq_refl Hlink) as [Hfinal Hi'].
    rewrite (idle_unique _ n n0 Hidle Hj), Hw. subst b0. rewrite Hfinal. exact Hi'.
  - destruct (validateChain_run SHA256 w) as [_ [_ [_ [n0 [Hj Hw]]]]].
    rewrite (idle_unique _ n n0 Hidle Hj), Hw. apply intact_set_arrays. exact IH.
Qed.

(** X21. [submitStar] keeps no record of the messages it has seen: the
    same message with the same signature, submitted again while it still
    passes the time test, appends a second block for the same star.  After
    the two calls the chain is two blocks longer and the height is two
    more. *)
Theorem submitStar_accepts_the_same_message_twice address message signature star w :
  intact SHA256 w ->
  in_time w message = true ->
  bitcoinMessage_verify message address signature = Some true ->
  exists n1 n2,
    let w1 := mworld (drain n1 (fst (call (submitStar SHA256 bitcoinMessage_verify
                                             address message signature star) w))) in
    let m2 := drain n2 (fst (call (submitStar SHA256 bitcoinMessage_verify
                                     address message signature star) w1)) in
    jobs (drain n1 (fst (call (submitStar SHA256 bitcoinMessage_verify
                                 address message signature star) w))) = [] /\
    jobs m2 = [] /\
    fulfilled 6 (VBlock (length (objects w) + 1)) m2 /\
    chain (mworld m2) = chain w ++ [length (objects w); (length (objects w) + 1)%nat] /\
    height (mworld m2) = height w + 2 /\
    (forall r b, (r = length (objects w) \/ r = (length (objects w) + 1)%nat) ->
       objects (mworld m2) !! r = Some b ->
       BlockClass.body b =
       hex_encode (JSON_stringify (JObj [("star", star); ("owner", JStr address)]))).
Proof.
  intros Hi Ht Hv.
  set (b0 := BlockClass.make (JObj [("star", star); ("owner", JStr address)])).
  destruct (intact_last_link SHA256 _ (intact_new_object SHA256 w b0 Hi)) as [link Hlink].
  destruct (submitStar_run SHA256 bitcoinMessage_verify address message signature star
              w link Ht Hv Hlink) as [n1 [Hj1 [_ Hw1]]].
  destruct (star_appended_intact SHA256 w b0 link Hi eq_refl Hlink) as [Hfinal1 Hi1].
  cbv zeta in Hfinal1, Hi1. fold b0 in Hw1. rewrite Hfinal1 in Hw1.
  set (w1 := mkWorld _ _ _ _ _ _) in Hw1, Hi1.
  assert (Ht1 : in_time w1 message = true) by exact Ht.
  destruct (intact_last_link SHA256 _ (intact_new_object SHA256 w1 b0 Hi1)) as [link1 Hlink1].
  destruct (submitStar_run SHA256 bitcoinMessage_verify address message signature star
              w1 link1 Ht1 Hv Hlink1) as [n2 [Hj2 [Hf2 Hw2]]].
  destruct (star_appended_intact SHA256 w1 b0 link1 Hi1 eq_refl Hlink1) as [Hfinal2 _].
  cbv zeta in Hfinal2. fold b0 in Hw2. rewrite Hfinal2 in Hw2.
  exists n1, n2. cbv zeta. rewrite Hw1.
  split; [exact Hj1|]. split; [exact Hj2|].
  rewrite Hw2. subst w1. cbn [objects chain height length] in *.
  rewrite length_app in Hf2. cbn [length] in Hf2.
  split; [exact Hf2|].
  split; [rewrite <- app_assoc, length_app; reflexivity|]. split; [lia|].
  intros r b [->| ->] Hb.
  - rewrite <- app_assoc, lookup_app_len in Hb. inversion Hb. destruct link; reflexivity.
  - rewrite <- app_assoc, lookup_app_add in Hb. inversion Hb. destruct link1; reflexivity.
Qed.

End Built.

(** ** The owner scan in a scope that declares obj *)

Lemma layout_promises_app n es1 es2 :
  layout_promises n (es1 ++ es2) =
  layout_promises n es1 ++ layout_promises (n + length (layout_promises n es1)) es2.
Proof.
  revert n. induction es1 as [|[st|o k f res] t IH]; intros n; simpl.
  - rewrite Nat.add_0_r. reflexivity.
  - rewrite IH, <- Nat.add_assoc. reflexivity.
  - rewrite IH, <- Nat.add_assoc. reflexivity.
Qed.

Lemma layout_jobs_app n es1 es2 :
  layout_jobs n (es1 ++ es2) =
  layout_jobs n es1 ++ layout_jobs (n + length (layout_promises n es1)) es2.
Proof.
  revert n. induction es1 as [|[st|o k f res] t IH]; intros n; simpl.
  - rewrite Nat.add_0_r. reflexivity.
  - rewrite IH, <- Nat.add_assoc. reflexivity.
  - rewrite IH, <- Nat.add_assoc. reflexivity.
Qed.

(** The second phase of the queue for continuations that are described
    rightly once the promise [p] is settled. *)
Lemma resume_phase_settled (p : nat) (P : world -> Prop) (es : list effect) :
  forall ps extra w o0,
    ps !! p = Some (Settled o0) ->
    P w -> Forall (sound_once_settled p P) es ->
    drain (length (resume_jobs (length ps) es))
      (mkMachine w (ps ++ passed_promises (length ps) es)
                   (resume_jobs (length ps) es ++ extra)) =
    mkMachine (final_world es w) (ps ++ finished_promises (length ps) es) extra /\
    P (final_world es w).
Proof.
  induction es as [|[st|o k f res] t IH]; intros ps extra w o0 Hp HP Hs; simpl.
  - split; [reflexivity|exact HP].
  - inversion Hs; subst.
    specialize (IH (ps ++ [st]) extra w o0).
    rewrite length_app, <- !app_assoc in IH. simpl in IH. apply IH; try assumption.
    apply lookup_app_l_Some. exact Hp.
  - inversion Hs as [|? ? Hsd Ht]; subst. destruct Hsd as [Ho [He Hrun]].
    unfold step. cbn [jobs mworld promises run_job].
    destruct (Hrun (Some (length ps)) w
                (ps ++ Pending false [] :: Settled o :: Settled o
                    :: passed_promises (length ps + 3) t)
                (resume_jobs (length ps + 3) t ++ extra) o0
                (lookup_app_l_Some _ _ _ _ Hp) HP) as [Hex HP'].
    rewrite Hex.
    specialize (IH (ps ++ [final_state res; Settled o; Settled o]) extra (f w) o0
                  (lookup_app_l_Some _ _ _ _ Hp) HP' Ht).
    rewrite length_app, <- !app_assoc in IH. simpl in IH.
    destruct IH as [IH1 IH2]. split; [|exact IH2].
    rewrite <- IH1. f_equal.
    destruct res as [v|e|]; [| |contradiction]; cbn [finish final_state].
    + unfold resolve_promise. cbn [promises]. rewrite lookup_app_len. cbn [lookup list_lookup].
      destruct v; try contradiction;
        unfold settle, enqueue, set_promises; cbn [promises mworld jobs map reaction_job];
        rewrite insert_app_len, app_nil_r; reflexivity.
    + unfold reject_promise. cbn [promises]. rewrite lookup_app_len. cbn [lookup list_lookup].
      unfold settle, enqueue, set_promises; cbn [promises mworld jobs map reaction_job];
        rewrite insert_app_len, app_nil_r; reflexivity.
Qed.

Section Scan.

Variable hex2ascii : string -> string.
Variable JSON_parse : string -> option json.

Lemma bound_effect_length a p address objs n block m :
  length (layout_promises m (bound_effect hex2ascii JSON_parse a p address objs n block)) = 3%nat.
Proof. unfold bound_effect. destruct (decoded _ _ _ _); reflexivity. Qed.

Lemma obj_after_fields objs block w :
  objects (obj_after hex2ascii JSON_parse objs block w) = objects w /\
  arrays (obj_after hex2ascii JSON_parse objs block w) = arrays w /\
  chain (obj_after hex2ascii JSON_parse objs block w) = chain w /\
  height (obj_after hex2ascii JSON_parse objs block w) = height w /\
  now (obj_after hex2ascii JSON_parse objs block w) = now w /\
  (is_Some (global_obj w) -> is_Some (global_obj (obj_after hex2ascii JSON_parse objs block w))).
Proof.
  unfold obj_after. destruct (decoded _ _ _ _); repeat split; auto; intros _; eexists; reflexivity.
Qed.

(** One callback of the scan, up to its await. *)
Lemma exec_star_callback ctx a p address w ps js block :
  is_Some (global_obj w) ->
  exec ctx (async (let* dp := getBData hex2ascii JSON_parse block in
                   let* data := await dp in
                   let* owner := get_owner data in
                   if is_string owner address
                   then push (VArray a) data
                   else Reject p VUndefined skip))
       (mkMachine w ps js) =
  (mkMachine (obj_after hex2ascii JSON_parse (objects w) block w)
     (ps ++ layout_promises (length ps)
              (bound_effect hex2ascii JSON_parse a p address (objects w) (length ps) block))
     (js ++ layout_jobs (length ps)
              (bound_effect hex2ascii JSON_parse a p address (objects w) (length ps) block)),
   Normal (VPromise (length ps))).
Proof.
  intros [v0 Hg]. unfold getBData, obj_after, bound_effect, decoded. mnorm.
  destruct (objects w !! block) as [b|] eqn:Hb; mnorm; [|reflexivity].
  destruct (JSON_parse (hex2ascii (BlockClass.body b))) as [j|]; mnorm; [|reflexivity].
  rewrite Hg. mnorm. rewrite Hb. mnorm.
  destruct (0 <? BlockClass.height b); mnorm; reflexivity.
Qed.

Lemma scanned_fields l : forall w,
  is_Some (global_obj w) ->
  objects (scanned hex2ascii JSON_parse l w) = objects w /\
  arrays (scanned hex2ascii JSON_parse l w) = arrays w /\
  chain (scanned hex2ascii JSON_parse l w) = chain w /\
  height (scanned hex2ascii JSON_parse l w) = height w /\
  now (scanned hex2ascii JSON_parse l w) = now w.
Proof.
  induction l as [|x t IH]; intros w Hg; [repeat split|].
  cbn [scanned fold_left].
  destruct (obj_after_fields (objects w) x w) as (E1 & E2 & E3 & E4 & E5 & Hg').
  destruct (IH (obj_after hex2ascii JSON_parse (objects w) x w) (Hg' Hg))
    as (F1 & F2 & F3 & F4 & F5).
  unfold scanned in *. rewrite F1, F2, F3, F4, F5. repeat split; assumption.
Qed.

(** [forEach] over the callbacks of the scan. *)
Lemma exec_forEach_scan ctx a p address l : forall w ps js,
  is_Some (global_obj w) ->
  exec ctx (forEach l (fun block =>
              async (let* dp := getBData hex2ascii JSON_parse block in
                     let* data := await dp in
                     let* owner := get_owner data in
                     if is_string owner address
                     then push (VArray a) data
                     else Reject p VUndefined skip)))
       (mkMachine w ps js) =
  (mkMachine (scanned hex2ascii JSON_parse l w)
     (ps ++ layout_promises (length ps)
              (bound_effects hex2ascii JSON_parse a p address (objects w) (length ps) l))
     (js ++ layout_jobs (length ps)
              (bound_effects hex2ascii JSON_parse a p address (objects w) (length ps) l)),
   Normal VUndefined).
Proof.
  induction l as [|x t IH]; intros w ps js Hg.
  - simpl. rewrite !app_nil_r. reflexivity.
  - cbn [forEach].
    erewrite exec_bind_normal by (apply exec_star_callback; exact Hg).
    destruct (obj_after_fields (objects w) x w) as (E1 & _ & _ & _ & _ & Hg').
    rewrite IH by (apply Hg'; exact Hg).
    rewrite E1. cbn [bound_effects scanned fold_left].
    rewrite layout_promises_app, layout_jobs_app.
    rewrite !length_app, !bound_effect_length, <- !app_assoc. reflexivity.
Qed.

Lemma bound_effects_plain a p address objs l : forall n,
  Forall plain_effect (bound_effects hex2ascii JSON_parse a p address objs n l).
Proof.
  induction l as [|x t IH]; intros n; [constructor|].
  cbn [bound_effects]. apply Forall_app. split; [|apply IH].
  unfold bound_effect. destruct (decoded _ _ _ _); repeat constructor.
Qed.

(** The rest of a callback whose data arrived. *)
Lemma exec_star_kont ctx a p address j w ps js o0 :
  ps !! p = Some (Settled o0) -> has_array a w ->
  exec ctx (star_kont (VArray a) p address (VData j)) (mkMachine w ps js) =
    (mkMachine (star_step a address j w) ps js, star_end j) /\
  has_array a (star_step a address j w).
Proof.
  intros Hp [l0 Ha]. unfold star_kont, star_step, star_end, owned_by, get_owner.
  assert (Hno : exec ctx (Reject p VUndefined skip) (mkMachine w ps js) =
                (mkMachine w ps js, Normal VUndefined) /\ has_array a w).
  { cbn [exec skip]. unfold reject_promise. cbn [promises]. rewrite Hp.
    split; [reflexivity|exists l0; exact Ha]. }
  assert (Hyes : exec ctx (push (VArray a) (VData j)) (mkMachine w ps js) =
                 (mkMachine (log a (VData j) w) ps js, Normal VUndefined) /\
                 has_array a (log a (VData j) w)).
  { unfold log. cbn [push exec mworld]. rewrite Ha.
    cbn [exec skip set_mworld mworld promises jobs]. split; [reflexivity|].
    unfold has_array. cbn [arrays set_arrays].
    rewrite list_lookup_insert_eq by (apply lookup_lt_Some in Ha; exact Ha).
    eexists; reflexivity. }
  destruct j as [|b|z|s|l|kv]; cbn [bind exec is_string]; try exact Hno.
  - split; [reflexivity|exists l0; exact Ha].
  - destruct (assoc_last "owner" kv) as [[|b|z|s|l|kv']|];
      cbn [bind exec is_string]; try exact Hno.
    destruct (String.eqb s address); [exact Hyes|exact Hno].
Qed.

Lemma bound_effects_sound a p address objs l : forall n,
  Forall (sound_once_settled p (has_array a))
         (bound_effects hex2ascii JSON_parse a p address objs n l).
Proof.
  induction l as [|x t IH]; intros n; [constructor|].
  cbn [bound_effects]. apply Forall_app. split; [|apply IH].
  unfold bound_effect. destruct (decoded _ _ _ _) as [e|j|j].
  - constructor; [|constructor]. split; [exact I|]. split; [exact I|].
    intros ctx w ps js o0 _ Ha. split; [reflexivity|exact Ha].
  - repeat constructor.
  - constructor; [|constructor]. split; [exact I|]. split; [destruct j; exact I|].
    intros ctx w ps js o0 Hp Ha. apply (exec_star_kont ctx a p address j w ps js o0 Hp Ha).
Qed.

Lemma final_world_app es1 es2 : forall w,
  final_world (es1 ++ es2) w = final_world es2 (final_world es1 w).
Proof.
  induction es1 as [|[st|o k f res] t IH]; intros w; simpl; [reflexivity|apply IH|apply IH].
Qed.

Lemma set_arrays_same w : set_arrays (arrays w) w = w.
Proof. destruct w; reflexivity. Qed.

(** What the continuations leave in the array, in the order of the
    blocks. *)
Lemma final_world_bound a p address w0 l : forall n w l0,
  arrays w !! a = Some l0 ->
  final_world (bound_effects hex2ascii JSON_parse a p address (objects w0) n l) w =
  set_arrays (<[a := l0 ++ flat_map (star_of hex2ascii JSON_parse address w0) l]> (arrays w)) w.
Proof.
  induction l as [|x t IH]; intros n w l0 Ha.
  - simpl. rewrite app_nil_r, list_insert_id by exact Ha. symmetry. apply set_arrays_same.
  - cbn [bound_effects flat_map]. rewrite final_world_app.
    unfold bound_effect, star_of at 1.
    destruct (decoded hex2ascii JSON_parse (objects w0) x) as [e|j|j];
      cbn [final_world app]; try (apply IH; exact Ha).
    unfold star_step. destruct (owned_by address j); [|apply IH; exact Ha].
    unfold log. rewrite Ha.
    assert (Hlt : (a < length (arrays w))%nat) by (apply lookup_lt_Some in Ha; exact Ha).
    rewrite (IH _ _ (l0 ++ [VData j]))
      by (cbn [arrays set_arrays]; apply list_lookup_insert_eq; exact Hlt).
    cbn [arrays set_arrays]. rewrite list_insert_insert_eq, <- app_assoc.
    destruct w; reflexivity.
Qed.

(** The whole run of the scan. *)
Lemma getStars_run w address v0 :
  global_obj w = Some v0 ->
  snd (call (getStarsByWalletAddress hex2ascii JSON_parse address) w) =
    Normal (VPromise 0%nat) /\
  fulfilled 0 (VArray (length (arrays w)))
    (fst (call (getStarsByWalletAddress hex2ascii JSON_parse address) w)) /\
  arrays (mworld (fst (call (getStarsByWalletAddress hex2ascii JSON_parse address) w)))
    !! length (arrays w) = Some [] /\
  exists n wf ps,
    drain n (fst (call (getStarsByWalletAddress hex2ascii JSON_parse address) w)) =
      mkMachine wf (Settled (Fulfil (VArray (length (arrays w)))) :: ps) [] /\
    arrays wf = arrays w ++ [stars_of hex2ascii JSON_parse address w] /\
    objects wf = objects w /\ chain wf = chain w /\ height wf = height w.
Proof.
  intros Hg. unfold call, start, getStarsByWalletAddress.
  cbn [bind new_array new_Promise exec].
  unfold alloc_promise, set_promises, set_mworld. cbn [promises mworld jobs chain set_arrays].
  set (w1 := set_arrays (arrays w ++ [[]]) w).
  set (a := length (arrays w)).
  assert (Hg1 : is_Some (global_obj w1)) by (exists v0; exact Hg).
  erewrite exec_bind_normal by (apply exec_forEach_scan; exact Hg1).
  cbn [length app].
  set (es := bound_effects hex2ascii JSON_parse a 0 address (objects w1) 1 (chain w)).
  set (w2 := scanned hex2ascii JSON_parse (chain w) w1).
  destruct (scanned_fields (chain w) w1 Hg1) as (E1 & E2 & E3 & E4 & _). fold w2 in E1, E2, E3, E4.
  mnorm.
  assert (Ha : arrays w2 !! a = Some []).
  { rewrite E2. subst w1 a. cbn [arrays set_arrays]. rewrite lookup_app_len. reflexivity. }
  split; [reflexivity|]. split; [reflexivity|]. split; [exact Ha|].
  exists (length (layout_jobs 1 es) + length (resume_jobs 1 es))%nat,
         (final_world es w2), (finished_promises 1 es).
  split.
  { rewrite drain_plus.
    pose proof (pass_phase es [Settled (Fulfil (VArray a))] [] w2
                  (bound_effects_plain _ _ _ _ _ _)) as Hp.
    cbn [length app] in Hp. rewrite app_nil_r in Hp. rewrite Hp. clear Hp.
    destruct (resume_phase_settled 0 (has_array a) es [Settled (Fulfil (VArray a))] [] w2
                (Fulfil (VArray a)) eq_refl (ex_intro _ _ Ha)
                (bound_effects_sound _ _ _ _ _ _)) as [Hr _].
    cbn [length app] in Hr. rewrite app_nil_r in Hr. exact Hr. }
  subst es. rewrite (final_world_bound a 0 address w1 (chain w) _ w2 [] Ha).
  cbn [arrays objects chain height set_arrays app].
  rewrite E1, E2, E3, E4. subst w1 a. cbn [arrays objects chain height set_arrays].
  rewrite insert_app_len. repeat split; reflexivity.
Qed.

(** X23. [getStarsByWalletAddress] in a scope that declares [obj], on any
    ledger and for any address and decoders.  The promise is fulfilled
    when the call returns, with a new array that is still empty; the
    array is filled afterwards.  Once the queue has run it holds the
    decoded data of the blocks of the chain above height 0 whose [owner]
    is the address, in the order of the chain; the blocks, the chain and
    the height are as before. *)
Theorem getStars_fills_array_after_answering w address v0 :
  global_obj w = Some v0 ->
  snd (call (getStarsByWalletAddress hex2ascii JSON_parse address) w) =
    Normal (VPromise 0%nat) /\
  fulfilled 0 (VArray (length (arrays w)))
    (fst (call (getStarsByWalletAddress hex2ascii JSON_parse address) w)) /\
  arrays (mworld (fst (call (getStarsByWalletAddress hex2ascii JSON_parse address) w)))
    !! length (arrays w) = Some [] /\
  exists n,
    jobs (drain n (fst (call (getStarsByWalletAddress hex2ascii JSON_parse address) w))) = [] /\
    forall n', (n <= n')%nat ->
      fulfilled 0 (VArray (length (arrays w)))
        (drain n' (fst (call (getStarsByWalletAddress hex2ascii JSON_parse address) w))) /\
      arrays (mworld (drain n' (fst (call (getStarsByWalletAddress hex2ascii JSON_parse
                                             address) w)))) =
        arrays w ++ [stars_of hex2ascii JSON_parse address w] /\
      objects (mworld (drain n' (fst (call (getStarsByWalletAddress hex2ascii JSON_parse
                                              address) w)))) = objects w /\
      chain (mworld (drain n' (fst (call (getStarsByWalletAddress hex2ascii JSON_parse
                                            address) w)))) = chain w /\
      height (mworld (drain n' (fst (call (getStarsByWalletAddress hex2ascii JSON_parse
                                             address) w)))) = height w.
Proof.
  intros Hg.
  destruct (getStars_run w address v0 Hg) as (H1 & H2 & H3 & n & wf & ps & Hrun & F1 & F2 & F3 & F4).
  split; [exact H1|]. split; [exact H2|]. split; [exact H3|].
  exists n. split; [rewrite Hrun; reflexivity|].
  intros n' Hle. rewrite (idle_forever _ _ (f_equal jobs Hrun) n' Hle), Hrun.
  cbn [mworld]. repeat split; assumption.
Qed.

Lemma flat_map_agree {A B : Type} (f g : A -> list B) (l : list A) :
  (forall x, In x l -> f x = g x) -> flat_map f l = flat_map g l.
Proof.
  induction l as [|x t IH]; intros H; [reflexivity|]. simpl.
  rewrite (H x (or_introl eq_refl)), IH; [reflexivity|].
  intros y Hy. apply H. right. exact Hy.
Qed.

(** A block appended to a well formed ledger, with data of [address] that
    the decoders read, is listed after the ones listed before. *)
Lemma stars_of_appended address w b j ars h g t :
  well_formed w ->
  JSON_parse (hex2ascii (BlockClass.body b)) = Some j ->
  0 < BlockClass.height b ->
  owned_by address j = true ->
  stars_of hex2ascii JSON_parse address
    (mkWorld (objects w ++ [b]) ars (chain w ++ [length (objects w)]) h g t) =
  stars_of hex2ascii JSON_parse address w ++ [VData j].
Proof.
  intros Hwf Hj Hh Ho. unfold stars_of. cbn [chain]. rewrite flat_map_app. f_equal.
  - apply flat_map_agree. intros r Hin.
    apply list_elem_of_In, list_elem_of_lookup in Hin. destruct Hin as [i Hin].
    pose proof (well_formed_ref w i r Hwf Hin) as Hlt.
    unfold star_of, decoded. cbn [objects]. rewrite lookup_app_l by exact Hlt. reflexivity.
  - cbn [flat_map]. rewrite app_nil_r. unfold star_of, decoded. cbn [objects].
    rewrite lookup_app_len. cbn [lookup list_lookup]. rewrite Hj.
    destruct (0 <? BlockClass.height b) eqn:E; [|apply Z.ltb_ge in E; lia].
    rewrite Ho. reflexivity.
Qed.

End Scan.

Lemma intact_set_global_obj (SHA256 : string -> string) (v : option value) (w : world) :
  intact SHA256 w -> intact SHA256 (set_global_obj v w).
Proof. intros H. exact H. Qed.

(** ** A star submitted, then looked up *)

Section RoundTrip.

Variable SHA256 : string -> string.
Variable bitcoinMessage_verify : string -> string -> string -> option bool.
Variable hex2ascii : string -> string.
Variable JSON_parse : string -> option json.

(** X24. On an intact ledger with a genesis block, in a scope that declares
    [obj] and with decoders that read back the encoding of the data
    [{star, owner: address}]: once [submitStar] has accepted the star and
    the queue has run, [getStarsByWalletAddress] for the same address
    leaves in its array what it would have listed before, followed by the
    data of the new star. *)
Theorem submitted_star_is_listed address message signature star w v0 :
  intact SHA256 w -> 0 <= height w -> global_obj w = Some v0 ->
  in_time w message = true ->
  bitcoinMessage_verify message address signature = Some true ->
  JSON_parse (hex2ascii (hex_encode (JSON_stringify
                (JObj [("star", star); ("owner", JStr address)])))) =
    Some (JObj [("star", star); ("owner", JStr address)]) ->
  exists n w',
    jobs (drain n (fst (call (submitStar SHA256 bitcoinMessage_verify
                                address message signature star) w))) = [] /\
    mworld (drain n (fst (call (submitStar SHA256 bitcoinMessage_verify
                                  address message signature star) w))) = w' /\
    exists n2, forall n', (n2 <= n')%nat ->
      arrays (mworld (drain n' (fst (call (getStarsByWalletAddress hex2ascii JSON_parse
                                             address) w')))) =
      arrays w' ++ [stars_of hex2ascii JSON_parse address w ++
                      [VData (JObj [("star", star); ("owner", JStr address)])]].
Proof.
  intros Hi Hh Hg Ht Hv Hcodec.
  set (b0 := BlockClass.make (JObj [("star", star); ("owner", JStr address)])).
  destruct (intact_last_link SHA256 _ (intact_new_object SHA256 w b0 Hi)) as [link Hlink].
  destruct (submitStar_run SHA256 bitcoinMessage_verify address message signature star w link
              Ht Hv Hlink) as [n [Hj [_ Hw]]].
  destruct (star_appended_intact SHA256 w b0 link Hi eq_refl Hlink) as [Hfinal _].
  eexists n, _. split; [exact Hj|]. split; [exact (eq_trans Hw Hfinal)|].
  match goal with |- context [call _ ?x] => set (w' := x) end.
  destruct (getStars_run hex2ascii JSON_parse w' address v0 Hg)
    as (_ & _ & _ & n2 & wf & ps & Hrun & F1 & _).
  exists n2. intros n' Hle.
  rewrite (idle_forever _ _ (f_equal jobs Hrun) n' Hle), Hrun. cbn [mworld]. rewrite F1.
  f_equal. f_equal. subst w'.
  apply (stars_of_appended hex2ascii JSON_parse address w (sealed SHA256 w link b0)
           (JObj [("star", star); ("owner", JStr address)])).
  - exact (proj1 Hi).
  - destruct link as [h|]; exact Hcodec.
  - destruct link as [h|]; cbn [sealed stamped BlockClass.height BlockClass.set_hash
        BlockClass.set_height]; lia.
  - unfold owned_by. cbn [assoc_last].
    change (String.eqb "star" "owner") with false. cbv iota.
    change (String.eqb "owner" "owner") with true. cbv iota.
    apply String.eqb_refl.
Qed.

End RoundTrip.

(** * The further theorems at work on the sample ledgers *)

(** The sample ledgers are intact, whatever the digest. *)
Lemma ledger0_intact (SHA256 : string -> string) : intact SHA256 (ledger0 SHA256).
Proof.
  split; [split|].
  - reflexivity.
  - intros [|i] r H; inversion H; subst. eexists. split; reflexivity.
  - intros [|i] r b H Hb; inversion H; subst. inversion Hb; subst b.
    split; [apply valid_seal; reflexivity|exact I].
Qed.

Lemma ledger0_with_new_intact (SHA256 : string -> string) :
  intact SHA256 (ledger0_with_new SHA256).
Proof.
  split; [split|].
  - reflexivity.
  - intros [|i] r H; inversion H; subst. eexists. split; reflexivity.
  - intros [|i] r b H Hb; inversion H; subst. inversion Hb; subst b.
    split; [apply valid_seal; reflexivity|exact I].
Qed.

Lemma ledger1_intact (SHA256 : string -> string) : intact SHA256 (ledger1 SHA256).
Proof.
  split; [apply ledger1_well_formed|].
  intros [|[|i]] r b H Hb; inversion H; subst; inversion Hb; subst b.
  - split; [apply valid_seal; reflexivity|exact I].
  - split; [apply valid_seal; reflexivity|].
    exists 0%nat, (genesis_block SHA256). repeat split.
Qed.

(** Appending the new block of the fresh ledger. *)
Lemma addBlock_keeps_ledger_intact_witness :
  exists n link,
    last_link (ledger0_with_new text_digest) = Some link /\
    jobs (drain n (fst (call (_addBlock text_digest 1) (ledger0_with_new text_digest)))) = [] /\
    fulfilled 3 (VBlock 1)
      (drain n (fst (call (_addBlock text_digest 1) (ledger0_with_new text_digest)))) /\
    mworld (drain n (fst (call (_addBlock text_digest 1) (ledger0_with_new text_digest)))) =
      extended (ledger0_with_new text_digest) 1
        (sealed text_digest (ledger0_with_new text_digest) link (BlockClass.make star1)) /\
    intact text_digest
      (extended (ledger0_with_new text_digest) 1
         (sealed text_digest (ledger0_with_new text_digest) link (BlockClass.make star1))).
Proof.
  apply (addBlock_keeps_ledger_intact text_digest (ledger0_with_new text_digest) 1
           (BlockClass.make star1));
    [apply ledger0_with_new_intact|reflexivity| |reflexivity].
  intros [H|[]]. discriminate H.
Defined.

(** [validateChain] on the ledger of one record. *)
Lemma validateChain_silent_on_intact_witness :
  exists n,
    jobs (drain n (fst (call (validateChain text_digest) (ledger1 text_digest)))) = [] /\
    forall n', (n <= n')%nat ->
      mworld (drain n' (fst (call (validateChain text_digest) (ledger1 text_digest)))) =
      set_arrays (arrays (ledger1 text_digest) ++ [[]]) (ledger1 text_digest).
Proof.
  apply (validateChain_silent_on_intact text_digest (ledger1 text_digest)).
  apply ledger1_intact.
Defined.

(** A star of [addr1] submitted to the fresh ledger, with a message of the
    same second. *)
Lemma submitStar_appends_star_witness :
  exists n link,
    last_link (ledger0 text_digest) = Some link /\
    snd (call (submitStar text_digest accept "addr1" "addr1:1700000000:starRegistry" "sig"
                 star_coords) (ledger0 text_digest)) = Normal (VPromise 6%nat) /\
    jobs (drain n (fst (call (submitStar text_digest accept "addr1"
                                "addr1:1700000000:starRegistry" "sig" star_coords)
                             (ledger0 text_digest)))) = [] /\
    fulfilled 6 (VBlock (length (objects (ledger0 text_digest))))
      (drain n (fst (call (submitStar text_digest accept "addr1"
                             "addr1:1700000000:starRegistry" "sig" star_coords)
                          (ledger0 text_digest)))) /\
    mworld (drain n (fst (call (submitStar text_digest accept "addr1"
                                  "addr1:1700000000:starRegistry" "sig" star_coords)
                               (ledger0 text_digest)))) =
      mkWorld (objects (ledger0 text_digest) ++
                 [star_block text_digest (ledger0 text_digest) link "addr1" star_coords])
              (arrays (ledger0 text_digest) ++ [[]])
              (chain (ledger0 text_digest) ++ [length (objects (ledger0 text_digest))])
              (height (ledger0 text_digest) + 1)
              (global_obj (ledger0 text_digest)) (now (ledger0 text_digest)) /\
    intact text_digest
      (mkWorld (objects (ledger0 text_digest) ++
                  [star_block text_digest (ledger0 text_digest) link "addr1" star_coords])
               (arrays (ledger0 text_digest) ++ [[]])
               (chain (ledger0 text_digest) ++ [length (objects (ledger0 text_digest))])
               (height (ledger0 text_digest) + 1)
               (global_obj (ledger0 text_digest)) (now (ledger0 text_digest))).
Proof.
  apply (submitStar_appends_star text_digest accept "addr1" "addr1:1700000000:starRegistry"
           "sig" star_coords (ledger0 text_digest));
    [apply ledger0_intact|reflexivity|reflexivity].
Defined.

(** The block at height 1 of the ledger of one record. *)
Lemma getBlockByHeight_finds_witness :
  exists r b,
    chain (ledger1 text_digest) !! Z.to_nat 1 = Some r /\
    objects (ledger1 text_digest) !! r = Some b /\ BlockClass.height b = 1 /\
    snd (call (getBlockByHeight 1) (ledger1 text_digest)) = Normal (VPromise 1%nat) /\
    forall n, (1 <= n)%nat ->
      fulfilled 1 (VBlock r) (drain n (fst (call (getBlockByHeight 1) (ledger1 text_digest)))) /\
      mworld (drain n (fst (call (getBlockByHeight 1) (ledger1 text_digest)))) =
        ledger1 text_digest.
Proof.
  apply (getBlockByHeight_finds (ledger1 text_digest) 1);
    [apply ledger1_well_formed|cbn [height ledger1]; lia].
Defined.

(** The block with the hash of the record, in the ledger of one record. *)
Lemma getBlockByHash_finds_first_witness :
  exists i r b,
    chain (ledger1 text_digest) !! i = Some r /\
    objects (ledger1 text_digest) !! r = Some b /\
    BlockClass.hash b = Some (hash_text (record_block text_digest)) /\
    (forall j r' b', (j < i)%nat -> chain (ledger1 text_digest) !! j = Some r' ->
       objects (ledger1 text_digest) !! r' = Some b' ->
       BlockClass.hash b' <> Some (hash_text (record_block text_digest))) /\
    snd (call (getBlockByHash (hash_text (record_block text_digest))) (ledger1 text_digest)) =
      Normal (VPromise 1%nat) /\
    forall n, (1 <= n)%nat ->
      fulfilled 1 (VBlock r)
        (drain n (fst (call (getBlockByHash (hash_text (record_block text_digest)))
                            (ledger1 text_digest)))) /\
      mworld (drain n (fst (call (getBlockByHash (hash_text (record_block text_digest)))
                                 (ledger1 text_digest)))) = ledger1 text_digest.
Proof.
  apply (getBlockByHash_finds_first (ledger1 text_digest)
           (hash_text (record_block text_digest))).
  exists 1%nat, (record_block text_digest).
  split; [right; left; reflexivity|]. split; reflexivity.
Defined.

(** Appending the new block of the fresh ledger, then asking for height 1. *)
Lemma addBlock_then_getBlockByHeight_witness :
  exists n,
    jobs (drain n (fst (call (_addBlock text_digest 1) (ledger0_with_new text_digest)))) = [] /\
    let w' := mworld (drain n (fst (call (_addBlock text_digest 1)
                                        (ledger0_with_new text_digest)))) in
    height w' = height (ledger0_with_new text_digest) + 1 /\
    snd (call (getBlockByHeight (height w')) w') = Normal (VPromise 1%nat) /\
    forall k, (1 <= k)%nat ->
      fulfilled 1 (VBlock 1) (drain k (fst (call (getBlockByHeight (height w')) w'))) /\
      mworld (drain k (fst (call (getBlockByHeight (height w')) w'))) = w'.
Proof.
  apply (addBlock_then_getBlockByHeight text_digest (ledger0_with_new text_digest) 1
           (BlockClass.make star1));
    [apply ledger0_with_new_intact|reflexivity| |reflexivity].
  intros [H|[]]. discriminate H.
Defined.

(** The record of the ledger of one record, its body overwritten with the
    text of another star. *)
Lemma validateChain_reports_overwritten_body_witness :
  arrays (mworld (fst (call (validateChain text_digest)
                         (tamper 1 (set_body (hex_encode (JSON_stringify forged)))
                            (ledger1 text_digest)))))
    !! length (arrays (ledger1 text_digest)) = Some [] /\
  exists n,
    jobs (drain n (fst (call (validateChain text_digest)
                          (tamper 1 (set_body (hex_encode (JSON_stringify forged)))
                             (ledger1 text_digest))))) = [] /\
    forall n', (n <= n')%nat ->
      mworld (drain n' (fst (call (validateChain text_digest)
                              (tamper 1 (set_body (hex_encode (JSON_stringify forged)))
                                 (ledger1 text_digest))))) =
      set_arrays (arrays (ledger1 text_digest) ++ [[VStr (complaint 1)]])
        (tamper 1 (set_body (hex_encode (JSON_stringify forged))) (ledger1 text_digest)).
Proof.
  apply (validateChain_reports_overwritten_body text_digest (ledger1 text_digest) 1 1
           (record_block text_digest) (hex_encode (JSON_stringify forged)));
    [apply ledger1_intact|reflexivity|reflexivity|].
  intros H. vm_compute in H. discriminate H.
Defined.


(** The genesis block of the ledger of one record, with decoders at work. *)
Lemma getBData_never_answers_for_genesis_witness :
  exists q,
    snd (call (getBData hex_decode sample_parse 0) (ledger1 text_digest)) =
      Normal (VPromise q) /\
    forall n v,
      ~ fulfilled q v (drain n (fst (call (getBData hex_decode sample_parse 0)
                                       (ledger1 text_digest)))).
Proof.
  apply (getBData_never_answers_for_genesis hex_decode sample_parse (ledger1 text_digest) 0
           (genesis_block text_digest)); [reflexivity|].
  cbn [BlockClass.height genesis_block seal BlockClass.set_hash BlockClass.set_timeStamp
       BlockClass.make]. lia.
Defined.

(** The record of the ledger of one record, in a scope that declares
    [obj]. *)
Lemma getBData_decodes_with_binding_witness :
  snd (call (getBData hex_decode sample_parse 1)
         (set_global_obj (Some VUndefined) (ledger1 text_digest))) = Normal (VPromise 1%nat) /\
  forall n, (1 <= n)%nat ->
    fulfilled 1 (VData star1)
      (drain n (fst (call (getBData hex_decode sample_parse 1)
                       (set_global_obj (Some VUndefined) (ledger1 text_digest))))) /\
    mworld (drain n (fst (call (getBData hex_decode sample_parse 1)
                            (set_global_obj (Some VUndefined) (ledger1 text_digest))))) =
      set_global_obj (Some (VData star1))
        (set_global_obj (Some VUndefined) (ledger1 text_digest)).
Proof.
  apply (getBData_decodes_with_binding hex_decode sample_parse
           (set_global_obj (Some VUndefined) (ledger1 text_digest)) 1
           (record_block text_digest) VUndefined star1);
    [reflexivity| |reflexivity|vm_compute; reflexivity].
  cbn [BlockClass.height record_block seal BlockClass.set_hash BlockClass.set_timeStamp
       BlockClass.set_height BlockClass.set_previousBlockHash BlockClass.make]. lia.
Defined.

(** Appending to the ledger whose height has run ahead. *)
Lemma addBlock_never_settles_without_last_block_witness :
  never_settles (overcounted_ledger text_digest)
    (call (_addBlock text_digest 1) (overcounted_ledger text_digest)).
Proof.
  apply (addBlock_never_settles_without_last_block text_digest
           (overcounted_ledger text_digest) 1).
  - cbn [height overcounted_ledger]. lia.
  - intros r b [<-|[]] Hb. inversion Hb; subst b. discriminate.
Defined.

(** The clock of the sample ledgers: 1700000000123 ms. *)
Lemma getCurrentTimeStamp_is_whole_seconds_witness :
  call _getCurrentTimeStamp (ledger1 text_digest) =
    (start (ledger1 text_digest),
     Normal (VStr (Z_toString (now (ledger1 text_digest) / 1000)))) /\
  parseInt (Z_toString (now (ledger1 text_digest) / 1000)) =
    Num (now (ledger1 text_digest) / 1000).
Proof.
  apply (getCurrentTimeStamp_is_whole_seconds (ledger1 text_digest)).
  cbn [now ledger1]. lia.
Defined.

Lemma requestMessage_witness :
  snd (call (requestMessageOwnershipVerification "addr1") (ledger1 text_digest)) =
    Normal (VPromise 0%nat) /\
  forall n,
    fulfilled 0
      (VStr ("addr1" +:+ ":" +:+ Z_toString (now (ledger1 text_digest) / 1000)
               +:+ ":starRegistry"))
      (drain n (fst (call (requestMessageOwnershipVerification "addr1")
                       (ledger1 text_digest)))) /\
    mworld (drain n (fst (call (requestMessageOwnershipVerification "addr1")
                            (ledger1 text_digest)))) = ledger1 text_digest.
Proof.
  apply (requestMessage_gives_address_seconds_starRegistry "addr1" (ledger1 text_digest)).
  cbn [now ledger1]. lia.
Defined.

(** A message requested when the clock of the sample ledgers shows
    1700000000123, submitted to the fresh ledger 200 seconds later, and
    301 seconds later. *)
Lemma challenge_accepted_witness :
  exists n,
    jobs (drain n (fst (call (submitStar text_digest accept "addr1"
                                ("addr1" +:+ ":" +:+ Z_toString (1700000000123 / 1000)
                                   +:+ ":starRegistry")
                                "sig" star_coords)
                             (at_time 1700000200123 (ledger0 text_digest))))) = [] /\
    fulfilled 6 (VBlock (length (objects (at_time 1700000200123 (ledger0 text_digest)))))
      (drain n (fst (call (submitStar text_digest accept "addr1"
                             ("addr1" +:+ ":" +:+ Z_toString (1700000000123 / 1000)
                                +:+ ":starRegistry")
                             "sig" star_coords)
                          (at_time 1700000200123 (ledger0 text_digest))))) /\
    chain (mworld (drain n (fst (call (submitStar text_digest accept "addr1"
                                         ("addr1" +:+ ":" +:+ Z_toString (1700000000123 / 1000)
                                            +:+ ":starRegistry")
                                         "sig" star_coords)
                                      (at_time 1700000200123 (ledger0 text_digest)))))) =
      chain (at_time 1700000200123 (ledger0 text_digest)) ++
      [length (objects (at_time 1700000200123 (ledger0 text_digest)))] /\
    height (mworld (drain n (fst (call (submitStar text_digest accept "addr1"
                                          ("addr1" +:+ ":" +:+ Z_toString (1700000000123 / 1000)
                                             +:+ ":starRegistry")
                                          "sig" star_coords)
                                       (at_time 1700000200123 (ledger0 text_digest)))))) =
      height (at_time 1700000200123 (ledger0 text_digest)) + 1.
Proof.
  apply (challenge_accepted_within_300_seconds text_digest accept "addr1" "sig" star_coords
           (ledger0 text_digest) (at_time 1700000200123 (ledger0 text_digest)));
    [reflexivity|cbn [now ledger0]; lia|cbn [now at_time]; lia
    |vm_compute; discriminate|reflexivity|apply intact_at_time, ledger0_intact].
Defined.

Lemma challenge_ignored_witness :
  never_settles (at_time 1700000301123 (ledger0 text_digest))
    (call (submitStar text_digest accept "addr1"
             ("addr1" +:+ ":" +:+ Z_toString (1700000000123 / 1000) +:+ ":starRegistry")
             "sig" star_coords)
          (at_time 1700000301123 (ledger0 text_digest))).
Proof.
  apply (challenge_ignored_after_300_seconds text_digest accept "addr1" "sig" star_coords
           (ledger0 text_digest) (at_time 1700000301123 (ledger0 text_digest)));
    [reflexivity|cbn [now ledger0]; lia|cbn [now at_time]; lia|vm_compute; reflexivity].
Defined.

(** The ledger after [new Blockchain()] and one star of [addr1]. *)
Lemma built_ledgers_are_intact_witness :
  intact text_digest
    (mworld (drain 12 (fst (call (submitStar text_digest accept "addr1"
                                    "addr1:1700000000:starRegistry" "sig" star_coords)
                                 (mworld (drain 4 (fst (call (new_Blockchain text_digest)
                                                          (blank 1700000000123))))))))).
Proof.
  apply (built_ledgers_are_intact text_digest accept).
  apply built_star; [apply built_new|vm_compute; reflexivity|reflexivity|vm_compute; reflexivity].
Defined.

(** The same star of [addr1] submitted twice to the fresh ledger. *)
Lemma submitStar_twice_witness :
  exists n1 n2,
    let w1 := mworld (drain n1 (fst (call (submitStar text_digest accept "addr1"
                                             "addr1:1700000000:starRegistry" "sig"
                                             star_coords) (ledger0 text_digest)))) in
    let m2 := drain n2 (fst (call (submitStar text_digest accept "addr1"
                                     "addr1:1700000000:starRegistry" "sig" star_coords)
                                  w1)) in
    jobs (drain n1 (fst (call (submitStar text_digest accept "addr1"
                                 "addr1:1700000000:starRegistry" "sig" star_coords)
                              (ledger0 text_digest)))) = [] /\
    jobs m2 = [] /\
    fulfilled 6 (VBlock (length (objects (ledger0 text_digest)) + 1)) m2 /\
    chain (mworld m2) =
      chain (ledger0 text_digest) ++
      [length (objects (ledger0 text_digest));
       (length (objects (ledger0 text_digest)) + 1)%nat] /\
    height (mworld m2) = height (ledger0 text_digest) + 2 /\
    (forall r b, (r = length (objects (ledger0 text_digest)) \/
                  r = (length (objects (ledger0 text_digest)) + 1)%nat) ->
       objects (mworld m2) !! r = Some b ->
       BlockClass.body b =
       hex_encode (JSON_stringify (JObj [("star", star_coords); ("owner", JStr "addr1")]))).
Proof.
  apply (submitStar_accepts_the_same_message_twice text_digest accept "addr1"
           "addr1:1700000000:starRegistry" "sig" star_coords (ledger0 text_digest));
    [apply ledger0_intact|reflexivity|reflexivity].
Defined.

(** The stars of [addr1] in the ledger of one record, in a scope that
    declares [obj]. *)
Lemma getStars_fills_array_after_answering_witness :
  snd (call (getStarsByWalletAddress hex_decode sample_parse "addr1")
         (set_global_obj (Some VUndefined) (ledger1 text_digest))) = Normal (VPromise 0%nat) /\
  fulfilled 0 (VArray (length (arrays (set_global_obj (Some VUndefined) (ledger1 text_digest)))))
    (fst (call (getStarsByWalletAddress hex_decode sample_parse "addr1")
            (set_global_obj (Some VUndefined) (ledger1 text_digest)))) /\
  arrays (mworld (fst (call (getStarsByWalletAddress hex_decode sample_parse "addr1")
                         (set_global_obj (Some VUndefined) (ledger1 text_digest)))))
    !! length (arrays (set_global_obj (Some VUndefined) (ledger1 text_digest))) = Some [] /\
  exists n,
    jobs (drain n (fst (call (getStarsByWalletAddress hex_decode sample_parse "addr1")
                          (set_global_obj (Some VUndefined) (ledger1 text_digest))))) = [] /\
    forall n', (n <= n')%nat ->
      fulfilled 0
        (VArray (length (arrays (set_global_obj (Some VUndefined) (ledger1 text_digest)))))
        (drain n' (fst (call (getStarsByWalletAddress hex_decode sample_parse "addr1")
                          (set_global_obj (Some VUndefined) (ledger1 text_digest))))) /\
      arrays (mworld (drain n' (fst (call (getStarsByWalletAddress hex_decode sample_parse
                                             "addr1")
                                      (set_global_obj (Some VUndefined)
                                         (ledger1 text_digest)))))) =
        arrays (set_global_obj (Some VUndefined) (ledger1 text_digest)) ++
        [stars_of hex_decode sample_parse "addr1"
           (set_global_obj (Some VUndefined) (ledger1 text_digest))] /\
      objects (mworld (drain n' (fst (call (getStarsByWalletAddress hex_decode sample_parse
                                              "addr1")
                                       (set_global_obj (Some VUndefined)
                                          (ledger1 text_digest)))))) =
        objects (set_global_obj (Some VUndefined) (ledger1 text_digest)) /\
      chain (mworld (drain n' (fst (call (getStarsByWalletAddress hex_decode sample_parse
                                            "addr1")
                                     (set_global_obj (Some VUndefined)
                                        (ledger1 text_digest)))))) =
        chain (set_global_obj (Some VUndefined) (ledger1 text_digest)) /\
      height (mworld (drain n' (fst (call (getStarsByWalletAddress hex_decode sample_parse
                                             "addr1")
                                      (set_global_obj (Some VUndefined)
                                         (ledger1 text_digest)))))) =
        height (set_global_obj (Some VUndefined) (ledger1 text_digest)).
Proof.
  apply (getStars_fills_array_after_answering hex_decode sample_parse
           (set_global_obj (Some VUndefined) (ledger1 text_digest)) "addr1" VUndefined).
  reflexivity.
Defined.

(** What that array holds: the one record. *)
Lemma stars_of_ledger1 :
  stars_of hex_decode sample_parse "addr1"
    (set_global_obj (Some VUndefined) (ledger1 text_digest)) = [VData star1].
Proof. vm_compute. reflexivity. Qed.

(** The star of [addr1] submitted to the fresh ledger, then looked up. *)
Lemma submitted_star_is_listed_witness :
  exists n w',
    jobs (drain n (fst (call (submitStar text_digest accept "addr1"
                                "addr1:1700000000:starRegistry" "sig" star_coords)
                             (set_global_obj (Some VUndefined) (ledger0 text_digest))))) = [] /\
    mworld (drain n (fst (call (submitStar text_digest accept "addr1"
                                  "addr1:1700000000:starRegistry" "sig" star_coords)
                               (set_global_obj (Some VUndefined) (ledger0 text_digest))))) = w' /\
    exists n2, forall n', (n2 <= n')%nat ->
      arrays (mworld (drain n' (fst (call (getStarsByWalletAddress hex_decode sample_parse
                                             "addr1") w')))) =
      arrays w' ++ [stars_of hex_decode sample_parse "addr1"
                      (set_global_obj (Some VUndefined) (ledger0 text_digest)) ++
                    [VData (JObj [("star", star_coords); ("owner", JStr "addr1")])]].
Proof.
  apply (submitted_star_is_listed text_digest accept hex_decode sample_parse "addr1"
           "addr1:1700000000:starRegistry" "sig" star_coords
           (set_global_obj (Some VUndefined) (ledger0 text_digest)) VUndefined);
    [apply intact_set_global_obj, ledger0_intact | cbn [height set_global_obj ledger0]; lia
    | reflexivity | reflexivity | reflexivity | vm_compute; reflexivity].
Defined.

